(** * Admin article controller: create / update / delete orchestration

    A shallow embedding of [AdminArticleController] (src/articledto.ts) and
    of the JavaScript built-ins its bodies rely on ([JSON.parse],
    [String.prototype.split], [trim], [Array.prototype.flat], truthiness).

    - JavaScript strings are sequences of UTF-16 code units: [list N].
    - A thrown value is an [Error] of some class with a message, or a value
      that is not an [Error] at all.
    - The injected collaborators (use cases, tag repository, file uploader,
      file service) are not part of the controller: an [Env] answers every
      call, as a function of the calls made so far, with a result or a
      thrown value.  A controller method is a function from the history to
      its outcome and the events it emitted. *)

From Stdlib Require Import List ZArith NArith String Ascii Bool Lia.
From stdpp Require Import base decidable countable gmap.
Import ListNotations.
Open Scope list_scope.
Set Warnings "-register-all".

(** ** Strings *)

Abbreviation jstring := (list N).

(** The code units of an ASCII literal. *)
Definition str (s : string) : jstring :=
  List.map N_of_ascii (list_ascii_of_string s).

Arguments str : simpl never.

Definition jstring_eqb (a b : jstring) : bool :=
  bool_decide (a = b).

(** ECMAScript WhiteSpace and LineTerminator code units: what [trim] strips. *)
Definition is_js_whitespace (c : N) : bool :=
  (N.eqb c 9 || N.eqb c 10 || N.eqb c 11 || N.eqb c 12 || N.eqb c 13 ||
   N.eqb c 32 || N.eqb c 160 || N.eqb c 5760 ||
   (N.leb 8192 c && N.leb c 8202) ||
   N.eqb c 8232 || N.eqb c 8233 || N.eqb c 8239 || N.eqb c 8287 ||
   N.eqb c 12288 || N.eqb c 65279)%bool.

Fixpoint trim_start (s : jstring) : jstring :=
  match s with
  | [] => []
  | c :: r => if is_js_whitespace c then trim_start r else s
  end.

(** [String.prototype.trim]. *)
Definition trim (s : jstring) : jstring :=
  rev (trim_start (rev (trim_start s))).

Definition comma : N := 44.

(** [split_from cur s]: the pieces of [s] between commas, where [cur] is
    the (reversed) piece being read. *)
Fixpoint split_from (cur : jstring) (s : jstring) : list jstring :=
  match s with
  | [] => [rev cur]
  | c :: r =>
      if N.eqb c comma then rev cur :: split_from [] r
      else split_from (c :: cur) r
  end.

(** [s.split(",")]: never empty, [[""]] for the empty string. *)
Definition split_comma (s : jstring) : list jstring := split_from [] s.

(** [ids.join(",")]. *)
Fixpoint join_comma (l : list jstring) : jstring :=
  match l with
  | [] => []
  | [x] => x
  | x :: r => x ++ comma :: join_comma r
  end.

Fixpoint is_prefix (p s : jstring) : bool :=
  match p, s with
  | [], _ => true
  | _ :: _, [] => false
  | a :: p', b :: s' => N.eqb a b && is_prefix p' s'
  end.

(** [s.includes(p)]. *)
Fixpoint jincludes (s p : jstring) : bool :=
  is_prefix p s ||
  match s with
  | [] => false
  | _ :: r => jincludes r p
  end.

(** ** JavaScript values *)

(** A JSON numeric literal [(-1)^neg * mant * 10^exp]; the Number it
    denotes is the double nearest to that rational. *)
Record JSNumber := {
  num_neg : bool;
  num_mant : N;
  num_exp : Z
}.

Inductive JSValue :=
| JUndefined
| JNull
| JBool (b : bool)
| JNumber (n : JSNumber)
| JString (s : jstring)
| JArray (items : list JSValue)
| JObject (members : list (jstring * JSValue)).

(** The literal denotes [+0] or [-0]: its mantissa is zero, or it is so
    small that it rounds to zero (at most half the least subnormal,
    [2^-1075]; the tie goes to the even mantissa, zero). *)
Definition number_is_zero (n : JSNumber) : bool :=
  N.eqb (num_mant n) 0 ||
  (Z.ltb (num_exp n) 0 &&
   Z.leb (Z.of_N (num_mant n) * 2 ^ 1075) (10 ^ (- num_exp n))).

(** ToBoolean. *)
Definition truthy (v : JSValue) : bool :=
  match v with
  | JUndefined | JNull => false
  | JBool b => b
  | JNumber n => negb (number_is_zero n)
  | JString s => match s with [] => false | _ => true end
  | JArray _ | JObject _ => true
  end.

(** Own property of an object built by [JSON.parse]: the last member with
    that key wins. *)
Fixpoint own_property (ms : list (jstring * JSValue)) (k : jstring) : JSValue :=
  match ms with
  | [] => JUndefined
  | (k', v) :: r =>
      match own_property r k with
      | JUndefined => if jstring_eqb k' k then v else JUndefined
      | later => later
      end
  end.

(** [Array.prototype.flat()] (depth 1). *)
Fixpoint flat (l : list JSValue) : list JSValue :=
  match l with
  | [] => []
  | JArray inner :: r => inner ++ flat r
  | v :: r => v :: flat r
  end.

(** [item !== null && item !== undefined]. *)
Definition not_nullish (v : JSValue) : bool :=
  match v with
  | JUndefined | JNull => false
  | _ => true
  end.

(** [v === s] for a string [s]: strict equality never converts. *)
Definition strict_eq_string (v : JSValue) (s : jstring) : bool :=
  match v with
  | JString t => jstring_eqb t s
  | _ => false
  end.

(** [l.includes(s)] for a string [s] (SameValueZero). *)
Definition includes_string (l : list JSValue) (s : jstring) : bool :=
  existsb (fun v => strict_eq_string v s) l.

(** ** [JSON.parse] *)

Module JSON.

Inductive Token :=
| TLBracket | TRBracket | TLBrace | TRBrace | TComma | TColon
| TString (s : jstring)
| TNumber (n : JSNumber)
| TTrue | TFalse | TNull.

Definition is_digit (c : N) : bool := N.leb 48 c && N.leb c 57.

Definition digit_value (c : N) : N := (c - 48)%N.

Definition hex_value (c : N) : option N :=
  if is_digit c then Some (c - 48)%N
  else if N.leb 65 c && N.leb c 70 then Some (c - 55)%N
  else if N.leb 97 c && N.leb c 102 then Some (c - 87)%N
  else None.

(** Characters of a number or of [true], [false], [null]: a maximal run of
    them is one lexeme.  No character that may follow a value in valid JSON
    (white space, [,], [:], brackets, quotes) is among them. *)
Definition is_word_char (c : N) : bool :=
  is_digit c || N.eqb c 45 || N.eqb c 43 || N.eqb c 46 ||
  (N.leb 65 c && N.leb c 90) || (N.leb 97 c && N.leb c 122).

Fixpoint span_digits (s : jstring) : jstring * jstring :=
  match s with
  | c :: r =>
      if is_digit c then let '(d, rest) := span_digits r in (c :: d, rest)
      else ([], s)
  | [] => ([], [])
  end.

Definition digits_value (d : jstring) : N :=
  fold_left (fun acc c => acc * 10 + digit_value c)%N d 0%N.

(** The optional exponent part [[eE][+-]?[0-9]+], which must end the lexeme. *)
Definition lex_exponent (s : jstring) : option Z :=
  match s with
  | [] => Some 0%Z
  | c :: r =>
      if N.eqb c 101 || N.eqb c 69 then
        let '(sign, r') :=
          match r with
          | 43%N :: r' => (1%Z, r')
          | 45%N :: r' => ((-1)%Z, r')
          | _ => (1%Z, r)
          end in
        match span_digits r' with
        | ((_ :: _) as d, []) => Some (sign * Z.of_N (digits_value d))%Z
        | _ => None
        end
      else None
  end.

(** The optional fraction [\.[0-9]+] followed by the optional exponent. *)
Definition lex_fraction (neg : bool) (int : jstring) (s : jstring) : option JSNumber :=
  match s with
  | 46%N :: r =>
      match span_digits r with
      | ((_ :: _) as frac, rest) =>
          match lex_exponent rest with
          | Some e =>
              Some {| num_neg := neg;
                      num_mant := digits_value (int ++ frac);
                      num_exp := (e - Z.of_nat (length frac))%Z |}
          | None => None
          end
      | _ => None
      end
  | _ =>
      match lex_exponent s with
      | Some e => Some {| num_neg := neg; num_mant := digits_value int; num_exp := e |}
      | None => None
      end
  end.

(** A JSON number: an optional minus sign, then [0] or a digit string
    with no leading zero, then the optional fraction and exponent. *)
Definition lex_number (s : jstring) : option JSNumber :=
  let '(neg, s1) :=
    match s with
    | 45%N :: r => (true, r)
    | _ => (false, s)
    end in
  match span_digits s1 with
  | ([48%N], rest) => lex_fraction neg [48%N] rest
  | (48%N :: _ :: _, _) => None
  | ((_ :: _) as int, rest) => lex_fraction neg int rest
  | ([], _) => None
  end.

Definition classify_word (w : jstring) : option Token :=
  if jstring_eqb w (str "true") then Some TTrue
  else if jstring_eqb w (str "false") then Some TFalse
  else if jstring_eqb w (str "null") then Some TNull
  else option_map TNumber (lex_number w).

Inductive LexState :=
| LIdle
| LWord (acc : jstring)
| LStr (acc : jstring)
| LEsc (acc : jstring)
| LUni (acc : jstring) (seen : nat) (v : N).

(** One character outside any lexeme. *)
Definition lex_idle (c : N) (out : list Token) : option (LexState * list Token) :=
  if N.eqb c 9 || N.eqb c 10 || N.eqb c 13 || N.eqb c 32 then Some (LIdle, out)
  else if N.eqb c 91 then Some (LIdle, TLBracket :: out)
  else if N.eqb c 93 then Some (LIdle, TRBracket :: out)
  else if N.eqb c 123 then Some (LIdle, TLBrace :: out)
  else if N.eqb c 125 then Some (LIdle, TRBrace :: out)
  else if N.eqb c 44 then Some (LIdle, TComma :: out)
  else if N.eqb c 58 then Some (LIdle, TColon :: out)
  else if N.eqb c 34 then Some (LStr [], out)
  else if is_word_char c then Some (LWord [c], out)
  else None.

Definition lex_escape (c : N) : option N :=
  if N.eqb c 34 then Some 34%N
  else if N.eqb c 92 then Some 92%N
  else if N.eqb c 47 then Some 47%N
  else if N.eqb c 98 then Some 8%N
  else if N.eqb c 102 then Some 12%N
  else if N.eqb c 110 then Some 10%N
  else if N.eqb c 114 then Some 13%N
  else if N.eqb c 116 then Some 9%N
  else None.

(** The lexer is a state machine over the code units; accumulators and the
    token list are kept reversed. *)
Definition lex_step (st : LexState) (c : N) (out : list Token)
  : option (LexState * list Token) :=
  match st with
  | LIdle => lex_idle c out
  | LWord acc =>
      if is_word_char c then Some (LWord (c :: acc), out)
      else
        match classify_word (rev acc) with
        | Some t => lex_idle c (t :: out)
        | None => None
        end
  | LStr acc =>
      if N.eqb c 34 then Some (LIdle, TString (rev acc) :: out)
      else if N.eqb c 92 then Some (LEsc acc, out)
      else if N.ltb c 32 then None
      else Some (LStr (c :: acc), out)
  | LEsc acc =>
      if N.eqb c 117 then Some (LUni acc 0 0%N, out)
      else
        match lex_escape c with
        | Some u => Some (LStr (u :: acc), out)
        | None => None
        end
  | LUni acc seen v =>
      match hex_value c with
      | Some h =>
          let v' := (v * 16 + h)%N in
          match seen with
          | 3 => Some (LStr (v' :: acc), out)
          | _ => Some (LUni acc (S seen) v', out)
          end
      | None => None
      end
  end.

Fixpoint lex_from (st : LexState) (out : list Token) (s : jstring) : option (list Token) :=
  match s with
  | [] =>
      match st with
      | LIdle => Some (rev out)
      | LWord acc =>
          match classify_word (rev acc) with
          | Some t => Some (rev (t :: out))
          | None => None
          end
      | _ => None
      end
  | c :: r =>
      match lex_step st c out with
      | Some (st', out') => lex_from st' out' r
      | None => None
      end
  end.

Definition lex (s : jstring) : option (list Token) := lex_from LIdle [] s.

(** An open container: the elements read so far (reversed) and, in an
    object, the key whose value is awaited. *)
Inductive Frame :=
| FArr (items : list JSValue)
| FObj (members : list (jstring * JSValue)) (key : option jstring).

Inductive Expect :=
| EValue          (* a value: at the start, after [,] in an array, after [:] *)
| EValueOrClose   (* just after an opening square bracket *)
| EKeyOrClose     (* just after an opening brace *)
| EKey            (* after [,] in an object *)
| EColon
| ESep            (* after an element: [,] or the closing bracket *)
| EDone (v : JSValue).

(** A complete value goes to the innermost open container. *)
Definition deliver (v : JSValue) (stk : list Frame) : option (Expect * list Frame) :=
  match stk with
  | [] => Some (EDone v, [])
  | FArr items :: r => Some (ESep, FArr (v :: items) :: r)
  | FObj ms (Some k) :: r => Some (ESep, FObj ((k, v) :: ms) None :: r)
  | FObj _ None :: _ => None
  end.

Definition start_value (t : Token) (stk : list Frame) : option (Expect * list Frame) :=
  match t with
  | TLBracket => Some (EValueOrClose, FArr [] :: stk)
  | TLBrace => Some (EKeyOrClose, FObj [] None :: stk)
  | TString s => deliver (JString s) stk
  | TNumber n => deliver (JNumber n) stk
  | TTrue => deliver (JBool true) stk
  | TFalse => deliver (JBool false) stk
  | TNull => deliver JNull stk
  | TRBracket | TRBrace | TComma | TColon => None
  end.

Definition close_array (stk : list Frame) : option (Expect * list Frame) :=
  match stk with
  | FArr items :: r => deliver (JArray (rev items)) r
  | _ => None
  end.

Definition close_object (stk : list Frame) : option (Expect * list Frame) :=
  match stk with
  | FObj ms None :: r => deliver (JObject (rev ms)) r
  | _ => None
  end.

Definition take_key (t : Token) (stk : list Frame) : option (Expect * list Frame) :=
  match t, stk with
  | TString k, FObj ms None :: r => Some (EColon, FObj ms (Some k) :: r)
  | _, _ => None
  end.

Definition parse_step (st : Expect * list Frame) (t : Token) : option (Expect * list Frame) :=
  let '(e, stk) := st in
  match e with
  | EValue => start_value t stk
  | EValueOrClose =>
      match t with
      | TRBracket => close_array stk
      | _ => start_value t stk
      end
  | EKeyOrClose =>
      match t with
      | TRBrace => close_object stk
      | _ => take_key t stk
      end
  | EKey => take_key t stk
  | EColon =>
      match t with
      | TColon => Some (EValue, stk)
      | _ => None
      end
  | ESep =>
      match t, stk with
      | TComma, FArr _ :: _ => Some (EValue, stk)
      | TComma, FObj _ None :: _ => Some (EKey, stk)
      | TRBracket, _ => close_array stk
      | TRBrace, _ => close_object stk
      | _, _ => None
      end
  | EDone _ => None
  end.

Fixpoint parse_tokens (st : Expect * list Frame) (ts : list Token) : option JSValue :=
  match ts with
  | [] =>
      match st with
      | (EDone v, []) => Some v
      | _ => None
      end
  | t :: r =>
      match parse_step st t with
      | Some st' => parse_tokens st' r
      | None => None
      end
  end.

(** [JSON.parse(s)]: the value, or [None] where it throws a [SyntaxError]. *)
Definition parse (s : jstring) : option JSValue :=
  match lex s with
  | Some ts => parse_tokens (EValue, []) ts
  | None => None
  end.

End JSON.

(** ** Thrown values *)

(** The classes the controller tells apart with [instanceof]; [OtherError]
    is any other subclass of [Error].  [HttpException] carries its status. *)
Inductive ErrorClass :=
| UnauthorizedException
| ForbiddenException
| NotFoundException
| BadRequestException
| InternalServerErrorException
| HttpException (status : Z)
| SyntaxError
| TypeError
| OtherError.

Inductive Thrown :=
| ThrownError (cls : ErrorClass) (message : jstring)
| ThrownValue.   (* a thrown value that is not an instance of Error *)

Definition Outcome (A : Type) : Type := (Thrown + A)%type.

(** [error instanceof Error ? error.message : "Unknown error"] *)
Definition error_message (e : Thrown) : jstring :=
  match e with
  | ThrownError _ m => m
  | ThrownValue => str "Unknown error"
  end.

Definition is_class (c : ErrorClass) (e : Thrown) : bool :=
  match e with
  | ThrownError c' _ =>
      match c, c' with
      | UnauthorizedException, UnauthorizedException
      | ForbiddenException, ForbiddenException
      | NotFoundException, NotFoundException
      | BadRequestException, BadRequestException
      | InternalServerErrorException, InternalServerErrorException
      | SyntaxError, SyntaxError
      | TypeError, TypeError => true
      | _, _ => false
      end
  | ThrownValue => false
  end.

Definition Unauthorized (m : string) : Thrown := ThrownError UnauthorizedException (str m).
Definition Forbidden (m : string) : Thrown := ThrownError ForbiddenException (str m).
Definition NotFound (m : string) : Thrown := ThrownError NotFoundException (str m).
Definition BadRequest (m : jstring) : Thrown := ThrownError BadRequestException m.
Definition InternalServerError (m : string) : Thrown :=
  ThrownError InternalServerErrorException (str m).

(** Reading a property of [null] or [undefined] (the message is V8's). *)
Definition null_read (what prop : string) : Thrown :=
  ThrownError TypeError
    (str "Cannot read properties of " ++ str what ++ str " (reading '" ++ str prop ++ str "')").

(** [v.k] for a key [k] that no prototype defines ([name], [nameAr]). *)
Definition get_member (v : JSValue) (k : string) : Outcome JSValue :=
  match v with
  | JUndefined => inl (null_read "undefined" k)
  | JNull => inl (null_read "null" k)
  | JObject ms => inr (own_property ms (str k))
  | JBool _ | JNumber _ | JString _ | JArray _ => inr JUndefined
  end.

(** ** Domain entities and request shapes *)

Abbreviation Date := Z.
Abbreviation Buffer := (list Byte.byte).

Inductive ArticleStatus := DRAFT | PUBLISHED | ARCHIVED.

(** The three roles the controller names, and any other role the domain's
    [UserRole] may hold. *)
Inductive UserRole := AUTHOR | EDITOR | ADMIN | OTHER_ROLE (name : jstring).

Record User := {
  user_id : jstring;
  user_email : jstring;
  user_role : UserRole
}.

Record IFile := {
  file_id : jstring;
  file_url : jstring;
  file_filename : jstring;
  file_mimetype : jstring;
  file_size : Z;
  file_path : option jstring;
  file_createdAt : Date;
  file_updatedAt : Date
}.

(** [name] and [nameAr] of a tag made from inline JSON hold whatever the
    JSON held. *)
Record ITag := {
  tag_id : jstring;
  tag_name : JSValue;
  tag_nameAr : JSValue;
  tag_createdAt : Date;
  tag_updatedAt : Date
}.

(** An element of an update command's [tags]: a tag entity, or the bare
    [{ id }] the update flow builds for an incoming id. *)
Inductive TagRef :=
| TagEntity (t : ITag)
| TagPlaceholder (id : JSValue).

Record Category := {
  cat_id : jstring;
  cat_name : jstring;
  cat_nameAr : jstring
}.

(** The six text fields, which every flow copies as they are. *)
Record Texts := {
  title : jstring;
  titleAr : jstring;
  content : jstring;
  contentAr : jstring;
  summary : jstring;
  summaryAr : jstring
}.

Record RelatedArticle := {
  rel_id : jstring;
  rel_title : jstring;
  rel_titleAr : jstring;
  rel_categoryId : jstring;
  rel_category : option Category;
  rel_featuredMedia : option IFile;
  rel_tags : option (list ITag)
}.

(** An article as [getArticleByIdQuery] returns it.  Timestamps, view
    counter and slugs are carried along untouched by every flow and are
    left out. *)
Record Article := {
  art_id : jstring;
  art_texts : Texts;
  art_authorId : jstring;
  art_authorEmail : jstring;
  art_category : option Category;
  art_status : ArticleStatus;
  art_tags : option (list ITag);
  art_images : option (list IFile);
  art_videos : option (list IFile);
  art_featuredMedia : option IFile;
  art_relatedArticles : list RelatedArticle
}.

(** One uploaded file of a multipart request; [mf_buffer] is absent when
    the file carries no byte payload. *)
Record MulterFile := {
  mf_buffer : option Buffer;
  mf_originalname : jstring;
  mf_mimetype : jstring;
  mf_size : Z
}.

(** The [files] argument at its declared type: each field optional, each
    an array whose elements the code guards with [file?.buffer].  (The
    three [typeof files.x === "string"] tests of [create] cannot hold at
    this type and are not modelled.) *)
Record Files := {
  files_featuredMedia : option (list (option MulterFile));
  files_images : option (list (option MulterFile));
  files_videos : option (list (option MulterFile))
}.

Record CreateArticleDto := {
  cdto_texts : Texts;
  cdto_categoryId : jstring;
  cdto_status : option ArticleStatus;
  cdto_tags : option jstring;
  cdto_tagIds : option (jstring + list jstring)
}.

Record CreateArticleCommand := {
  cc_texts : Texts;
  cc_authorId : jstring;
  cc_authorEmail : jstring;
  cc_categoryId : jstring;
  cc_status : ArticleStatus;
  cc_images : list IFile;
  cc_videos : list IFile;
  cc_featuredMedia : option IFile;
  cc_featuredMediaId : option jstring;
  cc_tags : list ITag
}.

Record TextsPatch := {
  p_title : option jstring;
  p_titleAr : option jstring;
  p_content : option jstring;
  p_contentAr : option jstring;
  p_summary : option jstring;
  p_summaryAr : option jstring
}.

Record UpdateArticleDto := {
  udto_texts : TextsPatch;
  udto_categoryId : option jstring;
  udto_removedImages : JSValue;
  udto_removedVideos : JSValue;
  udto_removedTags : JSValue;
  udto_tags : JSValue
}.

(** Every field but [id] may be absent. *)
Record UpdateArticleCommand := {
  uc_id : jstring;
  uc_texts : TextsPatch;
  uc_categoryId : option jstring;
  uc_images : option (list IFile);
  uc_videos : option (list IFile);
  uc_tags : option (list TagRef);
  uc_tagsToRemove : option (list JSValue);
  uc_featuredMedia : option IFile;
  uc_featuredMediaId : option jstring
}.

Record TagDto := {
  tdto_id : jstring;
  tdto_name : JSValue;
  tdto_nameAr : JSValue
}.

Record MediaDto := {
  mdto_id : jstring;
  mdto_url : jstring
}.

Record DisplayArticleDto := {
  d_id : jstring;
  d_texts : Texts;
  d_authorId : jstring;
  d_authorEmail : jstring;
  d_categoryId : jstring;
  d_category : option Category;
  d_tags : option (list TagDto);
  d_status : ArticleStatus;
  d_images : option (list MediaDto);
  d_videos : option (list MediaDto);
  d_featuredMedia : option MediaDto
}.

Record RelatedArticleDto := {
  rd_id : jstring;
  rd_title : jstring;
  rd_titleAr : jstring;
  rd_categoryId : jstring;
  rd_category : option Category;
  rd_featuredMedia : option MediaDto;
  rd_tags : option (list TagDto)
}.

Record DisplayArticleWithRelatedDto := {
  dr_article : DisplayArticleDto;
  dr_relatedArticles : list RelatedArticleDto
}.

Record GetArticleDto := {
  g_id : jstring;
  g_title : jstring;
  g_titleAr : jstring;
  g_summary : jstring;
  g_summaryAr : jstring;
  g_category : option Category;
  g_authorId : jstring;
  g_authorEmail : jstring;
  g_status : ArticleStatus;
  g_tags : option (list TagDto);
  g_featuredMedia : option MediaDto
}.

Record ListArticlesDto := {
  l_categoryId : option jstring;
  l_tagId : option jstring;
  l_status : option ArticleStatus;
  l_authorId : option jstring;
  l_page : Z;
  l_limit : Z;
  l_sortBy : option jstring;
  l_sortOrder : option jstring
}.

Record ArticleFilters := {
  f_categoryId : option jstring;
  f_tags : option (list ITag);
  f_status : option ArticleStatus;
  f_authorId : option jstring
}.

Record ListQuery := {
  q_page : Z;
  q_limit : Z;
  q_sortBy : option jstring;
  q_sortOrder : option jstring;
  q_filters : ArticleFilters
}.

(** [meta_totalPages] is [None] where the quotient is not a number or is
    infinite (a zero [limit]). *)
Record Metadata := {
  meta_total : Z;
  meta_totalPages : option Z
}.

Record ListResult := {
  lr_data : list Article;
  lr_metadata : Metadata
}.

Record PaginatedArticleResponseDto := {
  pr_data : list GetArticleDto;
  pr_metadata : Metadata
}.

Record SearchArticlesDto := {
  s_text : jstring;
  s_page : option Z;
  s_pageSize : option Z
}.

Record SearchResult := {
  sr_articles : list Article;
  sr_totalResults : Z
}.

Record SearchArticlesResponseDto := {
  srd_articles : list Article;
  srd_page : Z;
  srd_pageSize : Z;
  srd_totalResults : Z
}.

Record ArchiveResult := {
  totalProcessed : Z;
  archived : Z
}.

(** ** The collaborators *)

(** A call on one of the fifteen injected dependencies. *)
Inductive Call :=
| CreateArticleUsecase (command : CreateArticleCommand) (user : User)
| GetArticleByIdQuery (id : jstring)
| UpdateArticleUsecase (command : UpdateArticleCommand)
| ListArticlesUsecase (query : ListQuery)
| DeleteArticleUsecase (id : jstring)
| PublishArticleUsecase (articleId : jstring)
| UnpublishArticleUsecase (articleId : jstring)
| RemoveTagFromArticleUsecase (articleId tagId : jstring)
| ArchiveArticlesUsecase (articleIds : list jstring)
| SearchArticlesUsecase (query : SearchArticlesDto)
| RestoreArchivedArticleUsecase (id : jstring)
| AssignMultipleTagsUsecase (articleId : jstring) (tagIds : list jstring)
| FileUploader_uploadFile (buffer : option Buffer) (originalname mimetype : jstring)
| FileService_deleteFile (id : JSValue)
| TagRepository_findById (id : jstring)
| TagRepository_create (tag : ITag).

(** What a call resolves to.  The controller ignores the value of
    [updateArticleUsecase.execute] and of the [void] operations. *)
Definition Resp (c : Call) : Type :=
  match c with
  | CreateArticleUsecase _ _ => Article
  | GetArticleByIdQuery _ => option Article
  | UpdateArticleUsecase _ => unit
  | ListArticlesUsecase _ => ListResult
  | DeleteArticleUsecase _ => unit
  | PublishArticleUsecase _ => Article
  | UnpublishArticleUsecase _ => Article
  | RemoveTagFromArticleUsecase _ _ => unit
  | ArchiveArticlesUsecase _ => ArchiveResult
  | SearchArticlesUsecase _ => SearchResult
  | RestoreArchivedArticleUsecase _ => unit
  | AssignMultipleTagsUsecase _ _ => unit
  | FileUploader_uploadFile _ _ _ => IFile
  | FileService_deleteFile _ => unit
  | TagRepository_findById _ => option ITag
  | TagRepository_create _ => unit
  end.

(** What [console.error] was given. *)
Inductive LogEntry :=
| LogText (message : jstring)
| LogError (label : jstring) (error : Thrown)
| LogFileError (what : jstring) (fileId : JSValue) (error : Thrown).

Inductive Event :=
| Called (c : Call) (r : Outcome (Resp c))
| Logged (entry : LogEntry).

Abbreviation Trace := (list Event).

(** The world outside the controller: how each call is answered after a
    given history, and what the clock and the UUID generator give. *)
Record Env := {
  respond : forall (h : Trace) (c : Call), Outcome (Resp c);
  new_Date : Trace -> Date;
  randomUUID : Trace -> jstring
}.

(** ** Computations *)

(** A computation reads the history and yields its outcome together with
    the events it emitted. *)
Definition M (A : Type) : Type := Trace -> Outcome A * Trace.

Definition ret {A} (a : A) : M A := fun _ => (inr a, []).

Definition throw {A} (e : Thrown) : M A := fun _ => (inl e, []).

Definition bind {A B} (m : M A) (k : A -> M B) : M B :=
  fun h =>
    let '(o, t1) := m h in
    match o with
    | inl e => (inl e, t1)
    | inr a => let '(o2, t2) := k a (h ++ t1) in (o2, t1 ++ t2)
    end.

(** [try { m } catch (e) { handler e }] *)
Definition try_catch {A} (m : M A) (handler : Thrown -> M A) : M A :=
  fun h =>
    let '(o, t1) := m h in
    match o with
    | inl e => let '(o2, t2) := handler e (h ++ t1) in (o2, t1 ++ t2)
    | inr a => (inr a, t1)
    end.

Definition lift {A} (o : Outcome A) : M A := fun _ => (o, []).

Definition console_error (entry : LogEntry) : M unit :=
  fun _ => (inr tt, [Logged entry]).

Declare Scope ctrl_scope.
Delimit Scope ctrl_scope with ctrl.
Notation "x <- m ;; k" := (bind m (fun x => k))
  (at level 100, m at next level, right associativity) : ctrl_scope.
Notation "m ;;; k" := (bind m (fun _ => k))
  (at level 100, right associativity) : ctrl_scope.
Open Scope ctrl_scope.

(** The promises of a [map(async ...)]: every callback is started, in
    order, and each settles on its own. *)
Fixpoint settle_all {A B} (f : A -> M B) (l : list A) : M (list (Outcome B)) :=
  match l with
  | [] => ret []
  | a :: r =>
      fun h =>
        let '(o, t1) := f a h in
        let '(os, t2) := settle_all f r (h ++ t1) in
        (match os with
         | inr rest => inr (o :: rest)
         | inl e => inl e
         end, t1 ++ t2)
  end.

(** [Promise.all]: the values in the order of the promises, or a
    rejection.  Which rejection wins is a matter of timing; the model takes
    the first in the order of the list. *)
Fixpoint first_rejection {B} (os : list (Outcome B)) : Outcome (list B) :=
  match os with
  | [] => inr []
  | inl e :: _ => inl e
  | inr b :: r =>
      match first_rejection r with
      | inl e => inl e
      | inr bs => inr (b :: bs)
      end
  end.

Definition promise_all {A B} (f : A -> M B) (l : list A) : M (list B) :=
  os <- settle_all f l ;; lift (first_rejection os).

(** ** Pure helpers of the controller *)

Definition role_eqb (a b : UserRole) : bool :=
  match a, b with
  | AUTHOR, AUTHOR | EDITOR, EDITOR | ADMIN, ADMIN => true
  | OTHER_ROLE x, OTHER_ROLE y => jstring_eqb x y
  | _, _ => false
  end.

(** [roles.includes(role)] *)
Definition role_in (roles : list UserRole) (role : UserRole) : bool :=
  existsb (role_eqb role) roles.

Definition is_draft (s : ArticleStatus) : bool :=
  match s with DRAFT => true | _ => false end.

Definition is_published (s : ArticleStatus) : bool :=
  match s with PUBLISHED => true | _ => false end.

(** A string is truthy unless it is absent or empty. *)
Definition truthy_string (s : option jstring) : bool :=
  match s with
  | Some (_ :: _) => true
  | _ => false
  end.

(** [JSON.parse] as an outcome; the message of its [SyntaxError] is never
    read. *)
Definition json_parse (s : jstring) : Outcome JSValue :=
  match JSON.parse s with
  | Some v => inr v
  | None => inl (ThrownError SyntaxError (str "Unexpected token in JSON"))
  end.

(** [Array.isArray(parsed) ? parsed : [parsed]] *)
Definition array_or_singleton (parsed : JSValue) : list JSValue :=
  match parsed with
  | JArray items => items
  | v => [v]
  end.

(** The [forEach] that validates the tag structure: it stops at the first
    element it rejects. *)
Fixpoint validate_tags (parsedTags : list JSValue) : Outcome unit :=
  match parsedTags with
  | [] => inr tt
  | tagData :: rest =>
      match get_member tagData "name" with
      | inl e => inl e
      | inr name =>
          if truthy name then validate_tags rest
          else inl (BadRequest (str "Each tag must have a name"))
      end
  end.

(** The two attempts of [create] at reading [dto.tags]: the whole string,
    then the string wrapped in brackets. *)
Definition parse_whole_then_wrapped (tags : jstring) : Outcome JSValue :=
  match json_parse tags with
  | inr parsed => inr parsed
  | inl _ => json_parse (str "[" ++ tags ++ str "]")
  end.

(** [create], lines 401-427: the inline tag specifications. *)
Definition parse_tags (tags : option jstring) : Outcome (list JSValue) :=
  if truthy_string tags then
    let attempt :=
      match parse_whole_then_wrapped (default [] tags) with
      | inl e => inl e
      | inr parsed =>
          let parsedTags := array_or_singleton parsed in
          match validate_tags parsedTags with
          | inl e => inl e
          | inr _ => inr parsedTags
          end
      end in
    match attempt with
    | inl error =>
        if is_class SyntaxError error
        then inl (BadRequest (str "Invalid JSON format for tags"))
        else inl error
    | inr parsedTags => inr parsedTags
    end
  else inr [].

(** [create], lines 429-439: the ids of existing tags. *)
Definition parse_tagIds (tagIds : option (jstring + list jstring)) : list jstring :=
  match tagIds with
  | None => []
  | Some (inr ids) => ids
  | Some (inl s) =>
      match s with
      | [] => []
      | _ :: _ => List.map trim (split_comma s)
      end
  end.

Definition nonempty_string (s : jstring) : bool :=
  match s with [] => false | _ :: _ => true end.

(** [parseArrayField], lines 1035-1070.  Nothing in its [try] block can
    throw, so its outer [catch] is never entered. *)
Definition parseArrayField (value : JSValue) : list JSValue :=
  if negb (truthy value) then []
  else
    match value with
    | JArray items => List.filter not_nullish (flat items)
    | JString s =>
        match json_parse s with
        | inr parsed =>
            match parsed with
            | JArray items => List.filter not_nullish (flat items)
            | _ => if truthy parsed then [parsed] else []
            end
        | inl _ =>
            List.map JString
              (List.filter nonempty_string (List.map trim (split_comma s)))
        end
    | _ => []
    end.

Definition tag_dto (t : ITag) : TagDto :=
  {| tdto_id := tag_id t; tdto_name := tag_name t; tdto_nameAr := tag_nameAr t |}.

Definition media_dto (f : IFile) : MediaDto :=
  {| mdto_id := file_id f; mdto_url := file_url f |}.

(** [mapToDisplayDto] *)
Definition mapToDisplayDto (article : Article) : DisplayArticleDto :=
  {| d_id := art_id article;
     d_texts := art_texts article;
     d_authorId := art_authorId article;
     d_authorEmail := art_authorEmail article;
     d_categoryId :=
       match art_category article with
       | Some c => cat_id c
       | None => []
       end;
     d_category := art_category article;
     d_tags := option_map (List.map tag_dto) (art_tags article);
     d_status := art_status article;
     d_images := option_map (List.map media_dto) (art_images article);
     d_videos := option_map (List.map media_dto) (art_videos article);
     d_featuredMedia := option_map media_dto (art_featuredMedia article) |}.

(** [mapToDisplayDto] on what a query returned: reading [article.id] of
    [null] throws. *)
Definition mapToDisplayDto_of (article : option Article) : Outcome DisplayArticleDto :=
  match article with
  | Some a => inr (mapToDisplayDto a)
  | None => inl (null_read "null" "id")
  end.

(** [mapToGetArticleDto] *)
Definition mapToGetArticleDto (article : Article) : GetArticleDto :=
  {| g_id := art_id article;
     g_title := title (art_texts article);
     g_titleAr := titleAr (art_texts article);
     g_summary := summary (art_texts article);
     g_summaryAr := summaryAr (art_texts article);
     g_category := art_category article;
     g_authorId := art_authorId article;
     g_authorEmail := art_authorEmail article;
     g_status := art_status article;
     g_tags := option_map (List.map tag_dto) (art_tags article);
     g_featuredMedia := option_map media_dto (art_featuredMedia article) |}.

Definition related_dto (related : RelatedArticle) : RelatedArticleDto :=
  {| rd_id := rel_id related;
     rd_title := rel_title related;
     rd_titleAr := rel_titleAr related;
     rd_categoryId := rel_categoryId related;
     rd_category := rel_category related;
     rd_featuredMedia := option_map media_dto (rel_featuredMedia related);
     rd_tags := option_map (List.map tag_dto) (rel_tags related) |}.

(** The command that persists the skeleton article: no tags, no media. *)
Definition skeleton_command (dto : CreateArticleDto) (user : User) : CreateArticleCommand :=
  {| cc_texts := cdto_texts dto;
     cc_authorId := user_id user;
     cc_authorEmail := user_email user;
     cc_categoryId := cdto_categoryId dto;
     cc_status := default DRAFT (cdto_status dto);
     cc_images := [];
     cc_videos := [];
     cc_featuredMedia := None;
     cc_featuredMediaId := None;
     cc_tags := [] |}.

Definition no_texts : TextsPatch :=
  {| p_title := None; p_titleAr := None; p_content := None;
     p_contentAr := None; p_summary := None; p_summaryAr := None |}.

(** The file record [create] builds from an upload and the request file. *)
Definition uploaded_record (uploaded : IFile) (file : MulterFile) (now : Date) : IFile :=
  {| file_id := file_id uploaded;
     file_url := file_url uploaded;
     file_filename := mf_originalname file;
     file_mimetype := mf_mimetype file;
     file_size := mf_size file;
     file_path := Some (default [] (file_path uploaded));
     file_createdAt := now;
     file_updatedAt := now |}.

(** [update], lines 1199-1238: the merged command. *)
Definition update_command (id : jstring) (dto : UpdateArticleDto)
    (existingArticle : Article) (uploadedFeaturedMedia : option IFile)
    (uploadedImages uploadedVideos : list IFile) : UpdateArticleCommand :=
  let removedImageIds := parseArrayField (udto_removedImages dto) in
  let removedVideoIds := parseArrayField (udto_removedVideos dto) in
  let removedTagIds := parseArrayField (udto_removedTags dto) in
  let tagIds := parseArrayField (udto_tags dto) in
  let existingTags := default [] (art_tags existingArticle) in
  let remainingTags :=
    List.filter (fun tag => negb (includes_string removedTagIds (tag_id tag))) existingTags in
  let newTags :=
    List.map TagPlaceholder
      (List.filter
         (fun tagId =>
            negb (existsb (fun existingTag => strict_eq_string tagId (tag_id existingTag))
                    existingTags))
         tagIds) in
  {| uc_id := id;
     uc_texts := udto_texts dto;
     uc_categoryId := udto_categoryId dto;
     uc_images :=
       Some (List.filter (fun file => negb (includes_string removedImageIds (file_id file)))
               (default [] (art_images existingArticle)) ++ uploadedImages);
     uc_videos :=
       Some (List.filter (fun file => negb (includes_string removedVideoIds (file_id file)))
               (default [] (art_videos existingArticle)) ++ uploadedVideos);
     uc_tags := Some (List.map TagEntity remainingTags ++ newTags);
     uc_tagsToRemove := Some removedTagIds;
     uc_featuredMedia := uploadedFeaturedMedia;
     uc_featuredMediaId := option_map file_id uploadedFeaturedMedia |}.

(** [Math.ceil(total / limit)] on integers below [2^53]. *)
Definition ceil_div (total limit : Z) : option Z :=
  if Z.eqb limit 0 then None else Some (- ((- total) / limit))%Z.

(** ** The controller *)

Section Controller.

Context (env : Env).

(** [await collaborator.method(args)] *)
Definition call (c : Call) : M (Resp c) :=
  fun h => let r := respond env h c in (r, [Called c r]).

(** [new Date()] *)
Definition now : M Date := fun h => (inr (new_Date env h), []).

(** [crypto.randomUUID()] *)
Definition fresh_uuid : M jstring := fun h => (inr (randomUUID env h), []).

(** *** create *)

(** The callback that fetches one existing tag. *)
Definition find_tag (tagId : jstring) : M ITag :=
  tag <- call (TagRepository_findById tagId) ;;
  match tag with
  | Some t => ret t
  | None => throw (BadRequest (str "Tag with ID " ++ tagId ++ str " not found"))
  end.

(** The callback that creates one new tag. *)
Definition create_tag (tagData : JSValue) : M ITag :=
  date <- now ;;
  tagId <- fresh_uuid ;;
  name <- lift (get_member tagData "name") ;;
  nameAr <- lift (get_member tagData "nameAr") ;;
  let tag := {| tag_id := tagId; tag_name := name; tag_nameAr := nameAr;
                tag_createdAt := date; tag_updatedAt := date |} in
  call (TagRepository_create tag) ;;;
  ret tag.

(** [if (Array.isArray(files?.featuredMedia) && files.featuredMedia[0]?.buffer)] *)
Definition featured_with_buffer (files : Files) : option (MulterFile * Buffer) :=
  match files_featuredMedia files with
  | Some (Some file :: _) =>
      match mf_buffer file with
      | Some buffer => Some (file, buffer)
      | None => None
      end
  | _ => None
  end.

Definition create_featured (articleId : jstring) (files : Files) : M unit :=
  match featured_with_buffer files with
  | Some (file, buffer) =>
      uploadedFeaturedMedia <-
        call (FileUploader_uploadFile (Some buffer) (mf_originalname file) (mf_mimetype file)) ;;
      date <- now ;;
      let featuredMedia := uploaded_record uploadedFeaturedMedia file date in
      call (UpdateArticleUsecase
              {| uc_id := articleId; uc_texts := no_texts; uc_categoryId := None;
                 uc_images := None; uc_videos := None; uc_tags := None;
                 uc_tagsToRemove := None;
                 uc_featuredMedia := Some featuredMedia;
                 uc_featuredMediaId := Some (file_id uploadedFeaturedMedia) |}) ;;;
      ret tt
  | None => ret tt
  end.

(** The [for ... of] loop over one group of files: a file without a buffer
    is passed over by [continue]. *)
Fixpoint upload_each (group : list (option MulterFile)) : M (list IFile) :=
  match group with
  | [] => ret []
  | file :: rest =>
      match file with
      | Some f =>
          match mf_buffer f with
          | Some buffer =>
              uploadedFile <-
                call (FileUploader_uploadFile (Some buffer) (mf_originalname f) (mf_mimetype f)) ;;
              date <- now ;;
              others <- upload_each rest ;;
              ret (uploaded_record uploadedFile f date :: others)
          | None => upload_each rest
          end
      | None => upload_each rest
      end
  end.

(** [if (Array.isArray(files?.images)) { for ... }] *)
Definition upload_group (group : option (list (option MulterFile))) : M (list IFile) :=
  match group with
  | Some files => upload_each files
  | None => ret []
  end.

Definition is_nil {A} (l : list A) : bool :=
  match l with [] => true | _ => false end.

(** [create], lines 464-599: everything after the skeleton is persisted. *)
Definition create_enrich (article : Article) (parsedTagIds : list jstring)
    (parsedTags : list JSValue) (files : Files) : M DisplayArticleDto :=
  existingTags <-
    (if negb (is_nil parsedTagIds) then promise_all find_tag parsedTagIds else ret []) ;;
  newTags <-
    (if negb (is_nil parsedTags) then promise_all create_tag parsedTags else ret []) ;;
  let allTags := existingTags ++ newTags in
  (if negb (is_nil allTags)
   then call (UpdateArticleUsecase
                {| uc_id := art_id article; uc_texts := no_texts; uc_categoryId := None;
                   uc_images := None; uc_videos := None;
                   uc_tags := Some (List.map TagEntity allTags);
                   uc_tagsToRemove := None; uc_featuredMedia := None;
                   uc_featuredMediaId := None |}) ;;; ret tt
   else ret tt) ;;;
  create_featured (art_id article) files ;;;
  uploadedImages <- upload_group (files_images files) ;;
  uploadedVideos <- upload_group (files_videos files) ;;
  (if negb (is_nil uploadedImages) || negb (is_nil uploadedVideos)
   then call (UpdateArticleUsecase
                {| uc_id := art_id article; uc_texts := no_texts; uc_categoryId := None;
                   uc_images := Some uploadedImages; uc_videos := Some uploadedVideos;
                   uc_tags := None; uc_tagsToRemove := None; uc_featuredMedia := None;
                   uc_featuredMediaId := None |}) ;;; ret tt
   else ret tt) ;;;
  updatedArticle <- call (GetArticleByIdQuery (art_id article)) ;;
  lift (mapToDisplayDto_of updatedArticle).

(** The inner [catch]: delete the skeleton, log, rethrow as BadRequest. *)
Definition create_compensate (article : Article) (uploadError : Thrown) : M DisplayArticleDto :=
  call (DeleteArticleUsecase (art_id article)) ;;;
  console_error (LogError (str "File upload error:") uploadError) ;;;
  throw (BadRequest (str "Failed to upload files: " ++ error_message uploadError)).

Definition default_files : Files :=
  {| files_featuredMedia := Some []; files_images := Some []; files_videos := Some [] |}.

(** [POST /admin/articles] *)
Definition create (dto : CreateArticleDto) (files : option Files) (user : option User)
  : M DisplayArticleDto :=
  let files := default default_files files in
  try_catch
    (match user with
     | None => throw (Unauthorized "Authentication required")
     | Some u =>
         if negb (role_in [AUTHOR; ADMIN; EDITOR] (user_role u))
         then throw (Forbidden "You are not authorized to perform this action.")
         else
           parsedTags <- lift (parse_tags (cdto_tags dto)) ;;
           let parsedTagIds := parse_tagIds (cdto_tagIds dto) in
           article <- call (CreateArticleUsecase (skeleton_command dto u) u) ;;
           try_catch
             (create_enrich article parsedTagIds parsedTags files)
             (create_compensate article)
     end)
    (fun error =>
       console_error (LogError (str "Article creation error:") error) ;;;
       throw (BadRequest (str "Failed to create article: " ++ error_message error))).

(** *** list, archive, search, findById, publish, unpublish *)

(** [GET /admin/articles]: the method [list] ([list] names the list type
    here). *)
Definition listArticles (dto : ListArticlesDto) (user : option User)
  : M PaginatedArticleResponseDto :=
  try_catch
    (match user with
     | None => throw (Unauthorized "Authentication required")
     | Some u =>
         date <- now ;;
         let tags :=
           match l_tagId dto with
           | Some ((_ :: _) as tagId) =>
               Some [{| tag_id := tagId; tag_name := JString []; tag_nameAr := JUndefined;
                        tag_createdAt := date; tag_updatedAt := date |}]
           | _ => None
           end in
         authorId <-
           (if role_eqb (user_role u) AUTHOR then
              if truthy_string (l_authorId dto) &&
                 negb (jstring_eqb (default [] (l_authorId dto)) (user_id u))
              then throw (Forbidden "Authors can only view their own articles")
              else ret (Some (user_id u))
            else if role_in [ADMIN; EDITOR] (user_role u) then
              ret (if truthy_string (l_authorId dto) then l_authorId dto else None)
            else ret None) ;;
         let filters :=
           {| f_categoryId := l_categoryId dto; f_tags := tags;
              f_status := l_status dto; f_authorId := authorId |} in
         result <-
           call (ListArticlesUsecase
                   {| q_page := l_page dto; q_limit := l_limit dto;
                      q_sortBy := l_sortBy dto; q_sortOrder := l_sortOrder dto;
                      q_filters := filters |}) ;;
         let result :=
           if role_eqb (user_role u) AUTHOR then
             let data :=
               List.filter (fun article => jstring_eqb (art_authorId article) (user_id u))
                 (lr_data result) in
             let total := Z.of_nat (length data) in
             {| lr_data := data;
                lr_metadata := {| meta_total := total;
                                  meta_totalPages := ceil_div total (l_limit dto) |} |}
           else result in
         ret {| pr_data := List.map mapToGetArticleDto (lr_data result);
                pr_metadata := lr_metadata result |}
     end)
    (fun error =>
       if is_class UnauthorizedException error || is_class ForbiddenException error
       then throw error
       else if is_class BadRequestException error then throw error
       else throw (InternalServerError "Failed to fetch articles")).

(** [PATCH /admin/articles/archive] *)
Definition archiveArticles (articleIds : list jstring) (user : option User) : M ArchiveResult :=
  try_catch
    (match user with
     | None => throw (Unauthorized "Authentication required")
     | Some u =>
         if negb (role_in [EDITOR; ADMIN] (user_role u))
         then throw (Forbidden "You are not authorized to perform this action.")
         else call (ArchiveArticlesUsecase articleIds)
     end)
    (fun error =>
       if is_class UnauthorizedException error || is_class ForbiddenException error
       then throw error
       else
         match error with
         | ThrownError _ message =>
             throw (BadRequest (str "Failed to archive articles: " ++ message))
         | ThrownValue => throw (InternalServerError "Failed to archive articles")
         end).

(** [x || d] on an optional number: zero is falsy too. *)
Definition number_or (x : option Z) (d : Z) : Z :=
  match x with
  | Some n => if Z.eqb n 0 then d else n
  | None => d
  end.

(** [GET /admin/articles/search] *)
Definition searchArticles (query : SearchArticlesDto) (user : option User)
  : M SearchArticlesResponseDto :=
  try_catch
    (match user with
     | None => throw (Unauthorized "Authentication required")
     | Some u =>
         if negb (role_in [EDITOR; ADMIN; AUTHOR] (user_role u))
         then throw (Forbidden "You are not authorized to perform this action.")
         else
           result <- call (SearchArticlesUsecase query) ;;
           ret {| srd_articles := sr_articles result;
                  srd_page := number_or (s_page query) 1;
                  srd_pageSize := number_or (s_pageSize query) 10;
                  srd_totalResults := sr_totalResults result |}
     end)
    (fun error =>
       if is_class UnauthorizedException error || is_class ForbiddenException error
       then throw error
       else throw (InternalServerError "An unexpected error occurred while searching articles")).

(** [GET /admin/articles/:id] *)
Definition findById (id : jstring) (user : option User) : M DisplayArticleWithRelatedDto :=
  try_catch
    (match user with
     | None => throw (Unauthorized "Authentication required")
     | Some u =>
         articleWithRelated <- call (GetArticleByIdQuery id) ;;
         match articleWithRelated with
         | None => throw (NotFound "Article not found")
         | Some article =>
             if role_eqb (user_role u) AUTHOR &&
                negb (jstring_eqb (art_authorId article) (user_id u))
             then throw (Forbidden "You are not authorized to access this article.")
             else
               let mainArticle := mapToDisplayDto article in
               let relatedArticles :=
                 if is_published (art_status article)
                 then List.map related_dto (art_relatedArticles article)
                 else [] in
               ret {| dr_article := mainArticle; dr_relatedArticles := relatedArticles |}
         end
     end)
    (fun error =>
       if is_class UnauthorizedException error || is_class NotFoundException error ||
          is_class ForbiddenException error
       then throw error
       else throw (InternalServerError "An unexpected error occurred while fetching the article")).

(** The [catch] shared by publish, unpublish and restore: an [Error] whose
    message mentions "not found" becomes a NotFound, anything else is
    rethrown as it is. *)
Definition not_found_or_rethrow {A} (error : Thrown) : M A :=
  match error with
  | ThrownError _ message =>
      if jincludes message (str "not found")
      then throw (NotFound "Article not found")
      else throw error
  | ThrownValue => throw error
  end.

(** [PATCH /admin/articles/:id/publish] *)
Definition publish (id : jstring) (user : option User) : M DisplayArticleDto :=
  try_catch
    (match user with
     | None => throw (Unauthorized "Authentication required")
     | Some u =>
         if negb (role_in [EDITOR; ADMIN] (user_role u))
         then throw (Forbidden "You are not authorized to perform this action.")
         else
           article <- call (PublishArticleUsecase id) ;;
           ret (mapToDisplayDto article)
     end)
    not_found_or_rethrow.

(** [PATCH /admin/articles/:id/unpublish] *)
Definition unpublish (id : jstring) (user : option User) : M DisplayArticleDto :=
  try_catch
    (match user with
     | None => throw (Unauthorized "Authentication required")
     | Some u =>
         if negb (role_in [EDITOR; ADMIN] (user_role u))
         then throw (Forbidden "You are not authorized to perform this action.")
         else
           article <- call (UnpublishArticleUsecase id) ;;
           ret (mapToDisplayDto article)
     end)
    not_found_or_rethrow.

(** *** update *)

(** [console.error] for every deletion that was rejected. *)
Fixpoint log_failed_deletions (what : string) (ids : list JSValue)
    (outcomes : list (Outcome unit)) : M unit :=
  match ids, outcomes with
  | fileId :: ids', o :: outcomes' =>
      match o with
      | inl error =>
          console_error (LogFileError (str what) fileId error) ;;;
          log_failed_deletions what ids' outcomes'
      | inr _ => log_failed_deletions what ids' outcomes'
      end
  | _, _ => ret tt
  end.

(** [update], lines 1137-1153: every deletion is requested, images first;
    a rejection is logged and never propagates. *)
Definition delete_removed (removedImageIds removedVideoIds : list JSValue) : M unit :=
  images <- settle_all (fun fileId => call (FileService_deleteFile fileId)) removedImageIds ;;
  videos <- settle_all (fun fileId => call (FileService_deleteFile fileId)) removedVideoIds ;;
  log_failed_deletions "image" removedImageIds images ;;;
  log_failed_deletions "video" removedVideoIds videos.

(** [update], lines 1155-1172: the new featured media, and the best-effort
    deletion of the old one. *)
Definition update_featured (files : option Files) (existingArticle : Article)
  : M (option IFile) :=
  match files with
  | Some fs =>
      match files_featuredMedia fs with
      | Some (Some file :: _) =>
          uploadedFeaturedMedia <-
            call (FileUploader_uploadFile (mf_buffer file) (mf_originalname file)
                    (mf_mimetype file)) ;;
          match art_featuredMedia existingArticle with
          | Some old =>
              try_catch
                (call (FileService_deleteFile (JString (file_id old))))
                (fun error =>
                   console_error (LogError (str "Failed to delete old featured media:") error)) ;;;
              ret (Some uploadedFeaturedMedia)
          | None => ret (Some uploadedFeaturedMedia)
          end
      | _ => ret None
      end
  | None => ret None
  end.

(** [files.images.map((file) => uploadFile(file.buffer, ...))]: an upload is
    started for every file, whatever its buffer; reading [buffer] of a
    missing element throws before the later files are reached. *)
Fixpoint start_uploads (group : list (option MulterFile)) : M (list (Outcome IFile)) :=
  match group with
  | [] => ret []
  | None :: _ => throw (null_read "undefined" "buffer")
  | Some file :: rest =>
      fun h =>
        let c := FileUploader_uploadFile (mf_buffer file) (mf_originalname file)
                   (mf_mimetype file) in
        let r := respond env h c in
        let '(os, t) := start_uploads rest (h ++ [Called c r]) in
        (match os with
         | inr others => inr (r :: others)
         | inl e => inl e
         end, Called c r :: t)
  end.

(** [files?.images ? await Promise.all(files.images.map(...)) : []] *)
Definition upload_all (files : option Files)
    (group : Files -> option (list (option MulterFile))) : M (list IFile) :=
  match files with
  | Some fs =>
      match group fs with
      | Some g => os <- start_uploads g ;; lift (first_rejection os)
      | None => ret []
      end
  | None => ret []
  end.

(** [user.role === AUTHOR && existingArticle.authorId !== user.id], on an
    article that may be [null]. *)
Definition check_owner (u : User) (existingArticle : option Article) : M unit :=
  if role_eqb (user_role u) AUTHOR then
    match existingArticle with
    | None => throw (null_read "null" "authorId")
    | Some a =>
        if negb (jstring_eqb (art_authorId a) (user_id u))
        then throw (Forbidden "Only the author owner can update this article")
        else ret tt
    end
  else ret tt.

(** [update], the body of its [try] block. *)
Definition update_body (id : jstring) (dto : UpdateArticleDto) (files : option Files)
    (user : option User) : M DisplayArticleDto :=
  existingArticle <- call (GetArticleByIdQuery id) ;;
  match user with
  | None => throw (Unauthorized "Authentication required")
  | Some u =>
      check_owner u existingArticle ;;;
      match existingArticle with
      | None => throw (NotFound "Article not found")
      | Some existing =>
          delete_removed (parseArrayField (udto_removedImages dto))
            (parseArrayField (udto_removedVideos dto)) ;;;
          uploadedFeaturedMedia <- update_featured files existing ;;
          uploadedImages <- upload_all files files_images ;;
          uploadedVideos <- upload_all files files_videos ;;
          let command :=
            update_command id dto existing uploadedFeaturedMedia uploadedImages
              uploadedVideos in
          call (UpdateArticleUsecase command) ;;;
          refreshedArticle <- call (GetArticleByIdQuery id) ;;
          lift (mapToDisplayDto_of refreshedArticle)
      end
  end.

(** [PATCH /admin/articles/:id] *)
Definition update (id : jstring) (dto : UpdateArticleDto) (files : option Files)
    (user : option User) : M DisplayArticleDto :=
  try_catch (update_body id dto files user)
    (fun error =>
       console_error (LogError (str "Update article error:") error) ;;;
       throw (BadRequest (str "Failed to update article: " ++ error_message error))).

(** *** delete *)

(** One best-effort deletion of [delete]: a failure is logged as text. *)
Definition delete_file_logged (what : string) (f : IFile) : M unit :=
  try_catch
    (call (FileService_deleteFile (JString (file_id f))))
    (fun error =>
       console_error
         (LogText (str "Failed to delete " ++ str what ++ str ": " ++ error_message error))).

Fixpoint delete_files_logged (what : string) (fs : list IFile) : M unit :=
  match fs with
  | [] => ret tt
  | f :: rest => delete_file_logged what f ;;; delete_files_logged what rest
  end.

(** [delete], lines 1294-1340. *)
Definition delete_associated_files (article : Article) : M unit :=
  if is_draft (art_status article) then
    match art_featuredMedia article with
    | Some fm => delete_file_logged "featured media" fm
    | None => ret tt
    end ;;;
    delete_files_logged "image" (default [] (art_images article)) ;;;
    delete_files_logged "video" (default [] (art_videos article))
  else ret tt.

(** [DELETE /admin/articles/:id]: the method [delete]. *)
Definition deleteArticle (id : jstring) (user : option User) : M unit :=
  try_catch
    (match user with
     | None => throw (Unauthorized "Authentication required")
     | Some u =>
         if negb (role_in [ADMIN; EDITOR] (user_role u))
         then throw (Forbidden "You are not authorized to perform this action.")
         else
           article <- call (GetArticleByIdQuery id) ;;
           match article with
           | None => throw (NotFound "Article not found")
           | Some a =>
               delete_associated_files a ;;;
               call (DeleteArticleUsecase id)
           end
     end)
    (fun error =>
       if is_class NotFoundException error then throw error
       else throw (ThrownError (HttpException 500)
                     (str "Failed to delete article and associated files"))).

(** *** restore, removeTag, assignTags *)

(** [PATCH /admin/articles/:id/unarchive] *)
Definition restore (id : jstring) (user : option User) : M unit :=
  try_catch
    (match user with
     | None => throw (Unauthorized "Authentication required")
     | Some u =>
         if negb (role_in [EDITOR; ADMIN] (user_role u))
         then throw (Forbidden "You are not authorized to perform this action.")
         else call (RestoreArchivedArticleUsecase id)
     end)
    not_found_or_rethrow.

(** [DELETE /admin/articles/:articleId/tags/:tagId] *)
Definition removeTag (articleId tagId : jstring) (user : option User) : M unit :=
  try_catch
    (match user with
     | None => throw (Unauthorized "Authentication required")
     | Some u =>
         if negb (role_in [EDITOR; ADMIN; AUTHOR] (user_role u))
         then throw (Forbidden "You are not authorized to perform this action.")
         else call (RemoveTagFromArticleUsecase articleId tagId)
     end)
    (fun error =>
       if is_class UnauthorizedException error || is_class ForbiddenException error
       then throw error
       else if is_class NotFoundException error then throw error
       else throw (InternalServerError "Failed to remove tag from article")).

(** [POST /admin/articles/:id/tags] *)
Definition assignTags (id : jstring) (tagIds : list jstring) (user : option User) : M unit :=
  try_catch
    (match user with
     | None => throw (Unauthorized "Authentication required")
     | Some u =>
         if negb (role_in [EDITOR; ADMIN; AUTHOR] (user_role u))
         then throw (Forbidden "You are not authorized to perform this action.")
         else call (AssignMultipleTagsUsecase id tagIds)
     end)
    (fun error =>
       if is_class BadRequestException error then throw error
       else
         match error with
         | ThrownError _ message =>
             throw (BadRequest (str "Failed to assign tags: " ++ message))
         | ThrownValue => throw (BadRequest (str "Failed to assign tags"))
         end).

End Controller.

(** ** Reading a trace *)

(** The file deletions requested, with how each was answered. *)
Fixpoint file_deletions (t : Trace) : list (JSValue * Outcome unit) :=
  match t with
  | [] => []
  | Called (FileService_deleteFile id) r :: rest => (id, r) :: file_deletions rest
  | _ :: rest => file_deletions rest
  end.

(** The article deletions requested, with how each was answered. *)
Fixpoint article_deletions (t : Trace) : list (jstring * Outcome unit) :=
  match t with
  | [] => []
  | Called (DeleteArticleUsecase id) r :: rest => (id, r) :: article_deletions rest
  | _ :: rest => article_deletions rest
  end.

(** The uploads started: buffer, original name, MIME type. *)
Fixpoint uploads_started (t : Trace) : list (option Buffer * jstring * jstring) :=
  match t with
  | [] => []
  | Called (FileUploader_uploadFile buffer name mime) _ :: rest =>
      (buffer, name, mime) :: uploads_started rest
  | _ :: rest => uploads_started rest
  end.

(** The files the uploader returned, in the order of the uploads. *)
Fixpoint uploaded_files (t : Trace) : list IFile :=
  match t with
  | [] => []
  | Called (FileUploader_uploadFile _ _ _) (inr f) :: rest => f :: uploaded_files rest
  | _ :: rest => uploaded_files rest
  end.

(** The commands given to [updateArticleUsecase]. *)
Fixpoint update_commands (t : Trace) : list UpdateArticleCommand :=
  match t with
  | [] => []
  | Called (UpdateArticleUsecase command) _ :: rest => command :: update_commands rest
  | _ :: rest => update_commands rest
  end.

(** What was written with [console.error]. *)
Fixpoint logged (t : Trace) : list LogEntry :=
  match t with
  | [] => []
  | Logged entry :: rest => entry :: logged rest
  | _ :: rest => logged rest
  end.

(** Modelled from the spec: the article persistence behind the use cases
    (section 6: [create(command) -> Article], [delete(id) -> void]) is not
    part of the controller.  An article is retrievable from the moment a
    create call returns it until a delete call for its id returns. *)
Definition live_step (s : gset jstring) (e : Event) : gset jstring :=
  match e with
  | Called (CreateArticleUsecase _ _) (inr a) => {[ art_id a ]} ∪ s
  | Called (DeleteArticleUsecase id) (inr _) => s ∖ {[ id ]}
  | _ => s
  end.

Definition live (t : Trace) : gset jstring := fold_left live_step t ∅.

Definition retrievable (t : Trace) (id : jstring) : Prop := id ∈ live t.

(** What [delete] logs for the failed deletions among [ds]. *)
Fixpoint deletion_failures (what : string) (ds : list (JSValue * Outcome unit))
  : list LogEntry :=
  match ds with
  | [] => []
  | (_, inl error) :: rest =>
      LogText (str "Failed to delete " ++ str what ++ str ": " ++ error_message error)
      :: deletion_failures what rest
  | (_, inr _) :: rest => deletion_failures what rest
  end.

(** How [delete] ends, given the answer to the article deletion. *)
Definition delete_outcome (o : Outcome unit) : Outcome unit :=
  match o with
  | inr _ => inr tt
  | inl error =>
      if is_class NotFoundException error then inl error
      else inl (ThrownError (HttpException 500)
                  (str "Failed to delete article and associated files"))
  end.

(** A file of a group that [create] uploads: present, with a buffer. *)
Definition has_buffer (file : option MulterFile) : bool :=
  match file with
  | Some f => match mf_buffer f with Some _ => true | None => false end
  | None => false
  end.

(** [validate_tags] as the result of [parse_tags] on a parsed value. *)
Definition validated (parsed : JSValue) : Outcome (list JSValue) :=
  match validate_tags (array_or_singleton parsed) with
  | inl e => inl e
  | inr _ => inr (array_or_singleton parsed)
  end.

(** The parsing that section 4.1 describes for inline tags, applied to a
    removal list as section 4.3 words it: a real array is taken as it is; a
    string is parsed whole, then wrapped in brackets, and a string that
    fails both is a format error. *)
Definition tolerant_parse_spec (value : JSValue) : Outcome (list JSValue) :=
  match value with
  | JArray items => inr items
  | JString s =>
      match parse_whole_then_wrapped s with
      | inr parsed => inr (array_or_singleton parsed)
      | inl _ => inl (BadRequest (str "Invalid JSON format for tags"))
      end
  | _ => inr []
  end.

(** ** A scripted environment for the worked examples *)

Definition find_article (db : list Article) (id : jstring) : option Article :=
  List.find (fun a => jstring_eqb (art_id a) id) db.

Definition find_known_tag (known : list ITag) (id : jstring) : option ITag :=
  List.find (fun t => jstring_eqb (tag_id t) id) known.

(** The article a create command yields in the script: id [article-1]. *)
Definition scripted_article (command : CreateArticleCommand) : Article :=
  {| art_id := str "article-1";
     art_texts := cc_texts command;
     art_authorId := cc_authorId command;
     art_authorEmail := cc_authorEmail command;
     art_category := None;
     art_status := cc_status command;
     art_tags := Some (cc_tags command);
     art_images := Some (cc_images command);
     art_videos := Some (cc_videos command);
     art_featuredMedia := cc_featuredMedia command;
     art_relatedArticles := [] |}.

(** The file an upload yields in the script: its id is the original name. *)
Definition scripted_upload (name mime : jstring) : IFile :=
  {| file_id := name; file_url := str "/files/" ++ name; file_filename := name;
     file_mimetype := mime; file_size := 0; file_path := None;
     file_createdAt := 0; file_updatedAt := 0 |}.

Definition article_or_not_found (a : option Article) : Outcome Article :=
  match a with
  | Some x => inr x
  | None => inl (ThrownError OtherError (str "Article not found"))
  end.

(** The answer to a call when nothing is made to fail. *)
Definition scripted_answer (db : list Article) (known : list ITag) (c : Call)
  : Outcome (Resp c) :=
  match c return Outcome (Resp c) with
  | CreateArticleUsecase command _ => inr (scripted_article command)
  | GetArticleByIdQuery id => inr (find_article db id)
  | UpdateArticleUsecase _ => inr tt
  | ListArticlesUsecase _ =>
      inr {| lr_data := db;
             lr_metadata := {| meta_total := Z.of_nat (length db);
                               meta_totalPages := Some 1%Z |} |}
  | DeleteArticleUsecase _ => inr tt
  | PublishArticleUsecase id => article_or_not_found (find_article db id)
  | UnpublishArticleUsecase id => article_or_not_found (find_article db id)
  | RemoveTagFromArticleUsecase _ _ => inr tt
  | ArchiveArticlesUsecase ids =>
      inr {| totalProcessed := Z.of_nat (length ids); archived := Z.of_nat (length ids) |}
  | SearchArticlesUsecase _ =>
      inr {| sr_articles := db; sr_totalResults := Z.of_nat (length db) |}
  | RestoreArchivedArticleUsecase _ => inr tt
  | AssignMultipleTagsUsecase _ _ => inr tt
  | FileUploader_uploadFile _ name mime => inr (scripted_upload name mime)
  | FileService_deleteFile _ => inr tt
  | TagRepository_findById id => inr (find_known_tag known id)
  | TagRepository_create _ => inr tt
  end.

(** The calls the script makes fail. *)
Inductive Fault :=
| NoFault
| UploadFails (name : jstring)        (* the upload of the file so named *)
| DeleteFileFails                     (* every file deletion *)
| DeleteArticleFails.                 (* every article deletion *)

Definition storage_outage : Thrown := ThrownError OtherError (str "storage unavailable").

Definition faulty (fault : Fault) (c : Call) : bool :=
  match fault, c with
  | UploadFails name, FileUploader_uploadFile _ name' _ => jstring_eqb name name'
  | DeleteFileFails, FileService_deleteFile _ => true
  | DeleteArticleFails, DeleteArticleUsecase _ => true
  | _, _ => false
  end.

(** A world with a fixed set of stored articles and known tags, in which
    the calls picked by [fault] are rejected. *)
Definition scripted (db : list Article) (known : list ITag) (fault : Fault) : Env :=
  {| respond := fun _ c =>
       if faulty fault c then inl storage_outage else scripted_answer db known c;
     new_Date := fun h => Z.of_nat (length h);
     randomUUID := fun h => str "uuid-" ++ repeat 49%N (length h) |}.

(** *** Sample data *)

Definition sample_texts : Texts :=
  {| title := str "Title"; titleAr := str "TitleAr"; content := str "";
     contentAr := str ""; summary := str ""; summaryAr := str "" |}.

Definition alice : User :=
  {| user_id := str "alice"; user_email := str "alice@example.org"; user_role := AUTHOR |}.

Definition bob : User :=
  {| user_id := str "bob"; user_email := str "bob@example.org"; user_role := AUTHOR |}.

Definition erin : User :=
  {| user_id := str "erin"; user_email := str "erin@example.org"; user_role := EDITOR |}.

Definition stored_file (id : string) : IFile :=
  {| file_id := str id; file_url := str "/files/" ++ str id; file_filename := str id;
     file_mimetype := str "image/png"; file_size := 1; file_path := None;
     file_createdAt := 0; file_updatedAt := 0 |}.

(** Alice's article [a1], with images A, B, C and one video V. *)
Definition sample_article (status : ArticleStatus) : Article :=
  {| art_id := str "a1";
     art_texts := sample_texts;
     art_authorId := str "alice";
     art_authorEmail := str "alice@example.org";
     art_category := None;
     art_status := status;
     art_tags := Some [];
     art_images := Some [stored_file "A"; stored_file "B"; stored_file "C"];
     art_videos := Some [stored_file "V"];
     art_featuredMedia := Some (stored_file "F");
     art_relatedArticles := [] |}.

Definition request_file (name : string) (buffer : option Buffer) : MulterFile :=
  {| mf_buffer := buffer; mf_originalname := str name;
     mf_mimetype := str "image/png"; mf_size := 1 |}.

Definition some_bytes : Buffer := [Byte.x89; Byte.x50].

Definition sample_create_dto : CreateArticleDto :=
  {| cdto_texts := sample_texts; cdto_categoryId := str ""; cdto_status := None;
     cdto_tags := None; cdto_tagIds := None |}.

Definition empty_update_dto : UpdateArticleDto :=
  {| udto_texts := no_texts; udto_categoryId := None;
     udto_removedImages := JUndefined; udto_removedVideos := JUndefined;
     udto_removedTags := JUndefined; udto_tags := JUndefined |}.

Definition images_only (group : list (option MulterFile)) : Files :=
  {| files_featuredMedia := None; files_images := Some group; files_videos := None |}.

(** A create request with two images, in a world where the upload of the
    second one is rejected. *)
Definition second_upload_fails : Env := scripted [] [] (UploadFails (str "G")).

Definition two_images : option Files :=
  Some (images_only [Some (request_file "D" (Some some_bytes));
                     Some (request_file "G" (Some some_bytes))]).

(** A world that stores Alice's draft [a1] and in which nothing fails. *)
Definition alice_draft_stored : Env := scripted [sample_article DRAFT] [] NoFault.

(** A world that stores no article. *)
Definition nothing_stored : Env := scripted [] [] NoFault.

(** JSON text for the examples: a string in double quotes, a tag object
    with a name, and two such objects separated by a comma (no brackets). *)
Definition quoted (s : string) : jstring := 34%N :: str s ++ [34%N].

Definition tag_json (name : string) : jstring :=
  str "{" ++ quoted "name" ++ str ":" ++ quoted name ++ str "}".

Definition two_tags_text : jstring := tag_json "x" ++ str "," ++ tag_json "y".

Definition named (name : string) : JSValue :=
  JObject [(str "name", JString (str name))].

(** ** Classes of events *)

(** [console.error] *)
Definition is_log (e : Event) : bool :=
  match e with Logged _ => true | Called _ _ => false end.

Definition is_file_deletion (e : Event) : bool :=
  match e with Called (FileService_deleteFile _) _ => true | _ => false end.

Definition is_upload (e : Event) : bool :=
  match e with Called (FileUploader_uploadFile _ _ _) _ => true | _ => false end.

(** A trace of storage calls and logs only: nothing in it touches the
    article or the tags. *)
Definition storage_only (t : Trace) : Prop :=
  Forall (fun e => is_log e || is_file_deletion e || is_upload e = true) t.

(** A trace of file deletions and logs only. *)
Definition deletions_only (t : Trace) : Prop :=
  Forall (fun e => is_log e || is_file_deletion e = true) t.

(** The number of files in a group of an update request. *)
Definition group_size (files : option Files)
    (group : Files -> option (list (option MulterFile))) : nat :=
  match files with
  | Some fs => match group fs with Some g => length g | None => 0 end
  | None => 0
  end.

(** The files of a request without those [create] passes over. *)
Definition drop_bufferless (fs : Files) : Files :=
  {| files_featuredMedia := files_featuredMedia fs;
     files_images := option_map (List.filter has_buffer) (files_images fs);
     files_videos := option_map (List.filter has_buffer) (files_videos fs) |}.

(** An update that removes the images A and B of [a1] and uploads D. *)
Definition remove_A_B : UpdateArticleDto :=
  {| udto_texts := no_texts; udto_categoryId := None;
     udto_removedImages := JString (str "A,B"); udto_removedVideos := JUndefined;
     udto_removedTags := JUndefined; udto_tags := JUndefined |}.

Definition upload_D : option Files :=
  Some (images_only [Some (request_file "D" (Some some_bytes))]).

(** An update whose only image has no byte payload. *)
Definition bufferless_image : Files := images_only [Some (request_file "E" None)].

(** A world that stores Alice's draft [a1] and rejects every file deletion. *)
Definition deletion_outage : Env := scripted [sample_article DRAFT] [] DeleteFileFails.

(** A world that stores [a1] as a published article. *)
Definition alice_published_stored : Env := scripted [sample_article PUBLISHED] [] NoFault.

(** ** Further readers of a trace *)

(** The tag lookups made, in order. *)
Fixpoint tag_lookups (t : Trace) : list jstring :=
  match t with
  | [] => []
  | Called (TagRepository_findById id) _ :: rest => id :: tag_lookups rest
  | _ :: rest => tag_lookups rest
  end.

(** The tags the repository returned for the lookups, in order. *)
Fixpoint tags_found (t : Trace) : list ITag :=
  match t with
  | [] => []
  | Called (TagRepository_findById _) (inr (Some tag)) :: rest => tag :: tags_found rest
  | _ :: rest => tags_found rest
  end.

(** The tags given to [tagRepository.create], in order. *)
Fixpoint tag_creations (t : Trace) : list ITag :=
  match t with
  | [] => []
  | Called (TagRepository_create tag) _ :: rest => tag :: tag_creations rest
  | _ :: rest => tag_creations rest
  end.

Definition is_article_deletion (e : Event) : bool :=
  match e with Called (DeleteArticleUsecase _) _ => true | _ => false end.

Definition is_tag_lookup (e : Event) : bool :=
  match e with Called (TagRepository_findById _) _ => true | _ => false end.

Definition is_tag_creation (e : Event) : bool :=
  match e with Called (TagRepository_create _) _ => true | _ => false end.

(** A trace in which nothing is deleted, neither a file nor an article. *)
Definition deletes_nothing (t : Trace) : Prop :=
  Forall (fun e => is_file_deletion e || is_article_deletion e = false) t.

(** An event that has nothing to do with tags: no call of the tag
    repository, and no update command that carries tags. *)
Definition leaves_tags_alone (e : Event) : bool :=
  match e with
  | Called (TagRepository_findById _) _ | Called (TagRepository_create _) _ => false
  | Called (UpdateArticleUsecase command) _ =>
      match uc_tags command with None => true | Some _ => false end
  | _ => true
  end.

(** An event that is no update command carrying images. *)
Definition no_media_update (e : Event) : bool :=
  match e with
  | Called (UpdateArticleUsecase command) _ =>
      match uc_images command with None => true | Some _ => false end
  | _ => true
  end.

(** ** Requests, commands and errors *)

(** [files?.featuredMedia?.[0]] *)
Definition requested_featured (files : option Files) : option MulterFile :=
  match files with
  | Some fs =>
      match files_featuredMedia fs with
      | Some (Some file :: _) => Some file
      | _ => None
      end
  | None => None
  end.

(** The files of a group that [create] uploads: those with a buffer. *)
Fixpoint present (group : list (option MulterFile)) : list MulterFile :=
  match group with
  | [] => []
  | Some f :: rest =>
      match mf_buffer f with
      | Some _ => f :: present rest
      | None => present rest
      end
  | None :: rest => present rest
  end.

Definition uploadable (group : option (list (option MulterFile))) : list MulterFile :=
  match group with
  | Some files => present files
  | None => []
  end.

(** What [create] takes from the request file, and what from the uploader. *)
Definition named_after (file : MulterFile) (record : IFile) : Prop :=
  file_filename record = mf_originalname file /\
  file_mimetype record = mf_mimetype file /\
  file_size record = mf_size file.

Definition stored_as (uploaded record : IFile) : Prop :=
  file_id record = file_id uploaded /\
  file_url record = file_url uploaded /\
  file_path record = Some (default [] (file_path uploaded)).

(** The id an element of an update command's [tags] carries. *)
Definition tagref_id (r : TagRef) : JSValue :=
  match r with
  | TagEntity t => JString (tag_id t)
  | TagPlaceholder id => id
  end.

(** The name an element of an update command's [tags] carries. *)
Definition tagref_name (r : TagRef) : JSValue :=
  match r with
  | TagEntity t => tag_name t
  | TagPlaceholder _ => JUndefined
  end.

(** An [Error] whose message has "not found" somewhere in it. *)
Definition mentions_not_found (e : Thrown) : Prop :=
  exists cls before after, e = ThrownError cls (before ++ str "not found" ++ after).

(** ** JSON texts *)

(** A character that stands for itself inside a JSON string: no quote, no
    backslash, no control character. *)
Definition plain_char (c : N) : bool :=
  negb (N.eqb c 34) && negb (N.eqb c 92) && negb (N.ltb c 32).

Definition plain_string (s : jstring) : bool := forallb plain_char s.

(** The values a client writes without numbers and escapes: [null],
    booleans, plain strings, and arrays and objects of such values. *)
Fixpoint is_plain (v : JSValue) : bool :=
  match v with
  | JNull | JBool _ => true
  | JString s => plain_string s
  | JArray items => forallb is_plain items
  | JObject members =>
      forallb (fun member => plain_string (fst member) && is_plain (snd member)) members
  | JUndefined | JNumber _ => false
  end.

Definition json_string (s : jstring) : jstring := 34%N :: s ++ [34%N].

(** The compact JSON text of a plain value. *)
Fixpoint json_text (v : JSValue) : jstring :=
  match v with
  | JNull => str "null"
  | JBool true => str "true"
  | JBool false => str "false"
  | JString s => json_string s
  | JArray items => str "[" ++ join_comma (List.map json_text items) ++ str "]"
  | JObject members =>
      str "{" ++
      join_comma
        (List.map (fun member => json_string (fst member) ++ str ":" ++ json_text (snd member))
           members) ++
      str "}"
  | JUndefined | JNumber _ => []
  end.

(** The tokens of that text. *)
Fixpoint separated (groups : list (list JSON.Token)) : list JSON.Token :=
  match groups with
  | [] => []
  | [g] => g
  | g :: rest => g ++ JSON.TComma :: separated rest
  end.

Fixpoint json_tokens (v : JSValue) : list JSON.Token :=
  match v with
  | JNull => [JSON.TNull]
  | JBool true => [JSON.TTrue]
  | JBool false => [JSON.TFalse]
  | JString s => [JSON.TString s]
  | JArray items =>
      JSON.TLBracket :: separated (List.map json_tokens items) ++ [JSON.TRBracket]
  | JObject members =>
      JSON.TLBrace ::
      separated
        (List.map (fun member =>
                     JSON.TString (fst member) :: JSON.TColon :: json_tokens (snd member))
           members) ++
      [JSON.TRBrace]
  | JUndefined | JNumber _ => []
  end.

(** What may follow a value in a text: nothing, or a character that
    cannot continue a word. *)
Definition ends_word (rest : jstring) : Prop :=
  match rest with
  | [] => True
  | c :: _ => JSON.is_word_char c = false
  end.

(** ** Further sample data *)

(** A caller whose role is none of the three the controller names. *)
Definition guest : User :=
  {| user_id := str "guest"; user_email := str "guest@example.org";
     user_role := OTHER_ROLE (str "viewer") |}.

(** Bob's article [b1]. *)
Definition bobs_article : Article :=
  {| art_id := str "b1";
     art_texts := sample_texts;
     art_authorId := str "bob";
     art_authorEmail := str "bob@example.org";
     art_category := None;
     art_status := PUBLISHED;
     art_tags := None;
     art_images := None;
     art_videos := None;
     art_featuredMedia := None;
     art_relatedArticles := [] |}.

(** A world that stores one article of Alice and one of Bob, and whose
    list use case returns both whatever the filters. *)
Definition two_authors_stored : Env := scripted [sample_article DRAFT; bobs_article] [] NoFault.

Definition first_page (authorId : option jstring) : ListArticlesDto :=
  {| l_categoryId := None; l_tagId := None; l_status := None; l_authorId := authorId;
     l_page := 1; l_limit := 10; l_sortBy := None; l_sortOrder := None |}.

(** A create request whose inline tag has no name. *)
Definition nameless_tag_dto : CreateArticleDto :=
  {| cdto_texts := sample_texts; cdto_categoryId := str ""; cdto_status := None;
     cdto_tags := Some (str "{" ++ quoted "nameAr" ++ str ":" ++ quoted "x" ++ str "}");
     cdto_tagIds := None |}.

(** A create request of Alice with the tag ids [t1] and [t2], as text. *)
Definition two_tag_ids_dto : CreateArticleDto :=
  {| cdto_texts := sample_texts; cdto_categoryId := str ""; cdto_status := None;
     cdto_tags := None; cdto_tagIds := Some (inl (str "t1, t2")) |}.

(** A world that already holds the article a create request of Alice
    yields, so that the final query of [create] finds it. *)
Definition created_stored : Env :=
  scripted [scripted_article (skeleton_command sample_create_dto alice)] [] NoFault.

Definition stored_tag (id : string) : ITag :=
  {| tag_id := str id; tag_name := JString (str id); tag_nameAr := JUndefined;
     tag_createdAt := 0; tag_updatedAt := 0 |}.

(** A world that knows the tag T1, and a create request of Alice with the
    id T1 and one inline tag named [x]. *)
Definition one_tag_known : Env := scripted [] [stored_tag "T1"] NoFault.

Definition tags_dto : CreateArticleDto :=
  {| cdto_texts := sample_texts; cdto_categoryId := str ""; cdto_status := None;
     cdto_tags := Some (tag_json "x"); cdto_tagIds := Some (inr [str "T1"]) |}.

(** An update of [a1] that brings a new featured media. *)
Definition new_featured : option Files :=
  Some {| files_featuredMedia := Some [Some (request_file "N" (Some some_bytes))];
          files_images := None; files_videos := None |}.

(** A draft [a1] of Alice with the given images and tags. *)
Definition alice_article (images : list IFile) (tags : list ITag) : Article :=
  {| art_id := str "a1";
     art_texts := sample_texts;
     art_authorId := str "alice";
     art_authorEmail := str "alice@example.org";
     art_category := None;
     art_status := DRAFT;
     art_tags := Some tags;
     art_images := Some images;
     art_videos := None;
     art_featuredMedia := None;
     art_relatedArticles := [] |}.

(** [a1] carries the tags T1 and T2; the update removes T1 and asks for T1
    and T3. *)
Definition tagged_stored : Env :=
  scripted [alice_article [] [stored_tag "T1"; stored_tag "T2"]] [] NoFault.

Definition retag : UpdateArticleDto :=
  {| udto_texts := no_texts; udto_categoryId := None;
     udto_removedImages := JUndefined; udto_removedVideos := JUndefined;
     udto_removedTags := JString (str "T1"); udto_tags := JString (str "T1,T3") |}.

(** [a1] has one image, whose id is [7]; the update lists [7] for removal. *)
Definition numbered_stored : Env := scripted [alice_article [stored_file "7"] []] [] NoFault.

Definition remove_7 : UpdateArticleDto :=
  {| udto_texts := no_texts; udto_categoryId := None;
     udto_removedImages := JString (str "7"); udto_removedVideos := JUndefined;
     udto_removedTags := JUndefined; udto_tags := JUndefined |}.

Definition database_outage : Thrown := ThrownError OtherError (str "database unavailable").

(** A world in which the upload of the file G is rejected, as in
    [second_upload_fails], and so is every deletion of an article. *)
Definition compensation_fails : Env :=
  {| respond := fun h c =>
       match c return Outcome (Resp c) with
       | DeleteArticleUsecase _ => inl database_outage
       | c' => respond second_upload_fails h c'
       end;
     new_Date := new_Date second_upload_fails;
     randomUUID := randomUUID second_upload_fails |}.

(** * Properties *)

(** ** Reading a trace: append *)

(** Every reader of a trace goes through it event by event. *)
Ltac by_events a :=
  let IH := fresh "IH" in
  induction a as [| [c r | entry] a IH]; simpl;
  [ reflexivity
  | destruct c; simpl; try exact IH; try (destruct r; simpl); rewrite ?IH; reflexivity
  | first [exact IH | rewrite IH; reflexivity] ].

(** The result of a run, read off an equation between pairs. *)
Ltac ran H := injection H as <- <-.

Lemma file_deletions_app (a b : Trace) :
  file_deletions (a ++ b) = file_deletions a ++ file_deletions b.
Proof. by_events a. Qed.

Lemma article_deletions_app (a b : Trace) :
  article_deletions (a ++ b) = article_deletions a ++ article_deletions b.
Proof. by_events a. Qed.

Lemma uploads_started_app (a b : Trace) :
  uploads_started (a ++ b) = uploads_started a ++ uploads_started b.
Proof. by_events a. Qed.

Lemma uploaded_files_app (a b : Trace) :
  uploaded_files (a ++ b) = uploaded_files a ++ uploaded_files b.
Proof. by_events a. Qed.

Lemma update_commands_app (a b : Trace) :
  update_commands (a ++ b) = update_commands a ++ update_commands b.
Proof. by_events a. Qed.

Lemma logged_app (a b : Trace) : logged (a ++ b) = logged a ++ logged b.
Proof. by_events a. Qed.

Create Rewrite HintDb trace.
#[local] Hint Rewrite file_deletions_app article_deletions_app uploads_started_app
  uploaded_files_app update_commands_app logged_app : trace.

Lemma live_app (a b : Trace) : live (a ++ b) = fold_left live_step b (live a).
Proof. unfold live. apply fold_left_app. Qed.

(** ** Authorization failures *)

(** C2.  An AUTHOR who updates another author's article is refused with a
    ForbiddenException inside [update], but the catch-all of [update]
    turns it into a BadRequest: the caller never sees Forbidden. *)
Theorem update_forbidden_becomes_bad_request
    (env : Env) (h : Trace) (id : jstring) (dto : UpdateArticleDto)
    (files : option Files) (u : User) (a : Article) :
  user_role u = AUTHOR ->
  respond env h (GetArticleByIdQuery id) = inr (Some a) ->
  art_authorId a <> user_id u ->
  update env id dto files (Some u) h =
    (inl (BadRequest
            (str "Failed to update article: Only the author owner can update this article")),
     [Called (GetArticleByIdQuery id) (inr (Some a));
      Logged (LogError (str "Update article error:")
                (Forbidden "Only the author owner can update this article"))]).
Proof.
  intros Hrole Hget Hne.
  unfold update, try_catch, update_body.
  unfold bind at 1, call at 1. rewrite Hget.
  unfold check_owner. rewrite Hrole. cbn [role_eqb].
  unfold jstring_eqb. rewrite bool_decide_eq_false_2 by exact Hne.
  cbn. reflexivity.
Qed.

(** Bob, an AUTHOR, updates Alice's article. *)
Lemma update_forbidden_becomes_bad_request_witness :
  fst (update alice_draft_stored (str "a1") empty_update_dto None (Some bob) []) =
    inl (BadRequest
           (str "Failed to update article: Only the author owner can update this article")).
Proof.
  rewrite (update_forbidden_becomes_bad_request alice_draft_stored [] (str "a1")
             empty_update_dto None bob (sample_article DRAFT) eq_refl eq_refl).
  - reflexivity.
  - vm_compute. discriminate.
Defined.

(** Endpoints whose [catch] has no case for authorization failures: a
    request without a caller identity ends in a BadRequest, or in a plain
    HttpException with status 500. *)
Lemma missing_identity_is_rewrapped
    (env : Env) (h : Trace) (cdto : CreateArticleDto) (files : option Files)
    (id : jstring) (tagIds : list jstring) :
  fst (create env cdto files None h) =
    inl (BadRequest (str "Failed to create article: Authentication required")) /\
  fst (deleteArticle env id None h) =
    inl (ThrownError (HttpException 500)
           (str "Failed to delete article and associated files")) /\
  fst (assignTags env id tagIds None h) =
    inl (BadRequest (str "Failed to assign tags: Authentication required")).
Proof. repeat split; reflexivity. Qed.

(** The other endpoints rethrow an authorization failure as it is. *)
Lemma missing_identity_is_propagated
    (env : Env) (h : Trace) (ldto : ListArticlesDto) (ids : list jstring)
    (query : SearchArticlesDto) (id tagId : jstring) :
  fst (listArticles env ldto None h) = inl (Unauthorized "Authentication required") /\
  fst (archiveArticles env ids None h) = inl (Unauthorized "Authentication required") /\
  fst (searchArticles env query None h) = inl (Unauthorized "Authentication required") /\
  fst (findById env id None h) = inl (Unauthorized "Authentication required") /\
  fst (publish env id None h) = inl (Unauthorized "Authentication required") /\
  fst (unpublish env id None h) = inl (Unauthorized "Authentication required") /\
  fst (restore env id None h) = inl (Unauthorized "Authentication required") /\
  fst (removeTag env id tagId None h) = inl (Unauthorized "Authentication required").
Proof. repeat split; reflexivity. Qed.

(** ** update: an article that cannot be found *)

(** C3.  When the article id of an update request does not resolve (the
    query throws or returns null), the request fails with a BadRequest
    that wraps the underlying message: the query's own error, the
    TypeError of reading [authorId] of null for an AUTHOR (the ownership
    check precedes the null check), or the NotFoundException's message. *)
Theorem update_unresolved_article_is_bad_request
    (env : Env) (h : Trace) (id : jstring) (dto : UpdateArticleDto)
    (files : option Files) (user : option User) :
  (forall a, respond env h (GetArticleByIdQuery id) <> inr (Some a)) ->
  fst (update env id dto files user h) =
    inl (BadRequest
           (str "Failed to update article: " ++
            match respond env h (GetArticleByIdQuery id) with
            | inl thrown => error_message thrown
            | inr _ =>
                match user with
                | None => str "Authentication required"
                | Some u =>
                    if role_eqb (user_role u) AUTHOR
                    then error_message (null_read "null" "authorId")
                    else str "Article not found"
                end
            end)).
Proof.
  intros Hmissing.
  unfold update, try_catch, update_body.
  unfold bind at 1, call at 1.
  destruct (respond env h (GetArticleByIdQuery id)) as [thrown | [a | ]] eqn:Hget.
  - cbn. reflexivity.
  - exfalso. exact (Hmissing a eq_refl).
  - destruct user as [u |]; [| cbn; reflexivity].
    unfold check_owner. destruct (role_eqb (user_role u) AUTHOR); cbn; reflexivity.
Qed.

(** Erin, an EDITOR, updates an article that does not exist. *)
Lemma update_unresolved_article_witness :
  fst (update nothing_stored (str "a1") empty_update_dto None (Some erin) []) =
    inl (BadRequest (str "Failed to update article: Article not found")).
Proof.
  rewrite (update_unresolved_article_is_bad_request nothing_stored [] (str "a1")
             empty_update_dto None (Some erin)).
  - reflexivity.
  - intros a. vm_compute. discriminate.
Defined.

(** Whatever [update] throws is a BadRequest built by its catch-all. *)
Lemma update_throws_only_bad_request
    (env : Env) (h : Trace) (id : jstring) (dto : UpdateArticleDto)
    (files : option Files) (user : option User) :
  match fst (update env id dto files user h) with
  | inl thrown => exists m, thrown = BadRequest (str "Failed to update article: " ++ m)
  | inr _ => True
  end.
Proof.
  unfold update, try_catch.
  destruct (update_body env id dto files user h) as [[e | d] t]; cbn.
  - eexists. reflexivity.
  - exact I.
Qed.

(** ** findById: an author's own article *)

(** C9.  For a caller with role AUTHOR and an article the query returned:
    if the article's author is another user the request fails with
    Forbidden; if it is the caller the request succeeds and returns that
    article: the id, texts, author, category, status, tags, images, videos
    and featured media of the answer are those of the article the query
    returned (with its related articles when it is published). *)
Theorem findById_author_sees_only_own
    (env : Env) (h : Trace) (id : jstring) (u : User) (a : Article) :
  user_role u = AUTHOR ->
  respond env h (GetArticleByIdQuery id) = inr (Some a) ->
  (art_authorId a <> user_id u ->
   fst (findById env id (Some u) h) =
     inl (Forbidden "You are not authorized to access this article.")) /\
  (art_authorId a = user_id u ->
   exists d,
     fst (findById env id (Some u) h) = inr d /\
     d = {| dr_article := mapToDisplayDto a;
            dr_relatedArticles :=
              if is_published (art_status a)
              then List.map related_dto (art_relatedArticles a)
              else [] |} /\
     d_id (dr_article d) = art_id a /\
     d_texts (dr_article d) = art_texts a /\
     d_authorId (dr_article d) = user_id u /\
     d_authorEmail (dr_article d) = art_authorEmail a /\
     d_category (dr_article d) = art_category a /\
     d_categoryId (dr_article d) =
       match art_category a with Some category => cat_id category | None => [] end /\
     d_status (dr_article d) = art_status a /\
     option_map (List.map (fun tag => (tdto_id tag, tdto_name tag, tdto_nameAr tag)))
       (d_tags (dr_article d)) =
       option_map (List.map (fun tag => (tag_id tag, tag_name tag, tag_nameAr tag)))
         (art_tags a) /\
     option_map (List.map (fun media => (mdto_id media, mdto_url media)))
       (d_images (dr_article d)) =
       option_map (List.map (fun file => (file_id file, file_url file))) (art_images a) /\
     option_map (List.map (fun media => (mdto_id media, mdto_url media)))
       (d_videos (dr_article d)) =
       option_map (List.map (fun file => (file_id file, file_url file))) (art_videos a) /\
     option_map (fun media => (mdto_id media, mdto_url media))
       (d_featuredMedia (dr_article d)) =
       option_map (fun file => (file_id file, file_url file)) (art_featuredMedia a) /\
     List.map rd_id (dr_relatedArticles d) =
       if is_published (art_status a) then List.map rel_id (art_relatedArticles a) else []).
Proof.
  intros Hrole Hget.
  split; intros Hown; unfold findById, try_catch;
    unfold bind at 1, call at 1; rewrite Hget, Hrole; cbn [role_eqb andb];
    unfold jstring_eqb.
  - rewrite bool_decide_eq_false_2 by exact Hown. cbn. reflexivity.
  - rewrite bool_decide_eq_true_2 by exact Hown. cbn.
    eexists. split; [reflexivity |]. split; [reflexivity |].
    cbn [dr_article dr_relatedArticles mapToDisplayDto d_id d_texts d_authorId d_authorEmail
           d_category d_categoryId d_status d_tags d_images d_videos d_featuredMedia].
    repeat split; try reflexivity.
    + exact Hown.
    + destruct (art_tags a) as [tags |]; [| reflexivity].
      cbn [option_map]. rewrite List.map_map. reflexivity.
    + destruct (art_images a) as [files |]; [| reflexivity].
      cbn [option_map]. rewrite List.map_map. reflexivity.
    + destruct (art_videos a) as [files |]; [| reflexivity].
      cbn [option_map]. rewrite List.map_map. reflexivity.
    + destruct (art_featuredMedia a); reflexivity.
    + destruct (is_published (art_status a)); [| reflexivity].
      rewrite List.map_map. reflexivity.
Qed.

(** Bob is refused Alice's article; Alice gets it: the draft [a1] with her
    id, its texts and its images A, B, C. *)
Lemma findById_author_sees_only_own_witness :
  fst (findById alice_draft_stored (str "a1") (Some bob) []) =
    inl (Forbidden "You are not authorized to access this article.") /\
  exists d,
    fst (findById alice_draft_stored (str "a1") (Some alice) []) = inr d /\
    d_id (dr_article d) = str "a1" /\
    d_texts (dr_article d) = sample_texts /\
    d_authorId (dr_article d) = str "alice" /\
    d_status (dr_article d) = DRAFT /\
    option_map (List.map (fun media => (mdto_id media, mdto_url media)))
      (d_images (dr_article d)) =
      Some [(str "A", str "/files/A"); (str "B", str "/files/B"); (str "C", str "/files/C")].
Proof.
  split.
  - apply (findById_author_sees_only_own alice_draft_stored [] (str "a1") bob
             (sample_article DRAFT) eq_refl eq_refl).
    vm_compute. discriminate.
  - destruct (findById_author_sees_only_own alice_draft_stored [] (str "a1") alice
                (sample_article DRAFT) eq_refl eq_refl) as [_ Hown].
    destruct (Hown eq_refl)
      as (d & Hd & _ & Hid & Htexts & Hauthor & _ & _ & _ & Hstatus & _ & Himages & _).
    exists d. split; [exact Hd |]. split; [exact Hid |]. split; [exact Htexts |].
    split; [exact Hauthor |]. split; [exact Hstatus |]. rewrite Himages. reflexivity.
Defined.

(** ** create: the inline tag specifications *)

Lemma validate_tags_not_syntax (l : list JSValue) (e : Thrown) :
  validate_tags l = inl e -> is_class SyntaxError e = false.
Proof.
  induction l as [| v l IH]; simpl; [discriminate |].
  destruct v; simpl; try (intros H; injection H as <-; reflexivity).
  destruct (truthy (own_property members (str "name"))); [exact IH |].
  intros H; injection H as <-; reflexivity.
Qed.

Lemma parse_tags_of_parsed (s : jstring) (parsed : JSValue) :
  s <> [] ->
  parse_whole_then_wrapped s = inr parsed ->
  parse_tags (Some s) = validated parsed.
Proof.
  intros Hs Hp. unfold parse_tags, validated.
  destruct s as [| c s']; [contradiction |]. cbn [truthy_string].
  change (default [] (Some (c :: s'))) with (c :: s').
  rewrite Hp.
  destruct (validate_tags (array_or_singleton parsed)) as [e |] eqn:Hv; [| reflexivity].
  rewrite (validate_tags_not_syntax _ _ Hv). reflexivity.
Qed.

Lemma validated_not_format_error (parsed : JSValue) :
  validated parsed <> inl (BadRequest (str "Invalid JSON format for tags")).
Proof.
  unfold validated.
  destruct (validate_tags (array_or_singleton parsed)) as [e |] eqn:Hv; [| discriminate].
  intros H. injection H as ->. revert Hv.
  generalize (array_or_singleton parsed). intros l.
  induction l as [| v l IH]; simpl; [discriminate |].
  destruct v; simpl; try discriminate.
  destruct (truthy (own_property members (str "name"))); [exact IH |].
  vm_compute. discriminate.
Qed.

(** C6.  For a non-empty [tags] string, [create] parses the whole string;
    if that fails it parses the string wrapped in brackets; the format
    error "Invalid JSON format for tags" is raised exactly when both
    fail (and then no skeleton is persisted); a parsed value that is not
    an array, such as a single object, becomes a one-element array. *)
Theorem create_parses_tags_whole_then_wrapped (s : jstring) :
  s <> [] ->
  (forall parsed, JSON.parse s = Some parsed -> parse_tags (Some s) = validated parsed) /\
  (JSON.parse s = None ->
   forall parsed, JSON.parse (str "[" ++ s ++ str "]") = Some parsed ->
   parse_tags (Some s) = validated parsed) /\
  (parse_tags (Some s) = inl (BadRequest (str "Invalid JSON format for tags")) <->
   JSON.parse s = None /\ JSON.parse (str "[" ++ s ++ str "]") = None) /\
  (forall members,
     JSON.parse s = Some (JObject members) ->
     truthy (own_property members (str "name")) = true ->
     parse_tags (Some s) = inr [JObject members]) /\
  (forall (env : Env) (h : Trace) (dto : CreateArticleDto) (files : option Files) (u : User),
     cdto_tags dto = Some s ->
     role_in [AUTHOR; ADMIN; EDITOR] (user_role u) = true ->
     JSON.parse s = None -> JSON.parse (str "[" ++ s ++ str "]") = None ->
     create env dto files (Some u) h =
       (inl (BadRequest (str "Failed to create article: Invalid JSON format for tags")),
        [Logged (LogError (str "Article creation error:")
                   (BadRequest (str "Invalid JSON format for tags")))])).
Proof.
  intros Hs.
  assert (Hfail : JSON.parse s = None -> JSON.parse (str "[" ++ s ++ str "]") = None ->
                  parse_tags (Some s) = inl (BadRequest (str "Invalid JSON format for tags"))).
  { intros H1 H2. unfold parse_tags.
    destruct s as [| c s']; [contradiction |]. cbn [truthy_string].
  change (default [] (Some (c :: s'))) with (c :: s').
    unfold parse_whole_then_wrapped, json_parse. rewrite H1, H2. reflexivity. }
  split; [| split; [| split; [| split]]].
  - intros parsed Hp. apply parse_tags_of_parsed; [exact Hs |].
    unfold parse_whole_then_wrapped, json_parse. rewrite Hp. reflexivity.
  - intros Hnone parsed Hp. apply parse_tags_of_parsed; [exact Hs |].
    unfold parse_whole_then_wrapped, json_parse. rewrite Hnone, Hp. reflexivity.
  - split.
    + intros Hres.
      destruct (JSON.parse s) as [parsed |] eqn:H1.
      * exfalso. apply (validated_not_format_error parsed). rewrite <- Hres.
        symmetry. apply parse_tags_of_parsed; [exact Hs |].
        unfold parse_whole_then_wrapped, json_parse. rewrite H1. reflexivity.
      * split; [reflexivity |].
        destruct (JSON.parse (str "[" ++ s ++ str "]")) as [parsed |] eqn:H2; [| reflexivity].
        exfalso. apply (validated_not_format_error parsed). rewrite <- Hres.
        symmetry. apply parse_tags_of_parsed; [exact Hs |].
        unfold parse_whole_then_wrapped, json_parse. rewrite H1, H2. reflexivity.
    + intros [H1 H2]. exact (Hfail H1 H2).
  - intros members Hp Hname.
    rewrite (parse_tags_of_parsed s (JObject members) Hs).
    + unfold validated. simpl. rewrite Hname. reflexivity.
    + unfold parse_whole_then_wrapped, json_parse. rewrite Hp. reflexivity.
  - intros env h dto files u Htags Hrole H1 H2.
    unfold create, try_catch. rewrite Hrole. cbn [negb].
    unfold bind at 1. rewrite Htags, (Hfail H1 H2). reflexivity.
Qed.

(** Two objects separated by a comma are recovered by the bracket wrap; a
    single object is wrapped into an array; [a,b] fails both attempts. *)
Lemma create_parses_tags_witness :
  JSON.parse two_tags_text = None /\
  parse_tags (Some two_tags_text) = inr [named "x"; named "y"] /\
  parse_tags (Some (tag_json "x")) = inr [named "x"] /\
  parse_tags (Some (str "a,b")) = inl (BadRequest (str "Invalid JSON format for tags")).
Proof.
  assert (Htwo : two_tags_text <> []) by (vm_compute; discriminate).
  assert (Hone : tag_json "x" <> []) by (vm_compute; discriminate).
  assert (Hab : str "a,b" <> []) by (vm_compute; discriminate).
  destruct (create_parses_tags_whole_then_wrapped two_tags_text Htwo) as (_ & Hwrap & _).
  destruct (create_parses_tags_whole_then_wrapped (tag_json "x") Hone) as (_ & _ & _ & Hobj & _).
  destruct (create_parses_tags_whole_then_wrapped (str "a,b") Hab) as (_ & _ & Hboth & _).
  split; [vm_compute; reflexivity |]. split; [| split].
  - rewrite (Hwrap eq_refl (JArray [named "x"; named "y"]) eq_refl). reflexivity.
  - apply (Hobj [(str "name", JString (str "x"))]); reflexivity.
  - apply Hboth. split; reflexivity.
Defined.

(** ** create: the ids of existing tags *)

Lemma split_from_app_no_comma (x cur rest : jstring) :
  ~ In comma x ->
  split_from cur (x ++ rest) = split_from (rev x ++ cur) rest.
Proof.
  revert cur. induction x as [| c x IH]; intros cur Hno; [reflexivity |].
  simpl. destruct (N.eqb_spec c comma) as [-> | Hc].
  - exfalso. apply Hno. left. reflexivity.
  - rewrite IH by (intros Hin; apply Hno; right; exact Hin).
    rewrite <- app_assoc. reflexivity.
Qed.

Lemma split_join_comma (ids : list jstring) :
  ids <> [] ->
  Forall (fun id => ~ In comma id) ids ->
  split_comma (join_comma ids) = ids.
Proof.
  unfold split_comma.
  induction ids as [| x r IH]; intros Hne Hall; [contradiction |].
  apply Forall_cons_iff in Hall as [Hx Hr].
  destruct r as [| y r'].
  - simpl. rewrite <- (app_nil_r x) at 1.
    rewrite split_from_app_no_comma by exact Hx.
    simpl. rewrite app_nil_r, rev_involutive. reflexivity.
  - change (join_comma (x :: y :: r')) with (x ++ comma :: join_comma (y :: r')).
    rewrite split_from_app_no_comma by exact Hx.
    simpl. rewrite ?N.eqb_refl, app_nil_r, rev_involutive.
    f_equal. apply IH; [discriminate | exact Hr].
Qed.

Lemma join_comma_nil_inv (ids : list jstring) :
  join_comma ids = [] -> ids = [] \/ ids = [[]].
Proof.
  destruct ids as [| x [| y r]]; simpl.
  - left; reflexivity.
  - intros ->. right; reflexivity.
  - intros H. apply app_eq_nil in H as [_ H]. discriminate.
Qed.

(** C10 (amended).  For every list of tag ids none of which contains a
    comma or starts or ends with white space, and which is not the list
    of the single empty id, the array and the comma-joined string give
    [create] the same parsed ids, hence the same tag lookups. *)
Theorem tagIds_array_and_joined_string_agree (ids : list jstring) :
  Forall (fun id => ~ In comma id /\ trim id = id) ids ->
  ids <> [[]] ->
  parse_tagIds (Some (inl (join_comma ids))) = parse_tagIds (Some (inr ids)) /\
  (forall (env : Env) (h : Trace),
     promise_all (find_tag env) (parse_tagIds (Some (inl (join_comma ids)))) h =
     promise_all (find_tag env) (parse_tagIds (Some (inr ids))) h).
Proof.
  intros Hall Hne.
  assert (Heq : parse_tagIds (Some (inl (join_comma ids))) = parse_tagIds (Some (inr ids))).
  { cbn [parse_tagIds].
    destruct (join_comma ids) as [| c s] eqn:Hj.
    - apply join_comma_nil_inv in Hj as [-> | ->]; [reflexivity | contradiction].
    - rewrite <- Hj. rewrite split_join_comma.
      + clear Hj Hne. induction Hall as [| id r [_ Ht] _ IH]; [reflexivity |].
        simpl. rewrite Ht, IH. reflexivity.
      + intros ->. discriminate.
      + eapply List.Forall_impl; [| exact Hall]. intros id [H _]. exact H. }
  split; [exact Heq |]. intros env h. rewrite Heq. reflexivity.
Qed.

(** C10 as stated fails: an id with a leading space has no comma, yet the
    string form is trimmed and the array form is not; and the single empty
    id joins to the empty string, which is skipped as falsy. *)
Lemma tagIds_padded_or_empty_id_differs :
  Forall (fun id => ~ In comma id) [str " a"] /\
  parse_tagIds (Some (inr [str " a"])) = [str " a"] /\
  parse_tagIds (Some (inl (join_comma [str " a"]))) = [str "a"] /\
  parse_tagIds (Some (inl (join_comma [str " a"]))) <> parse_tagIds (Some (inr [str " a"])) /\
  parse_tagIds (Some (inr [str ""])) = [str ""] /\
  parse_tagIds (Some (inl (join_comma [str ""]))) = [].
Proof.
  split; [| repeat split; try reflexivity].
  - constructor; [| constructor]. vm_compute. intros [H | [H | []]]; discriminate.
  - vm_compute. discriminate.
Qed.

(** The ids [t1], [t2] as an array and as the string [t1,t2]. *)
Lemma tagIds_agree_witness :
  parse_tagIds (Some (inl (str "t1,t2"))) = [str "t1"; str "t2"] /\
  parse_tagIds (Some (inr [str "t1"; str "t2"])) = [str "t1"; str "t2"].
Proof.
  assert (H : Forall (fun id => ~ In comma id /\ trim id = id) [str "t1"; str "t2"]).
  { repeat constructor; vm_compute; try reflexivity;
      intros H; repeat (destruct H as [H | H]; [discriminate |]); exact H. }
  assert (Hne : [str "t1"; str "t2"] <> [[]]) by discriminate.
  destruct (tagIds_array_and_joined_string_agree [str "t1"; str "t2"] H Hne) as [Heq _].
  split; [| reflexivity].
  change (str "t1,t2") with (join_comma [str "t1"; str "t2"]). rewrite Heq. reflexivity.
Defined.

(** ** update: the steps before the merged command *)

Lemma settle_all_resolves {A B} (f : A -> M B) (l : list A) (h : Trace) :
  exists os, fst (settle_all f l h) = inr os /\ length os = length l.
Proof.
  revert h. induction l as [| a r IH]; intros h.
  - exists []. split; reflexivity.
  - simpl. destruct (f a h) as [o t1]. destruct (IH (h ++ t1)) as (os & Hos & Hlen).
    destruct (settle_all f r (h ++ t1)) as [o' t2]. simpl in Hos. subst o'.
    exists (o :: os). split; [reflexivity | simpl; rewrite Hlen; reflexivity].
Qed.

Lemma settle_all_events {A B} (f : A -> M B) (P : Event -> Prop) :
  (forall a h, Forall P (snd (f a h))) ->
  forall l h, Forall P (snd (settle_all f l h)).
Proof.
  intros Hf l. induction l as [| a r IH]; intros h; [constructor |].
  simpl. specialize (Hf a h). destruct (f a h) as [o t1]. specialize (IH (h ++ t1)).
  destruct (settle_all f r (h ++ t1)) as [o' t2]. simpl in *.
  apply Forall_app. split; assumption.
Qed.

Lemma settle_deletions_ids (env : Env) (ids : list JSValue) (h : Trace) :
  List.map fst (file_deletions
     (snd (settle_all (fun fileId => call env (FileService_deleteFile fileId)) ids h))) = ids.
Proof.
  revert h. induction ids as [| id r IH]; intros h; [reflexivity |].
  simpl.
  specialize (IH (h ++ [Called (FileService_deleteFile id)
                          (respond env h (FileService_deleteFile id))])).
  destruct (settle_all _ r _) as [o' t2]. simpl in *. rewrite IH. reflexivity.
Qed.

Lemma deletions_only_app (a b : Trace) :
  deletions_only a -> deletions_only b -> deletions_only (a ++ b).
Proof. intros Ha Hb. apply Forall_app. split; assumption. Qed.

Lemma deletions_only_storage (t : Trace) : deletions_only t -> storage_only t.
Proof.
  apply List.Forall_impl. intros e H.
  destruct (is_log e || is_file_deletion e); [reflexivity | discriminate].
Qed.

Lemma storage_only_quiet (t : Trace) :
  storage_only t -> update_commands t = [] /\ article_deletions t = [].
Proof.
  induction 1 as [| e t He _ [IH1 IH2]]; [split; reflexivity |].
  destruct e as [c r | entry]; [| split; assumption].
  destruct c; try discriminate He; split; assumption.
Qed.

Lemma deletions_only_no_upload (t : Trace) :
  deletions_only t -> uploaded_files t = [] /\ uploads_started t = [].
Proof.
  induction 1 as [| e t He _ [IH1 IH2]]; [split; reflexivity |].
  destruct e as [c r | entry]; [| split; assumption].
  destruct c; try discriminate He; split; assumption.
Qed.

Lemma log_failed_deletions_run (what : string) (ids : list JSValue)
    (os : list (Outcome unit)) (h : Trace) :
  fst (log_failed_deletions what ids os h) = inr tt /\
  Forall (fun e => is_log e = true) (snd (log_failed_deletions what ids os h)).
Proof.
  revert os h. induction ids as [| id r IH]; intros os h; [split; [reflexivity | constructor] |].
  destruct os as [| [e | []] os']; [split; [reflexivity | constructor] | | apply IH].
  cbn [log_failed_deletions]. unfold bind, console_error.
  destruct (IH os' (h ++ [Logged (LogFileError (str what) id e)])) as [H1 H2].
  destruct (log_failed_deletions what r os' _) as [o t]. simpl in *. subst o.
  split; [reflexivity | constructor; [reflexivity | exact H2]].
Qed.

Lemma logs_only_deletions (t : Trace) :
  Forall (fun e => is_log e = true) t -> file_deletions t = [] /\ deletions_only t.
Proof.
  induction 1 as [| e t He _ [IH1 IH2]]; [split; [reflexivity | constructor] |].
  destruct e; [discriminate |].
  split; [exact IH1 | constructor; [reflexivity | exact IH2]].
Qed.

Lemma delete_removed_run (env : Env) (a b : list JSValue) (h : Trace)
    (o : Outcome unit) (t : Trace) :
  delete_removed env a b h = (o, t) ->
  o = inr tt /\
  List.map fst (file_deletions t) = a ++ b /\
  deletions_only t.
Proof.
  unfold delete_removed.
  set (del := fun fileId => call env (FileService_deleteFile fileId)).
  assert (Hev : forall l h', Forall (fun e => is_log e || is_file_deletion e = true)
                               (snd (settle_all del l h'))).
  { apply settle_all_events. intros x h'. repeat constructor. }
  unfold bind at 1.
  destruct (settle_all_resolves del a h) as (osa & Ha & _).
  pose proof (settle_deletions_ids env a h) as Hida. fold del in Hida.
  pose proof (Hev a h) as Heva.
  destruct (settle_all del a h) as [oa ta]. simpl in Ha, Hida, Heva. subst oa.
  unfold bind at 1.
  destruct (settle_all_resolves del b (h ++ ta)) as (osb & Hb & _).
  pose proof (settle_deletions_ids env b (h ++ ta)) as Hidb. fold del in Hidb.
  pose proof (Hev b (h ++ ta)) as Hevb.
  destruct (settle_all del b (h ++ ta)) as [ob tb]. simpl in Hb, Hidb, Hevb. subst ob.
  unfold bind at 1.
  destruct (log_failed_deletions_run "image" a osa ((h ++ ta) ++ tb)) as [Hl1 Hl1'].
  destruct (log_failed_deletions "image" a osa ((h ++ ta) ++ tb)) as [o1 t1].
  simpl in Hl1, Hl1'. subst o1.
  destruct (log_failed_deletions_run "video" b osb (((h ++ ta) ++ tb) ++ t1)) as [Hl2 Hl2'].
  destruct (log_failed_deletions "video" b osb (((h ++ ta) ++ tb) ++ t1)) as [o2 t2].
  simpl in Hl2, Hl2'. subst o2.
  intros Hrun. ran Hrun.
  destruct (logs_only_deletions t1 Hl1') as [Hf1 Hd1].
  destruct (logs_only_deletions t2 Hl2') as [Hf2 Hd2].
  split; [reflexivity |]. split.
  - autorewrite with trace. rewrite Hf1, Hf2, !app_nil_r, List.map_app, Hida, Hidb. reflexivity.
  - repeat apply deletions_only_app; assumption.
Qed.

Lemma first_rejection_length {B} (os : list (Outcome B)) (bs : list B) :
  first_rejection os = inr bs -> length bs = length os.
Proof.
  revert bs. induction os as [| [e | b] os IH]; simpl; intros bs H.
  - injection H as <-. reflexivity.
  - discriminate.
  - destruct (first_rejection os) as [e | bs']; [discriminate |].
    injection H as <-. simpl. rewrite (IH bs' eq_refl). reflexivity.
Qed.

Lemma start_uploads_run (env : Env) (g : list (option MulterFile)) (h : Trace)
    (o : Outcome (list (Outcome IFile))) (t : Trace) :
  start_uploads env g h = (o, t) ->
  Forall (fun e => is_upload e = true) t /\
  forall os, o = inr os ->
    length os = length g /\
    forall ups, first_rejection os = inr ups -> uploaded_files t = ups.
Proof.
  revert h o t. induction g as [| [file |] g IH]; intros h o t; simpl.
  - intros H. ran H. split; [constructor |].
    intros os H. injection H as <-. split; [reflexivity |].
    intros ups H. injection H as <-. reflexivity.
  - set (c := FileUploader_uploadFile (mf_buffer file) (mf_originalname file) (mf_mimetype file)).
    specialize (IH (h ++ [Called c (respond env h c)])).
    destruct (start_uploads env g (h ++ [Called c (respond env h c)])) as [o' t'].
    destruct (IH o' t' eq_refl) as [Hup Hos].
    intros H. ran H.
    split; [constructor; [reflexivity | exact Hup] |].
    intros os H. destruct o' as [e | others]; [discriminate |]. injection H as <-.
    destruct (Hos others eq_refl) as [Hlen Hups].
    split; [simpl; rewrite Hlen; reflexivity |].
    intros ups H. simpl in H.
    destruct (respond env h c) as [e | f]; [discriminate |].
    destruct (first_rejection others) as [e | ups']; [discriminate |].
    injection H as <-. simpl. rewrite (Hups ups' eq_refl). reflexivity.
  - intros H. ran H. split; [constructor |]. intros os H. discriminate.
Qed.

Lemma uploads_only_storage (t : Trace) :
  Forall (fun e => is_upload e = true) t -> storage_only t.
Proof.
  apply List.Forall_impl. intros e H. rewrite H. apply orb_true_r.
Qed.

Lemma upload_all_run (env : Env) (files : option Files)
    (group : Files -> option (list (option MulterFile))) (h : Trace)
    (o : Outcome (list IFile)) (t : Trace) :
  upload_all env files group h = (o, t) ->
  storage_only t /\
  forall ups, o = inr ups ->
    uploaded_files t = ups /\ length ups = group_size files group.
Proof.
  unfold upload_all, group_size.
  destruct files as [fs |]; [destruct (group fs) as [g |] |].
  - unfold bind.
    destruct (start_uploads env g h) as [o1 t1] eqn:Hs.
    destruct (start_uploads_run env g h o1 t1 Hs) as [Hup Hos].
    destruct o1 as [e | os].
    + intros H. ran H.
      split; [apply uploads_only_storage; exact Hup | intros ups H; discriminate].
    + cbn [lift]. intros H. ran H. rewrite app_nil_r.
      split; [apply uploads_only_storage; exact Hup |].
      intros ups H. destruct (Hos os eq_refl) as [Hlen Hups].
      split; [apply Hups; exact H |].
      rewrite (first_rejection_length os ups H). exact Hlen.
  - intros H. ran H. split; [constructor |].
    intros ups H. injection H as <-. split; reflexivity.
  - intros H. ran H. split; [constructor |].
    intros ups H. injection H as <-. split; reflexivity.
Qed.

Lemma update_featured_run (env : Env) (files : option Files) (existing : Article)
    (h : Trace) (o : Outcome (option IFile)) (t : Trace) :
  update_featured env files existing h = (o, t) ->
  storage_only t /\
  forall fm, o = inr fm -> uploaded_files t = option_list fm.
Proof.
  unfold update_featured.
  destruct files as [fs |];
    [destruct (files_featuredMedia fs) as [[| [file |] rest] |] |];
    try (intros H; ran H; split; [constructor |];
         intros fm H; injection H as <-; reflexivity).
  unfold bind at 1, call at 1.
  destruct (respond env h _) as [e | f].
  - intros H. ran H. split; [repeat constructor |]. intros fm H; discriminate.
  - destruct (art_featuredMedia existing) as [old |].
    + unfold bind, try_catch, call, console_error, ret.
      destruct (respond env _ (FileService_deleteFile _)) as [e | []];
        cbn; intros H; ran H;
        (split; [repeat constructor |]); intros fm H; injection H as <-; reflexivity.
    + cbn. intros H; ran H.
      split; [repeat constructor |]. intros fm H; injection H as <-; reflexivity.
Qed.

Lemma check_owner_run (u : User) (existing : option Article) (h : Trace) :
  snd (check_owner u existing h) = [].
Proof.
  unfold check_owner.
  destruct (role_eqb (user_role u) AUTHOR); [| reflexivity].
  destruct existing as [a |]; [| reflexivity].
  destruct (negb (jstring_eqb (art_authorId a) (user_id u))); reflexivity.
Qed.

Lemma update_body_commands (env : Env) (h : Trace) (id : jstring)
    (dto : UpdateArticleDto) (files : option Files) (user : option User)
    (existing : Article) (o : Outcome DisplayArticleDto) (tb : Trace) :
  respond env h (GetArticleByIdQuery id) = inr (Some existing) ->
  update_body env id dto files user h = (o, tb) ->
  update_commands tb = [] \/
  exists fm upI upV,
    update_commands tb = [update_command id dto existing fm upI upV] /\
    uploaded_files tb = option_list fm ++ upI ++ upV /\
    length upI = group_size files files_images /\
    length upV = group_size files files_videos.
Proof.
  intros Hget. unfold update_body.
  unfold bind at 1, call at 1. rewrite Hget.
  destruct user as [u |]; [| cbn; intros H; ran H; left; reflexivity].
  unfold bind at 1.
  pose proof (check_owner_run u (Some existing)
                (h ++ [Called (GetArticleByIdQuery id) (inr (Some existing))])) as Hc.
  destruct (check_owner u (Some existing) _) as [[e | []] tc]; simpl in Hc; subst tc.
  { intros H; ran H; left; reflexivity. }
  unfold bind at 1.
  destruct (delete_removed env _ _ _) as [od td] eqn:Hd.
  apply delete_removed_run in Hd as (-> & _ & Hdel).
  destruct (deletions_only_no_upload td Hdel) as [Hdu _].
  destruct (storage_only_quiet td (deletions_only_storage td Hdel)) as [Hdc _].
  unfold bind at 1.
  destruct (update_featured env files existing _) as [[e | fm] tf] eqn:Hf;
    apply update_featured_run in Hf as [Hsf Hff];
    destruct (storage_only_quiet tf Hsf) as [Hfc _].
  { intros H; ran H; left.
    cbn. autorewrite with trace. rewrite Hdc, Hfc. reflexivity. }
  specialize (Hff fm eq_refl).
  unfold bind at 1.
  destruct (upload_all env files files_images _) as [[e | upI] ti] eqn:Hi;
    apply upload_all_run in Hi as [Hsi Hii];
    destruct (storage_only_quiet ti Hsi) as [Hic _].
  { intros H; ran H; left.
    cbn. autorewrite with trace. rewrite Hdc, Hfc, Hic. reflexivity. }
  destruct (Hii upI eq_refl) as [Hiu Hil].
  unfold bind at 1.
  destruct (upload_all env files files_videos _) as [[e | upV] tv] eqn:Hv;
    apply upload_all_run in Hv as [Hsv Hvv];
    destruct (storage_only_quiet tv Hsv) as [Hvc _].
  { intros H; ran H; left.
    cbn. autorewrite with trace. rewrite Hdc, Hfc, Hic, Hvc. reflexivity. }
  destruct (Hvv upV eq_refl) as [Hvu Hvl].
  unfold bind at 1, call at 1.
  destruct (respond env _ (UpdateArticleUsecase _)) as [e | []].
  - intros H; ran H; right. exists fm, upI, upV.
    cbn -[update_command]. autorewrite with trace. rewrite Hdc, Hfc, Hic, Hvc,
      Hdu, Hff, Hiu, Hvu.
    cbn. rewrite !app_nil_r. repeat split; assumption || reflexivity.
  - unfold bind, call, lift.
    match goal with
    | |- context [respond env ?hh (GetArticleByIdQuery id)] =>
        destruct (respond env hh (GetArticleByIdQuery id)) as [e | refreshed]
    end;
      cbn -[update_command]; intros H; ran H; right; exists fm, upI, upV;
      cbn -[update_command]; autorewrite with trace; rewrite Hdc, Hfc, Hic, Hvc,
        Hdu, Hff, Hiu, Hvu;
      cbn; rewrite ?app_nil_r; repeat split; assumption || reflexivity.
Qed.

Lemma logs_quiet (t : Trace) :
  Forall (fun e => is_log e = true) t ->
  update_commands t = [] /\ uploaded_files t = [] /\ uploads_started t = [] /\
  article_deletions t = [] /\ file_deletions t = [].
Proof.
  induction 1 as [| e t He _ IH]; [repeat split; reflexivity |].
  destruct e; [discriminate | exact IH].
Qed.

Lemma update_run (env : Env) (h : Trace) (id : jstring) (dto : UpdateArticleDto)
    (files : option Files) (user : option User) :
  exists logs,
    snd (update env id dto files user h) =
      snd (update_body env id dto files user h) ++ logs /\
    Forall (fun e => is_log e = true) logs.
Proof.
  unfold update, try_catch.
  destruct (update_body env id dto files user h) as [[e | d] tb]; cbn.
  - eexists. split; [reflexivity | repeat constructor].
  - exists []. rewrite app_nil_r. split; [reflexivity | constructor].
Qed.

(** ** update: the merged image and video sequences *)





(** ** update: the removal lists *)

(** C4 (amended).  Each removal list of an update is parsed by
    [parseArrayField], which never fails: a real array is flattened one
    level and stripped of null and undefined; a string is parsed as JSON
    (an array is flattened and stripped, any other truthy value becomes a
    one-element list); a string that is not JSON is split at commas, each
    piece trimmed and the empty pieces dropped.  There is no bracket-wrap
    retry and no format error.  The ids so parsed are the file deletions
    [update] requests first and the command's [tagsToRemove]. *)
Theorem removal_lists_parsed_by_parseArrayField :
  (forall items,
     parseArrayField (JArray items) = List.filter not_nullish (flat items)) /\
  (forall s items,
     JSON.parse s = Some (JArray items) ->
     parseArrayField (JString s) = List.filter not_nullish (flat items)) /\
  (forall s parsed,
     JSON.parse s = Some parsed ->
     (forall items, parsed <> JArray items) ->
     parseArrayField (JString s) = if truthy parsed then [parsed] else []) /\
  (forall s,
     JSON.parse s = None ->
     parseArrayField (JString s) =
       List.map JString (List.filter nonempty_string (List.map trim (split_comma s)))) /\
  (forall id dto existing uploadedFeatured uploadedImages uploadedVideos,
     uc_tagsToRemove
       (update_command id dto existing uploadedFeatured uploadedImages uploadedVideos) =
     Some (parseArrayField (udto_removedTags dto))) /\
  (forall (env : Env) (h : Trace) id dto files (user : User) existing,
     respond env h (GetArticleByIdQuery id) = inr (Some existing) ->
     fst (check_owner user (Some existing) h) = inr tt ->
     exists later,
       List.map fst (file_deletions (snd (update env id dto files (Some user) h))) =
       parseArrayField (udto_removedImages dto) ++
       parseArrayField (udto_removedVideos dto) ++ later).
Proof.
  split; [| split; [| split; [| split; [| split]]]].
  - intros items. reflexivity.
  - intros s items Hp. unfold parseArrayField.
    destruct s as [| c s']; [discriminate Hp |]. cbn [truthy negb].
    unfold json_parse. rewrite Hp. reflexivity.
  - intros s parsed Hp Hna. unfold parseArrayField.
    destruct s as [| c s']; [discriminate Hp |]. cbn [truthy negb].
    unfold json_parse. rewrite Hp.
    destruct parsed; try reflexivity. exfalso. exact (Hna items eq_refl).
  - intros s Hp. unfold parseArrayField.
    destruct s as [| c s']; [reflexivity |]. cbn [truthy negb].
    unfold json_parse. rewrite Hp. reflexivity.
  - reflexivity.
  - intros env h id dto files user existing Hget Howner.
    destruct (update_run env h id dto files (Some user)) as (logs & -> & Hlogs).
    destruct (logs_quiet logs Hlogs) as (_ & _ & _ & _ & Hlf).
    rewrite file_deletions_app, Hlf, app_nil_r.
    unfold update_body. unfold bind at 1, call at 1. rewrite Hget.
    unfold bind at 1.
    pose proof (check_owner_run user (Some existing)
                  (h ++ [Called (GetArticleByIdQuery id) (inr (Some existing))])) as Hc.
    assert (Hsame : fst (check_owner user (Some existing)
                           (h ++ [Called (GetArticleByIdQuery id) (inr (Some existing))])) =
                    fst (check_owner user (Some existing) h)).
    { unfold check_owner. destruct (role_eqb (user_role user) AUTHOR); [| reflexivity].
      destruct (negb (jstring_eqb (art_authorId existing) (user_id user))); reflexivity. }
    rewrite Howner in Hsame. clear Howner.
    destruct (check_owner user (Some existing)
                (h ++ [Called (GetArticleByIdQuery id) (inr (Some existing))])) as [oc tc].
    simpl in Hc, Hsame. subst oc tc.
    unfold bind at 1.
    destruct (delete_removed env _ _ _) as [od td] eqn:Hd.
    apply delete_removed_run in Hd as (-> & Hids & Hdel).
    match goal with
    | |- context [bind ?m ?k ?hh] => destruct (bind m k hh) as [o2 t2]
    end.
    cbn [snd app file_deletions]. exists (List.map fst (file_deletions t2)).
    rewrite file_deletions_app, List.map_app, Hids, <- app_assoc. reflexivity.
Qed.

(** C4 as stated fails: [a,b] is a format error for the inline-tag parsing
    of [create] but parses to two ids here, and [1,2], which the bracket
    wrap would read as two numbers, is split into two strings. *)
Lemma parseArrayField_differs_from_tag_parsing :
  parse_tags (Some (str "a,b")) = inl (BadRequest (str "Invalid JSON format for tags")) /\
  tolerant_parse_spec (JString (str "a,b")) =
    inl (BadRequest (str "Invalid JSON format for tags")) /\
  parseArrayField (JString (str "a,b")) = [JString (str "a"); JString (str "b")] /\
  inr (parseArrayField (JString (str "a,b"))) <> tolerant_parse_spec (JString (str "a,b")) /\
  tolerant_parse_spec (JString (str "1,2")) =
    inr [JNumber {| num_neg := false; num_mant := 1; num_exp := 0 |};
         JNumber {| num_neg := false; num_mant := 2; num_exp := 0 |}] /\
  parseArrayField (JString (str "1,2")) = [JString (str "1"); JString (str "2")].
Proof.
  repeat split; try reflexivity. vm_compute. discriminate.
Qed.

(** ** Files without a byte payload *)

(** C8.  [update] starts an upload for an image that has no buffer: the
    first upload of the request carries an absent buffer. *)
Theorem update_uploads_file_without_buffer
    (env : Env) (h : Trace) (id : jstring) (dto : UpdateArticleDto) (fs : Files)
    (user : User) (existing : Article) (file : MulterFile)
    (rest : list (option MulterFile)) :
  respond env h (GetArticleByIdQuery id) = inr (Some existing) ->
  fst (check_owner user (Some existing) h) = inr tt ->
  files_featuredMedia fs = None ->
  files_images fs = Some (Some file :: rest) ->
  mf_buffer file = None ->
  exists others,
    uploads_started (snd (update env id dto (Some fs) (Some user) h)) =
    (None, mf_originalname file, mf_mimetype file) :: others.
Proof.
  intros Hget Howner Hfeatured Himages Hbuffer.
  destruct (update_run env h id dto (Some fs) (Some user)) as (logs & -> & Hlogs).
  rewrite uploads_started_app.
  unfold update_body. unfold bind at 1, call at 1. rewrite Hget.
  unfold bind at 1.
  pose proof (check_owner_run user (Some existing)
                (h ++ [Called (GetArticleByIdQuery id) (inr (Some existing))])) as Hc.
  assert (Hsame : fst (check_owner user (Some existing)
                         (h ++ [Called (GetArticleByIdQuery id) (inr (Some existing))])) =
                  fst (check_owner user (Some existing) h)).
  { unfold check_owner. destruct (role_eqb (user_role user) AUTHOR); [| reflexivity].
    destruct (negb (jstring_eqb (art_authorId existing) (user_id user))); reflexivity. }
  rewrite Howner in Hsame. clear Howner.
  destruct (check_owner user (Some existing)
              (h ++ [Called (GetArticleByIdQuery id) (inr (Some existing))])) as [oc tc].
  simpl in Hc, Hsame. subst oc tc.
  unfold bind at 1.
  destruct (delete_removed env _ _ _) as [od td] eqn:Hd.
  apply delete_removed_run in Hd as (-> & _ & Hdel).
  destruct (deletions_only_no_upload td Hdel) as [_ Hdu].
  unfold bind at 1, update_featured at 1. rewrite Hfeatured. cbn [ret].
  unfold bind at 1, upload_all at 1. rewrite Himages.
  unfold bind at 1. cbn [start_uploads]. rewrite Hbuffer.
  match goal with
  | |- context [start_uploads env rest ?hh] => destruct (start_uploads env rest hh) as [os ts]
  end.
  match goal with
  | |- context [uploads_started (snd ?run)] =>
      assert (Hrun : exists r tail,
                snd run = Called (GetArticleByIdQuery id) (inr (Some existing)) :: td ++
                          Called (FileUploader_uploadFile None (mf_originalname file)
                                    (mf_mimetype file)) r :: tail)
  end.
  { destruct os as [e | others]; cbn -[update_command first_rejection].
    - eexists _, _. reflexivity.
    - destruct (first_rejection _) as [e | ups].
      + eexists _, _. reflexivity.
      + match goal with
        | |- context [bind ?m ?k ?hh] => destruct (bind m k hh) as [o2 t2]
        end.
        cbn. eexists _, _. reflexivity. }
  destruct Hrun as (r & tail & ->).
  cbn [uploads_started]. rewrite uploads_started_app, Hdu. cbn.
  eexists. reflexivity.
Qed.


(** An update whose only image has no buffer still calls the uploader. *)
Lemma update_uploads_file_without_buffer_witness :
  exists others,
    uploads_started
      (snd (update alice_draft_stored (str "a1") empty_update_dto (Some bufferless_image)
              (Some alice) [])) =
    (None, str "E", str "image/png") :: others.
Proof.
  exact (update_uploads_file_without_buffer alice_draft_stored [] (str "a1")
           empty_update_dto bufferless_image alice (sample_article DRAFT)
           (request_file "E" None) [] eq_refl eq_refl eq_refl eq_refl eq_refl).
Defined.

(** [create], by contrast, passes over such files: a request behaves as
    the same request without them. *)
Lemma bind_cong {A B} (m m' : M A) (k k' : A -> M B) (h : Trace) :
  m h = m' h -> (forall a h', k a h' = k' a h') -> bind m k h = bind m' k' h.
Proof.
  intros Hm Hk. unfold bind. rewrite Hm. destruct (m' h) as [[e | a] t]; [reflexivity |].
  rewrite Hk. reflexivity.
Qed.

Lemma try_catch_cong {A} (m m' : M A) (handler : Thrown -> M A) (h : Trace) :
  m h = m' h -> try_catch m handler h = try_catch m' handler h.
Proof. intros Hm. unfold try_catch. rewrite Hm. reflexivity. Qed.

Lemma upload_each_skips_files_without_buffer (env : Env)
    (group : list (option MulterFile)) (h : Trace) :
  upload_each env group h = upload_each env (List.filter has_buffer group) h.
Proof.
  revert h. induction group as [| [f |] rest IH]; intros h; [reflexivity | | exact (IH h)].
  cbn [upload_each List.filter has_buffer].
  destruct (mf_buffer f) as [buffer |] eqn:Hb; [| exact (IH h)].
  cbn [upload_each]. rewrite Hb.
  apply bind_cong; [reflexivity |]. intros uploaded h1.
  apply bind_cong; [reflexivity |]. intros date h2.
  apply bind_cong; [apply IH | reflexivity].
Qed.

Lemma upload_each_needs_buffer (env : Env) (group : list (option MulterFile)) (h : Trace) :
  Forall (fun started => fst (fst started) <> None)
    (uploads_started (snd (upload_each env group h))).
Proof.
  revert h. induction group as [| [f |] rest IH]; intros h; [constructor | | exact (IH h)].
  cbn [upload_each]. destruct (mf_buffer f) as [buffer |]; [| exact (IH h)].
  unfold bind at 1, call at 1.
  destruct (respond env h _) as [e | uploaded]; [repeat constructor; discriminate |].
  unfold bind at 1. cbn [now].
  unfold bind at 1.
  specialize (IH ((h ++ [Called (FileUploader_uploadFile (Some buffer) (mf_originalname f)
                                   (mf_mimetype f)) (inr uploaded)]) ++ [])).
  destruct (upload_each env rest _) as [[e | others] t]; cbn in *;
    rewrite ?app_nil_r; (constructor; [discriminate | exact IH]).
Qed.

Lemma create_skips_files_without_buffer
    (env : Env) (dto : CreateArticleDto) (fs : Files) (user : option User) (h : Trace) :
  create env dto (Some fs) user h = create env dto (Some (drop_bufferless fs)) user h.
Proof.
  unfold create. apply try_catch_cong.
  destruct user as [u |]; [| reflexivity].
  destruct (negb (role_in [AUTHOR; ADMIN; EDITOR] (user_role u))); [reflexivity |].
  apply bind_cong; [reflexivity |]. intros parsedTags h1.
  apply bind_cong; [reflexivity |]. intros article h2.
  apply try_catch_cong. unfold create_enrich.
  apply bind_cong; [reflexivity |]. intros existingTags h3.
  apply bind_cong; [reflexivity |]. intros newTags h4.
  apply bind_cong; [reflexivity |]. intros _ h5.
  apply bind_cong; [reflexivity |]. intros _ h6.
  change (default default_files (Some fs)) with fs.
  change (default default_files (Some (drop_bufferless fs))) with (drop_bufferless fs).
  cbn [drop_bufferless files_images files_videos].
  apply bind_cong.
  { destruct (files_images fs) as [g |]; [| reflexivity].
    apply upload_each_skips_files_without_buffer. }
  intros uploadedImages h7.
  apply bind_cong; [| reflexivity].
  destruct (files_videos fs) as [g |]; [| reflexivity].
  apply upload_each_skips_files_without_buffer.
Qed.

(** ** delete *)

Lemma delete_file_logged_run (env : Env) (what : string) (f : IFile) (h : Trace)
    (o : Outcome unit) (t : Trace) :
  delete_file_logged env what f h = (o, t) ->
  o = inr tt /\
  List.map fst (file_deletions t) = [JString (file_id f)] /\
  logged t = deletion_failures what (file_deletions t) /\
  article_deletions t = [].
Proof.
  unfold delete_file_logged, try_catch, call, console_error.
  destruct (respond env h (FileService_deleteFile (JString (file_id f)))) as [e | []];
    cbn; intros H; ran H; repeat split; reflexivity.
Qed.

Lemma deletion_failures_app (what : string) (a b : list (JSValue * Outcome unit)) :
  deletion_failures what (a ++ b) = deletion_failures what a ++ deletion_failures what b.
Proof.
  induction a as [| [id [e | u]] a IH]; simpl; [reflexivity | | exact IH].
  rewrite IH. reflexivity.
Qed.

Lemma delete_files_logged_run (env : Env) (what : string) (fs : list IFile) (h : Trace)
    (o : Outcome unit) (t : Trace) :
  delete_files_logged env what fs h = (o, t) ->
  o = inr tt /\
  List.map fst (file_deletions t) = List.map (fun f => JString (file_id f)) fs /\
  logged t = deletion_failures what (file_deletions t) /\
  article_deletions t = [].
Proof.
  revert h o t. induction fs as [| f rest IH]; intros h o t.
  - intros H. ran H. repeat split; reflexivity.
  - cbn [delete_files_logged]. unfold bind.
    destruct (delete_file_logged env what f h) as [o1 t1] eqn:H1.
    apply delete_file_logged_run in H1 as (-> & Hd1 & Hl1 & Ha1).
    destruct (delete_files_logged env what rest (h ++ t1)) as [o2 t2] eqn:H2.
    apply IH in H2 as (-> & Hd2 & Hl2 & Ha2).
    intros H. ran H.
    autorewrite with trace. rewrite List.map_app,
      deletion_failures_app, Hd1, Hd2, Hl1, Hl2, Ha1, Ha2.
    repeat split; reflexivity.
Qed.

Lemma delete_associated_files_run (env : Env) (a : Article) (h : Trace)
    (o : Outcome unit) (t : Trace) :
  delete_associated_files env a h = (o, t) ->
  o = inr tt /\ article_deletions t = [] /\
  exists featured images videos,
    file_deletions t = featured ++ images ++ videos /\
    List.map fst featured =
      (if is_draft (art_status a)
       then List.map (fun f => JString (file_id f)) (option_list (art_featuredMedia a))
       else []) /\
    List.map fst images =
      (if is_draft (art_status a)
       then List.map (fun f => JString (file_id f)) (default [] (art_images a))
       else []) /\
    List.map fst videos =
      (if is_draft (art_status a)
       then List.map (fun f => JString (file_id f)) (default [] (art_videos a))
       else []) /\
    logged t = deletion_failures "featured media" featured ++
               deletion_failures "image" images ++ deletion_failures "video" videos.
Proof.
  unfold delete_associated_files.
  destruct (is_draft (art_status a)).
  - unfold bind at 1.
    assert (Hf : forall o1 t1,
               match art_featuredMedia a with
               | Some fm => delete_file_logged env "featured media" fm
               | None => ret tt
               end h = (o1, t1) ->
               o1 = inr tt /\
               List.map fst (file_deletions t1) =
                 List.map (fun f => JString (file_id f)) (option_list (art_featuredMedia a)) /\
               logged t1 = deletion_failures "featured media" (file_deletions t1) /\
               article_deletions t1 = []).
    { intros o1 t1. destruct (art_featuredMedia a) as [fm |].
      - apply delete_file_logged_run.
      - intros H. ran H. repeat split; reflexivity. }
    destruct (match art_featuredMedia a with
              | Some fm => delete_file_logged env "featured media" fm
              | None => ret tt
              end h) as [o1 t1] eqn:H1.
    destruct (Hf o1 t1 eq_refl) as (-> & Hd1 & Hl1 & Ha1). clear Hf H1.
    unfold bind.
    destruct (delete_files_logged env "image" _ (h ++ t1)) as [o2 t2] eqn:H2.
    apply delete_files_logged_run in H2 as (-> & Hd2 & Hl2 & Ha2).
    destruct (delete_files_logged env "video" _ ((h ++ t1) ++ t2)) as [o3 t3] eqn:H3.
    apply delete_files_logged_run in H3 as (-> & Hd3 & Hl3 & Ha3).
    intros H. ran H.
    split; [reflexivity |]. split.
    + autorewrite with trace. rewrite Ha1, Ha2, Ha3. reflexivity.
    + exists (file_deletions t1), (file_deletions t2), (file_deletions t3).
      autorewrite with trace. rewrite Hl1, Hl2, Hl3.
      repeat split; assumption || reflexivity.
  - intros H. ran H.
    split; [reflexivity |]. split; [reflexivity |].
    exists [], [], []. repeat split; reflexivity.
Qed.

(** C7.  For a delete request by an ADMIN or EDITOR on an article the
    query returned: file deletions are requested for the featured media,
    the images and the videos, in that order, exactly when the article is
    a draft, and none otherwise; each rejected file deletion is logged;
    the article deletion is requested in every case, and it alone decides
    how the request ends. *)
Theorem delete_removes_files_only_for_drafts
    (env : Env) (h : Trace) (id : jstring) (u : User) (a : Article) :
  role_in [ADMIN; EDITOR] (user_role u) = true ->
  respond env h (GetArticleByIdQuery id) = inr (Some a) ->
  exists featured images videos answer,
    file_deletions (snd (deleteArticle env id (Some u) h)) = featured ++ images ++ videos /\
    List.map fst featured =
      (if is_draft (art_status a)
       then List.map (fun f => JString (file_id f)) (option_list (art_featuredMedia a))
       else []) /\
    List.map fst images =
      (if is_draft (art_status a)
       then List.map (fun f => JString (file_id f)) (default [] (art_images a))
       else []) /\
    List.map fst videos =
      (if is_draft (art_status a)
       then List.map (fun f => JString (file_id f)) (default [] (art_videos a))
       else []) /\
    logged (snd (deleteArticle env id (Some u) h)) =
      deletion_failures "featured media" featured ++
      deletion_failures "image" images ++ deletion_failures "video" videos /\
    article_deletions (snd (deleteArticle env id (Some u) h)) = [(id, answer)] /\
    fst (deleteArticle env id (Some u) h) = delete_outcome answer.
Proof.
  intros Hrole Hget.
  destruct (deleteArticle env id (Some u) h) as [o t] eqn:Hrun. cbn [fst snd].
  revert Hrun.
  unfold deleteArticle, try_catch. rewrite Hrole. cbn [negb].
  unfold bind at 1, call at 1. rewrite Hget.
  unfold bind at 1.
  destruct (delete_associated_files env a _) as [o1 t1] eqn:H1.
  apply delete_associated_files_run in H1
    as (-> & Ha1 & featured & images & videos & Hd & Hf & Hi & Hv & Hl).
  unfold call.
  match goal with
  | |- context [respond env ?hh (DeleteArticleUsecase id)] =>
      set (answer := respond env hh (DeleteArticleUsecase id))
  end.
  intros Hrun. exists featured, images, videos, answer.
  assert (Ht : t = Called (GetArticleByIdQuery id) (inr (Some a)) :: t1 ++
                   [Called (DeleteArticleUsecase id) answer] /\
               o = delete_outcome answer).
  { revert Hrun. destruct answer as [e | []]; cbn.
    - destruct (is_class NotFoundException e); cbn; intros H; ran H;
        rewrite ?app_nil_r; split; reflexivity.
    - intros H; ran H. split; reflexivity. }
  destruct Ht as [-> ->].
  cbn [file_deletions logged article_deletions].
  autorewrite with trace. rewrite Hd, Hl, Ha1.
  cbn. rewrite ?app_nil_r. repeat split; assumption || reflexivity.
Qed.

(** Every file deletion of a draft fails: five are requested and logged,
    and the article is deleted all the same.  For the published article no
    file deletion is requested. *)
Lemma delete_removes_files_witness :
  (List.map fst (file_deletions (snd (deleteArticle deletion_outage (str "a1") (Some erin) []))) =
     List.map (fun name => JString (str name)) ["F"; "A"; "B"; "C"; "V"]%string /\
   length (logged (snd (deleteArticle deletion_outage (str "a1") (Some erin) []))) = 5 /\
   article_deletions (snd (deleteArticle deletion_outage (str "a1") (Some erin) [])) =
     [(str "a1", inr tt)] /\
   fst (deleteArticle deletion_outage (str "a1") (Some erin) []) = inr tt) /\
  (file_deletions (snd (deleteArticle alice_published_stored (str "a1") (Some erin) [])) = [] /\
   article_deletions (snd (deleteArticle alice_published_stored (str "a1") (Some erin) [])) =
     [(str "a1", inr tt)]).
Proof.
  destruct (delete_removes_files_only_for_drafts deletion_outage [] (str "a1") erin
              (sample_article DRAFT) eq_refl eq_refl)
    as (f1 & i1 & v1 & a1 & _).
  destruct (delete_removes_files_only_for_drafts alice_published_stored [] (str "a1") erin
              (sample_article PUBLISHED) eq_refl eq_refl)
    as (f2 & i2 & v2 & a2 & _).
  split; repeat split; vm_compute; reflexivity.
Defined.

(** * Further properties *)

(** ** Role gates *)

(** A caller who is neither EDITOR nor ADMIN is refused by archive,
    publish, unpublish and restore with Forbidden, and by delete with its
    status-500 error, before any collaborator is called. *)
Theorem editor_endpoints_refuse_other_roles
    (env : Env) (h : Trace) (ids : list jstring) (id : jstring) (u : User) :
  role_in [EDITOR; ADMIN] (user_role u) = false ->
  archiveArticles env ids (Some u) h =
    (inl (Forbidden "You are not authorized to perform this action."), []) /\
  publish env id (Some u) h =
    (inl (Forbidden "You are not authorized to perform this action."), []) /\
  unpublish env id (Some u) h =
    (inl (Forbidden "You are not authorized to perform this action."), []) /\
  restore env id (Some u) h =
    (inl (Forbidden "You are not authorized to perform this action."), []) /\
  deleteArticle env id (Some u) h =
    (inl (ThrownError (HttpException 500)
            (str "Failed to delete article and associated files")), []).
Proof.
  intros Hrole.
  assert (Hrole' : role_in [ADMIN; EDITOR] (user_role u) = false).
  { revert Hrole. unfold role_in. cbn [existsb]. rewrite !orb_false_r.
    intros H. rewrite orb_comm. exact H. }
  unfold archiveArticles, publish, unpublish, restore, deleteArticle, try_catch.
  rewrite Hrole, Hrole'. repeat split; reflexivity.
Qed.

Lemma editor_endpoints_refuse_other_roles_witness :
  publish alice_draft_stored (str "a1") (Some alice) [] =
    (inl (Forbidden "You are not authorized to perform this action."), []) /\
  deleteArticle alice_draft_stored (str "a1") (Some alice) [] =
    (inl (ThrownError (HttpException 500)
            (str "Failed to delete article and associated files")), []).
Proof.
  destruct (editor_endpoints_refuse_other_roles alice_draft_stored [] [] (str "a1") alice
              eq_refl) as (_ & Hp & _ & _ & Hd).
  split; [exact Hp | exact Hd].
Defined.

(** A caller whose role is none of AUTHOR, ADMIN, EDITOR is refused before
    any collaborator is called: search and removeTag end in Forbidden,
    while assignTags and create wrap the same refusal into a BadRequest. *)
Theorem author_endpoints_refuse_other_roles
    (env : Env) (h : Trace) (query : SearchArticlesDto) (id tagId : jstring)
    (tagIds : list jstring) (dto : CreateArticleDto) (files : option Files) (u : User) :
  role_in [AUTHOR; ADMIN; EDITOR] (user_role u) = false ->
  searchArticles env query (Some u) h =
    (inl (Forbidden "You are not authorized to perform this action."), []) /\
  removeTag env id tagId (Some u) h =
    (inl (Forbidden "You are not authorized to perform this action."), []) /\
  assignTags env id tagIds (Some u) h =
    (inl (BadRequest
            (str "Failed to assign tags: You are not authorized to perform this action.")),
     []) /\
  create env dto files (Some u) h =
    (inl (BadRequest
            (str "Failed to create article: You are not authorized to perform this action.")),
     [Logged (LogError (str "Article creation error:")
                (Forbidden "You are not authorized to perform this action."))]).
Proof.
  intros Hrole.
  assert (Hrole' : role_in [EDITOR; ADMIN; AUTHOR] (user_role u) = false).
  { revert Hrole. unfold role_in. cbn [existsb]. rewrite !orb_false_r.
    destruct (role_eqb (user_role u) AUTHOR), (role_eqb (user_role u) ADMIN),
      (role_eqb (user_role u) EDITOR); intros H; solve [reflexivity | discriminate H]. }
  unfold searchArticles, removeTag, assignTags, create, try_catch.
  rewrite Hrole, Hrole'. repeat split; reflexivity.
Qed.

Lemma author_endpoints_refuse_other_roles_witness :
  fst (searchArticles alice_draft_stored
         {| s_text := str "x"; s_page := None; s_pageSize := None |} (Some guest) []) =
    inl (Forbidden "You are not authorized to perform this action.") /\
  fst (create alice_draft_stored sample_create_dto None (Some guest) []) =
    inl (BadRequest
           (str "Failed to create article: You are not authorized to perform this action.")).
Proof.
  destruct (author_endpoints_refuse_other_roles alice_draft_stored []
              {| s_text := str "x"; s_page := None; s_pageSize := None |}
              (str "a1") (str "t1") [] sample_create_dto None guest eq_refl)
    as (Hs & _ & _ & Hc).
  rewrite Hs, Hc. split; reflexivity.
Defined.

(** ** list *)

Lemma ceil_div_least (total limit : Z) :
  (0 < limit)%Z ->
  exists pages,
    ceil_div total limit = Some pages /\
    ((pages - 1) * limit < total)%Z /\ (total <= pages * limit)%Z.
Proof.
  intros Hpos. unfold ceil_div.
  destruct (Z.eqb_spec limit 0) as [-> | _]; [lia |].
  eexists. split; [reflexivity |].
  pose proof (Z.div_mod (- total) limit ltac:(lia)) as Hdiv.
  pose proof (Z.mod_pos_bound (- total) limit Hpos) as Hmod.
  nia.
Qed.

(** For an AUTHOR, [list] asks the use case for the caller's own articles
    and filters the answer once more: every article of the page belongs to
    the caller, [total] is the number of articles left, and [totalPages]
    is recomputed from it: for a positive [limit], the least number of
    pages of that size that hold them. *)
Theorem list_author_sees_only_own
    (env : Env) (h : Trace) (dto : ListArticlesDto) (u : User)
    (page : PaginatedArticleResponseDto) (t : Trace) :
  user_role u = AUTHOR ->
  listArticles env dto (Some u) h = (inr page, t) ->
  Forall (fun article => g_authorId article = user_id u) (pr_data page) /\
  meta_total (pr_metadata page) = Z.of_nat (length (pr_data page)) /\
  meta_totalPages (pr_metadata page) =
    ceil_div (Z.of_nat (length (pr_data page))) (l_limit dto) /\
  ((0 < l_limit dto)%Z ->
   exists pages,
     meta_totalPages (pr_metadata page) = Some pages /\
     ((pages - 1) * l_limit dto < Z.of_nat (length (pr_data page)))%Z /\
     (Z.of_nat (length (pr_data page)) <= pages * l_limit dto)%Z) /\
  exists query result,
    t = [Called (ListArticlesUsecase query) (inr result)] /\
    f_authorId (q_filters query) = Some (user_id u) /\
    pr_data page =
      List.map mapToGetArticleDto
        (List.filter (fun article => jstring_eqb (art_authorId article) (user_id u))
           (lr_data result)).
Proof.
  intros Hrole. unfold listArticles, try_catch.
  unfold bind at 1. cbn [now]. unfold bind at 1. rewrite Hrole. cbn [role_eqb].
  destruct (truthy_string (l_authorId dto) &&
            negb (jstring_eqb (default [] (l_authorId dto)) (user_id u))).
  { cbn. intros H. unfold Outcome in H. discriminate H. }
  cbn [ret]. unfold bind at 1, call at 1.
  match goal with
  | |- context [respond env ?hh (ListArticlesUsecase ?q)] =>
      set (query := q); destruct (respond env hh (ListArticlesUsecase query)) as [e | result]
  end.
  { cbn. destruct (is_class UnauthorizedException e || is_class ForbiddenException e);
      [cbn; intros H; unfold Outcome in H; discriminate H |].
    destruct (is_class BadRequestException e); cbn; intros H; unfold Outcome in H; discriminate H. }
  cbn. intros H. ran H. cbn.
  rewrite length_map.
  split; [| split; [reflexivity | split; [reflexivity | split]]].
  - apply List.Forall_map. apply List.Forall_forall. intros a Ha.
    apply filter_In in Ha as [_ Ha]. unfold jstring_eqb in Ha.
    apply bool_decide_eq_true_1 in Ha. exact Ha.
  - intros Hpos. apply ceil_div_least. exact Hpos.
  - exists query, result. repeat split; reflexivity.
Qed.

(** Alice lists the articles of a world whose use case returns hers and
    Bob's: the page holds hers alone, and the total is 1. *)
Lemma list_author_sees_only_own_witness :
  exists page t,
    listArticles two_authors_stored (first_page None) (Some alice) [] = (inr page, t) /\
    Forall (fun article => g_authorId article = str "alice") (pr_data page) /\
    List.map g_id (pr_data page) = [str "a1"] /\
    meta_total (pr_metadata page) = 1%Z.
Proof.
  eexists _, _. split; [vm_compute; reflexivity |].
  split; [| split; reflexivity].
  exact (proj1 (list_author_sees_only_own two_authors_stored [] (first_page None) alice _ _
                  eq_refl eq_refl)).
Defined.

(** An AUTHOR who asks for the articles of another author is refused with
    Forbidden before the use case is called. *)
Theorem list_author_cannot_filter_by_other_author
    (env : Env) (h : Trace) (dto : ListArticlesDto) (u : User) (authorId : jstring) :
  user_role u = AUTHOR ->
  l_authorId dto = Some authorId ->
  authorId <> [] ->
  authorId <> user_id u ->
  listArticles env dto (Some u) h =
    (inl (Forbidden "Authors can only view their own articles"), []).
Proof.
  intros Hrole Hfilter Hnonempty Hother. unfold listArticles, try_catch.
  unfold bind at 1. cbn [now]. unfold bind at 1. rewrite Hrole, Hfilter. cbn [role_eqb].
  destruct authorId as [| c rest]; [contradiction |].
  cbn [truthy_string andb].
  change (default [] (Some (c :: rest))) with (c :: rest).
  unfold jstring_eqb. rewrite bool_decide_eq_false_2 by exact Hother.
  reflexivity.
Qed.

Lemma list_author_cannot_filter_by_other_author_witness :
  listArticles two_authors_stored (first_page (Some (str "bob"))) (Some alice) [] =
    (inl (Forbidden "Authors can only view their own articles"), []).
Proof.
  apply (list_author_cannot_filter_by_other_author two_authors_stored []
           (first_page (Some (str "bob"))) alice (str "bob") eq_refl eq_refl);
    vm_compute; discriminate.
Defined.

(** For a caller who is not an AUTHOR, [list] returns the use case's page
    as it is, with the use case's own metadata.  The author filter of the
    query is the requested author for an ADMIN or EDITOR and absent for any
    other role; paging, sorting, category and status are passed on. *)
Theorem list_other_roles_get_the_page_unfiltered
    (env : Env) (h : Trace) (dto : ListArticlesDto) (u : User)
    (page : PaginatedArticleResponseDto) (t : Trace) :
  user_role u <> AUTHOR ->
  listArticles env dto (Some u) h = (inr page, t) ->
  exists query result,
    t = [Called (ListArticlesUsecase query) (inr result)] /\
    pr_data page = List.map mapToGetArticleDto (lr_data result) /\
    pr_metadata page = lr_metadata result /\
    f_authorId (q_filters query) =
      (if role_in [ADMIN; EDITOR] (user_role u) && truthy_string (l_authorId dto)
       then l_authorId dto else None) /\
    (q_page query, q_limit query, q_sortBy query, q_sortOrder query) =
      (l_page dto, l_limit dto, l_sortBy dto, l_sortOrder dto) /\
    f_categoryId (q_filters query) = l_categoryId dto /\
    f_status (q_filters query) = l_status dto /\
    option_map (List.map tag_id) (f_tags (q_filters query)) =
      (if truthy_string (l_tagId dto) then option_map (fun tagId => [tagId]) (l_tagId dto)
       else None).
Proof.
  intros Hrole.
  assert (Hnot : role_eqb (user_role u) AUTHOR = false).
  { destruct (user_role u); try reflexivity. contradiction. }
  unfold listArticles, try_catch.
  unfold bind at 1. cbn [now]. unfold bind at 1. rewrite Hnot.
  set (authorId := if role_in [ADMIN; EDITOR] (user_role u) && truthy_string (l_authorId dto)
                   then l_authorId dto else None).
  assert (Hauthor : forall hh,
            (if role_in [ADMIN; EDITOR] (user_role u)
             then ret (if truthy_string (l_authorId dto) then l_authorId dto else None)
             else ret None) hh = (inr authorId, [])).
  { intros hh. subst authorId. destruct (role_in [ADMIN; EDITOR] (user_role u)); reflexivity. }
  rewrite Hauthor. unfold bind at 1, call at 1.
  match goal with
  | |- context [respond env ?hh (ListArticlesUsecase ?q)] =>
      set (query := q); destruct (respond env hh (ListArticlesUsecase query)) as [e | result]
  end.
  { cbn. destruct (is_class UnauthorizedException e || is_class ForbiddenException e);
      [cbn; intros H; unfold Outcome in H; discriminate H |].
    destruct (is_class BadRequestException e); cbn; intros H; unfold Outcome in H;
      discriminate H. }
  cbn. intros H. ran H. exists query, result. cbn.
  repeat split; try reflexivity.
  destruct (l_tagId dto) as [[| c rest] |]; reflexivity.
Qed.

(** Erin, an EDITOR, gets both articles. *)
Lemma list_other_roles_get_the_page_unfiltered_witness :
  exists page t,
    listArticles two_authors_stored (first_page None) (Some erin) [] = (inr page, t) /\
    (exists query result,
       t = [Called (ListArticlesUsecase query) (inr result)] /\
       pr_data page = List.map mapToGetArticleDto (lr_data result)) /\
    List.map g_id (pr_data page) = [str "a1"; str "b1"].
Proof.
  eexists _, _. split; [vm_compute; reflexivity |].
  split; [| reflexivity].
  assert (Hrole : user_role erin <> AUTHOR) by discriminate.
  destruct (list_other_roles_get_the_page_unfiltered two_authors_stored [] (first_page None)
              erin _ _ Hrole eq_refl) as (query & result & Ht & Hdata & _).
  exists query, result. split; [exact Ht | exact Hdata].
Defined.

(** ** What the endpoints throw *)

Ltac catch_cases :=
  match goal with
  | |- context [let '(o, t1) := ?m ?h in _] => destruct (m h) as [[?e | ?a] ?t]
  end.

(** The read endpoints and removeTag let through only the exception
    classes their [catch] names; anything else a collaborator throws is
    replaced by an InternalServerError with a fixed message. *)
Theorem read_endpoints_hide_other_errors
    (env : Env) (h : Trace) (ldto : ListArticlesDto) (query : SearchArticlesDto)
    (id tagId : jstring) (user : option User) :
  match fst (listArticles env ldto user h) with
  | inl e =>
      is_class UnauthorizedException e || is_class ForbiddenException e ||
        is_class BadRequestException e = true \/
      e = InternalServerError "Failed to fetch articles"
  | inr _ => True
  end /\
  match fst (searchArticles env query user h) with
  | inl e =>
      is_class UnauthorizedException e || is_class ForbiddenException e = true \/
      e = InternalServerError "An unexpected error occurred while searching articles"
  | inr _ => True
  end /\
  match fst (findById env id user h) with
  | inl e =>
      is_class UnauthorizedException e || is_class NotFoundException e ||
        is_class ForbiddenException e = true \/
      e = InternalServerError "An unexpected error occurred while fetching the article"
  | inr _ => True
  end /\
  match fst (removeTag env id tagId user h) with
  | inl e =>
      is_class UnauthorizedException e || is_class ForbiddenException e ||
        is_class NotFoundException e = true \/
      e = InternalServerError "Failed to remove tag from article"
  | inr _ => True
  end.
Proof.
  split; [| split; [| split]].
  - unfold listArticles, try_catch. catch_cases; [| exact I].
    destruct (is_class UnauthorizedException e || is_class ForbiddenException e) eqn:H1.
    + cbn. left. rewrite H1. reflexivity.
    + destruct (is_class BadRequestException e) eqn:H2; cbn.
      * left. rewrite H1, H2. reflexivity.
      * right. reflexivity.
  - unfold searchArticles, try_catch. catch_cases; [| exact I].
    destruct (is_class UnauthorizedException e || is_class ForbiddenException e) eqn:H1; cbn.
    + left. exact H1.
    + right. reflexivity.
  - unfold findById, try_catch. catch_cases; [| exact I].
    destruct (is_class UnauthorizedException e || is_class NotFoundException e ||
              is_class ForbiddenException e) eqn:H1; cbn.
    + left. exact H1.
    + right. reflexivity.
  - unfold removeTag, try_catch. catch_cases; [| exact I].
    destruct (is_class UnauthorizedException e || is_class ForbiddenException e) eqn:H1.
    + cbn. left. rewrite H1. reflexivity.
    + destruct (is_class NotFoundException e) eqn:H2; cbn.
      * left. rewrite H1, H2. reflexivity.
      * right. reflexivity.
Qed.

(** What the write endpoints throw: [create] only a BadRequest it built
    itself; [archiveArticles] an authorization failure as it is, a
    BadRequest wrapping the message of any other [Error], or an
    InternalServerError for a thrown value that is no [Error]; [delete] a
    NotFoundException as it is or its status-500 error; [assignTags] only
    BadRequests. *)
Theorem write_endpoints_error_surface
    (env : Env) (h : Trace) (cdto : CreateArticleDto) (files : option Files)
    (ids tagIds : list jstring) (id : jstring) (user : option User) :
  match fst (create env cdto files user h) with
  | inl e => exists m, e = BadRequest (str "Failed to create article: " ++ m)
  | inr _ => True
  end /\
  match fst (archiveArticles env ids user h) with
  | inl e =>
      is_class UnauthorizedException e || is_class ForbiddenException e = true \/
      (exists m, e = BadRequest (str "Failed to archive articles: " ++ m)) \/
      e = InternalServerError "Failed to archive articles"
  | inr _ => True
  end /\
  match fst (deleteArticle env id user h) with
  | inl e =>
      is_class NotFoundException e = true \/
      e = ThrownError (HttpException 500) (str "Failed to delete article and associated files")
  | inr _ => True
  end /\
  match fst (assignTags env id tagIds user h) with
  | inl e => is_class BadRequestException e = true
  | inr _ => True
  end.
Proof.
  split; [| split; [| split]].
  - unfold create, try_catch. catch_cases; [| exact I]. cbn. eexists. reflexivity.
  - unfold archiveArticles, try_catch. catch_cases; [| exact I].
    destruct (is_class UnauthorizedException e || is_class ForbiddenException e) eqn:H1.
    + cbn. left. exact H1.
    + destruct e as [cls message |]; cbn.
      * right. left. eexists. reflexivity.
      * right. right. reflexivity.
  - unfold deleteArticle, try_catch. catch_cases; [| exact I].
    destruct (is_class NotFoundException e) eqn:H1; cbn.
    + left. exact H1.
    + right. reflexivity.
  - unfold assignTags, try_catch. catch_cases; [| exact I].
    destruct (is_class BadRequestException e) eqn:H1; cbn.
    + exact H1.
    + destruct e as [cls message |]; reflexivity.
Qed.

(** ** publish, unpublish, restore: the "not found" conversion *)

Lemma is_prefix_spec (p s : jstring) :
  is_prefix p s = true <-> exists after, s = p ++ after.
Proof.
  revert s. induction p as [| a p IH]; intros s; simpl.
  - split; [intros _; exists s; reflexivity | reflexivity].
  - destruct s as [| b s'].
    + split; [discriminate | intros [after H]; discriminate H].
    + rewrite andb_true_iff, N.eqb_eq, IH. split.
      * intros [-> [after ->]]. exists after. reflexivity.
      * intros [after H]. injection H as -> ->. split; [reflexivity | exists after; reflexivity].
Qed.

Lemma jincludes_spec (s p : jstring) :
  jincludes s p = true <-> exists before after, s = before ++ p ++ after.
Proof.
  induction s as [| c r IH].
  - simpl. rewrite orb_false_r, is_prefix_spec. split.
    + intros [after H]. exists [], after. exact H.
    + intros (before & after & H). symmetry in H.
      apply app_eq_nil in H as [-> H]. exists after. symmetry. exact H.
  - cbn [jincludes]. rewrite orb_true_iff, is_prefix_spec, IH. split.
    + intros [[after H] | (before & after & H)].
      * exists [], after. exact H.
      * exists (c :: before), after. rewrite H. reflexivity.
    + intros (before & after & H). destruct before as [| b before'].
      * left. exists after. exact H.
      * right. injection H as -> ->. exists before', after. reflexivity.
Qed.

Lemma not_found_or_rethrow_run {A} (e : Thrown) (h : Trace) :
  (mentions_not_found e ->
   @not_found_or_rethrow A e h = (inl (NotFound "Article not found"), [])) /\
  (~ mentions_not_found e -> @not_found_or_rethrow A e h = (inl e, [])).
Proof.
  unfold not_found_or_rethrow, mentions_not_found. split.
  - intros (cls & before & after & ->).
    assert (H : jincludes (before ++ str "not found" ++ after) (str "not found") = true)
      by (apply jincludes_spec; exists before, after; reflexivity).
    rewrite H. reflexivity.
  - intros Hno. destruct e as [cls message |]; [| reflexivity].
    destruct (jincludes message (str "not found")) eqn:H; [| reflexivity].
    exfalso. apply Hno. apply jincludes_spec in H as (before & after & ->).
    exists cls, before, after. reflexivity.
Qed.

(** For an EDITOR or ADMIN, publish, unpublish and restore turn every
    [Error] of their use case whose message contains "not found" into
    NotFoundException("Article not found"), whatever its class, and rethrow
    any other thrown value as it is. *)
Theorem publish_unpublish_restore_map_not_found
    (env : Env) (h : Trace) (id : jstring) (u : User) :
  role_in [EDITOR; ADMIN] (user_role u) = true ->
  (forall e, respond env h (PublishArticleUsecase id) = inl e ->
     (mentions_not_found e ->
      fst (publish env id (Some u) h) = inl (NotFound "Article not found")) /\
     (~ mentions_not_found e -> fst (publish env id (Some u) h) = inl e)) /\
  (forall e, respond env h (UnpublishArticleUsecase id) = inl e ->
     (mentions_not_found e ->
      fst (unpublish env id (Some u) h) = inl (NotFound "Article not found")) /\
     (~ mentions_not_found e -> fst (unpublish env id (Some u) h) = inl e)) /\
  (forall e, respond env h (RestoreArchivedArticleUsecase id) = inl e ->
     (mentions_not_found e ->
      fst (restore env id (Some u) h) = inl (NotFound "Article not found")) /\
     (~ mentions_not_found e -> fst (restore env id (Some u) h) = inl e)).
Proof.
  intros Hrole. split; [| split]; intros e He.
  - unfold publish, try_catch. rewrite Hrole. cbn [negb].
    unfold bind, call. rewrite He.
    destruct (@not_found_or_rethrow_run DisplayArticleDto e
                (h ++ [Called (PublishArticleUsecase id) (inl e)])) as [H1 H2].
    split; intros Hm; [rewrite (H1 Hm) | rewrite (H2 Hm)]; reflexivity.
  - unfold unpublish, try_catch. rewrite Hrole. cbn [negb].
    unfold bind, call. rewrite He.
    destruct (@not_found_or_rethrow_run DisplayArticleDto e
                (h ++ [Called (UnpublishArticleUsecase id) (inl e)])) as [H1 H2].
    split; intros Hm; [rewrite (H1 Hm) | rewrite (H2 Hm)]; reflexivity.
  - unfold restore, try_catch. rewrite Hrole. cbn [negb].
    unfold call. rewrite He. cbv beta iota zeta.
    destruct (@not_found_or_rethrow_run (Resp (RestoreArchivedArticleUsecase id)) e
                (h ++ [Called (RestoreArchivedArticleUsecase id) (inl e)])) as [H1 H2].
    split; intros Hm; [rewrite (H1 Hm) | rewrite (H2 Hm)]; reflexivity.
Qed.

(** The scripted publish use case fails with the plain error "Article not
    found" for an unknown id: Erin gets a NotFoundException. *)
Lemma publish_unpublish_restore_map_not_found_witness :
  fst (publish nothing_stored (str "a1") (Some erin) []) = inl (NotFound "Article not found").
Proof.
  destruct (publish_unpublish_restore_map_not_found nothing_stored [] (str "a1") erin eq_refl)
    as (Hpublish & _).
  destruct (Hpublish (ThrownError OtherError (str "Article not found")) eq_refl) as [Hyes _].
  apply Hyes. exists OtherError, (str "Article "), []. reflexivity.
Defined.

(** ** create: validation precedes persistence *)

Lemma validate_tags_failures (l : list JSValue) (e : Thrown) :
  validate_tags l = inl e ->
  e = BadRequest (str "Each tag must have a name") \/ is_class TypeError e = true.
Proof.
  induction l as [| v l IH]; simpl; [discriminate |].
  destruct v; simpl; try (intros H; injection H as <-; (left; reflexivity) || (right; reflexivity));
    try exact IH.
  destruct (truthy (own_property members (str "name"))); [exact IH |].
  intros H; injection H as <-. left. reflexivity.
Qed.

(** When the inline tags of a create request are rejected, whether as
    malformed JSON, for a tag without a name, or for an element that is
    [null], the request ends in a BadRequest that wraps the reason, and no
    collaborator has been called: no skeleton article is persisted. *)
Theorem create_rejected_tags_persist_nothing
    (env : Env) (h : Trace) (dto : CreateArticleDto) (files : option Files)
    (u : User) (e : Thrown) :
  role_in [AUTHOR; ADMIN; EDITOR] (user_role u) = true ->
  parse_tags (cdto_tags dto) = inl e ->
  create env dto files (Some u) h =
    (inl (BadRequest (str "Failed to create article: " ++ error_message e)),
     [Logged (LogError (str "Article creation error:") e)]) /\
  (e = BadRequest (str "Invalid JSON format for tags") \/
   e = BadRequest (str "Each tag must have a name") \/
   is_class TypeError e = true).
Proof.
  intros Hrole Htags. split.
  - unfold create, try_catch. rewrite Hrole. cbn [negb].
    unfold bind at 1. rewrite Htags. reflexivity.
  - revert Htags. unfold parse_tags.
    destruct (truthy_string (cdto_tags dto)); [| discriminate].
    destruct (parse_whole_then_wrapped (default [] (cdto_tags dto))) as [e1 | parsed] eqn:Hp.
    + unfold parse_whole_then_wrapped, json_parse in Hp.
      destruct (JSON.parse (default [] (cdto_tags dto))); [discriminate Hp |].
      destruct (JSON.parse (str "[" ++ default [] (cdto_tags dto) ++ str "]"));
        [discriminate Hp |].
      injection Hp as <-. cbn. intros H. injection H as <-. left. reflexivity.
    + destruct (validate_tags (array_or_singleton parsed)) as [e1 |] eqn:Hv; [| discriminate].
      rewrite (validate_tags_not_syntax _ _ Hv). intros H. injection H as <-.
      right. exact (validate_tags_failures _ _ Hv).
Qed.

Lemma create_rejected_tags_persist_nothing_witness :
  create nothing_stored nameless_tag_dto None (Some alice) [] =
    (inl (BadRequest (str "Failed to create article: Each tag must have a name")),
     [Logged (LogError (str "Article creation error:")
                (BadRequest (str "Each tag must have a name")))]).
Proof.
  apply (create_rejected_tags_persist_nothing nothing_stored [] nameless_tag_dto None alice
           (BadRequest (str "Each tag must have a name")) eq_refl eq_refl).
Defined.

(** ** delete: an article that cannot be read *)

(** When the query of a delete request does not give an article, nothing
    is deleted: the query is the only call.  A null answer ends in
    NotFoundException("Article not found"); an error of the query is
    rethrown if it is a NotFoundException and replaced by the status-500
    error otherwise. *)
Theorem delete_without_article_deletes_nothing
    (env : Env) (h : Trace) (id : jstring) (u : User) :
  role_in [ADMIN; EDITOR] (user_role u) = true ->
  (forall a, respond env h (GetArticleByIdQuery id) <> inr (Some a)) ->
  deleteArticle env id (Some u) h =
    (match respond env h (GetArticleByIdQuery id) with
     | inr _ => inl (NotFound "Article not found")
     | inl e =>
         if is_class NotFoundException e then inl e
         else inl (ThrownError (HttpException 500)
                     (str "Failed to delete article and associated files"))
     end,
     [Called (GetArticleByIdQuery id) (respond env h (GetArticleByIdQuery id))]).
Proof.
  intros Hrole Hmissing. unfold deleteArticle, try_catch. rewrite Hrole. cbn [negb].
  unfold bind at 1, call at 1.
  destruct (respond env h (GetArticleByIdQuery id)) as [e | [a |]] eqn:Hget.
  - destruct (is_class NotFoundException e); reflexivity.
  - exfalso. exact (Hmissing a eq_refl).
  - reflexivity.
Qed.

Lemma delete_without_article_deletes_nothing_witness :
  deleteArticle nothing_stored (str "a1") (Some erin) [] =
    (inl (NotFound "Article not found"), [Called (GetArticleByIdQuery (str "a1")) (inr None)]).
Proof.
  apply (delete_without_article_deletes_nothing nothing_stored [] (str "a1") erin eq_refl).
  intros a. vm_compute. discriminate.
Defined.

(** ** findById: any caller *)

(** [findById] answers a null result of the query with
    NotFoundException("Article not found") for every caller, and gives a
    caller who is not an AUTHOR any article the query returned; the
    related articles are part of the answer only for a published article. *)
Theorem findById_missing_or_found
    (env : Env) (h : Trace) (id : jstring) (u : User) (found : option Article) :
  respond env h (GetArticleByIdQuery id) = inr found ->
  match found with
  | None => fst (findById env id (Some u) h) = inl (NotFound "Article not found")
  | Some a =>
      user_role u <> AUTHOR ->
      exists d,
        fst (findById env id (Some u) h) = inr d /\
        dr_article d = mapToDisplayDto a /\
        (art_status a = PUBLISHED ->
         dr_relatedArticles d = List.map related_dto (art_relatedArticles a)) /\
        (art_status a <> PUBLISHED -> dr_relatedArticles d = [])
  end.
Proof.
  intros Hget.
  destruct found as [a |];
    [| unfold findById, try_catch; unfold bind at 1, call at 1; rewrite Hget; reflexivity].
  intros Hrole.
  assert (Hnot : role_eqb (user_role u) AUTHOR = false).
  { destruct (user_role u); try reflexivity. contradiction. }
  unfold findById, try_catch. unfold bind at 1, call at 1. rewrite Hget, Hnot.
  cbn. eexists. split; [reflexivity |]. cbn.
  split; [reflexivity |]. split.
  - intros ->. reflexivity.
  - intros Hs. destruct (art_status a); try reflexivity. contradiction.
Qed.

(** Erin, an EDITOR, reads Alice's draft: no related articles. *)
Lemma findById_missing_or_found_witness :
  fst (findById nothing_stored (str "a1") (Some erin) []) = inl (NotFound "Article not found") /\
  exists d,
    fst (findById alice_draft_stored (str "a1") (Some erin) []) = inr d /\
    dr_article d = mapToDisplayDto (sample_article DRAFT) /\
    dr_relatedArticles d = [].
Proof.
  split.
  - exact (findById_missing_or_found nothing_stored [] (str "a1") erin None eq_refl).
  - assert (Hrole : user_role erin <> AUTHOR) by discriminate.
    assert (Hdraft : art_status (sample_article DRAFT) <> PUBLISHED) by discriminate.
    destruct (findById_missing_or_found alice_draft_stored [] (str "a1") erin
                (Some (sample_article DRAFT)) eq_refl Hrole) as (d & Hrun & Hmain & _ & Hrel).
    exists d. split; [exact Hrun |]. split; [exact Hmain | exact (Hrel Hdraft)].
Defined.

(** ** The events of a computation *)

Section Events.

Context (P : Event -> Prop).

Lemma ret_events {A} (a : A) (h : Trace) : Forall P (snd (ret a h)).
Proof. constructor. Qed.

Lemma throw_events {A} (e : Thrown) (h : Trace) : Forall P (snd (@throw A e h)).
Proof. constructor. Qed.

Lemma lift_events {A} (o : Outcome A) (h : Trace) : Forall P (snd (lift o h)).
Proof. constructor. Qed.

Lemma now_events (env : Env) (h : Trace) : Forall P (snd (now env h)).
Proof. constructor. Qed.

Lemma fresh_uuid_events (env : Env) (h : Trace) : Forall P (snd (fresh_uuid env h)).
Proof. constructor. Qed.

Lemma call_events (env : Env) (c : Call) (h : Trace) :
  (forall r, P (Called c r)) -> Forall P (snd (call env c h)).
Proof. intros H. repeat constructor. apply H. Qed.

Lemma console_error_events (entry : LogEntry) (h : Trace) :
  P (Logged entry) -> Forall P (snd (console_error entry h)).
Proof. intros H. repeat constructor. exact H. Qed.

Lemma bind_events {A B} (m : M A) (k : A -> M B) (h : Trace) :
  Forall P (snd (m h)) ->
  (forall a h', Forall P (snd (k a h'))) ->
  Forall P (snd (bind m k h)).
Proof.
  intros Hm Hk. unfold bind. destruct (m h) as [[e | a] t1]; [exact Hm |].
  specialize (Hk a (h ++ t1)). destruct (k a (h ++ t1)) as [o2 t2].
  apply Forall_app. split; assumption.
Qed.

Lemma try_catch_events {A} (m : M A) (handler : Thrown -> M A) (h : Trace) :
  Forall P (snd (m h)) ->
  (forall e h', Forall P (snd (handler e h'))) ->
  Forall P (snd (try_catch m handler h)).
Proof.
  intros Hm Hk. unfold try_catch. destruct (m h) as [[e | a] t1]; [| exact Hm].
  specialize (Hk e (h ++ t1)). destruct (handler e (h ++ t1)) as [o2 t2].
  apply Forall_app. split; assumption.
Qed.

Lemma promise_all_events {A B} (f : A -> M B) (l : list A) (h : Trace) :
  (forall a h', Forall P (snd (f a h'))) -> Forall P (snd (promise_all f l h)).
Proof.
  intros Hf. unfold promise_all. apply bind_events.
  - apply settle_all_events. exact Hf.
  - intros os h'. apply lift_events.
Qed.

End Events.

(** Splits a goal on the events of a computation along its structure; what
    is left are the conditions on single calls. *)
Ltac events :=
  repeat first
    [ apply ret_events | apply throw_events | apply lift_events | apply now_events
    | apply fresh_uuid_events
    | apply call_events; intros ?
    | apply console_error_events
    | apply promise_all_events; intros ? ?
    | apply bind_events; [| intros ? ?]
    | apply try_catch_events; [| intros ? ?]
    | match goal with
      | |- Forall _ (snd ((if ?b then _ else _) _)) => destruct b
      | |- Forall _ (snd (match ?x with _ => _ end _)) => destruct x
      end ].

Lemma upload_each_events (P : Event -> Prop) (env : Env) :
  (forall c r, is_upload (Called c r) = true -> P (Called c r)) ->
  forall group h, Forall P (snd (upload_each env group h)).
Proof.
  intros HP group. induction group as [| [f |] rest IH]; intros h; cbn [upload_each].
  - events.
  - destruct (mf_buffer f) as [buffer |]; [| apply IH].
    events; [apply HP; reflexivity | apply IH].
  - apply IH.
Qed.

Lemma deletes_nothing_quiet (t : Trace) :
  deletes_nothing t -> file_deletions t = [] /\ article_deletions t = [].
Proof.
  induction 1 as [| e t He _ [IH1 IH2]]; [split; reflexivity |].
  destruct e as [c r | entry]; [| split; assumption].
  destruct c; try discriminate He; split; assumption.
Qed.

Lemma create_enrich_deletes_nothing (env : Env) (article : Article)
    (parsedTagIds : list jstring) (parsedTags : list JSValue) (files : Files) (h : Trace) :
  deletes_nothing (snd (create_enrich env article parsedTagIds parsedTags files h)).
Proof.
  unfold deletes_nothing, create_enrich, create_featured, upload_group, find_tag, create_tag.
  events; try reflexivity; apply upload_each_events; intros c r Hc;
    destruct c; try discriminate Hc; reflexivity.
Qed.

(** ** create: compensation *)

Lemma live_survives (t : Trace) (s : gset jstring) (id : jstring) :
  deletes_nothing t -> id ∈ s -> id ∈ fold_left live_step t s.
Proof.
  intros Hquiet. revert s.
  induction Hquiet as [| e t He _ IH]; intros s Hin; [exact Hin |].
  cbn [fold_left]. apply IH.
  destruct e as [c r | entry]; [| exact Hin].
  destruct c; try discriminate He; try exact Hin.
  destruct r as [e1 | a]; [exact Hin |].
  cbn [live_step]. apply elem_of_union. right. exact Hin.
Qed.

(** C1 (amended).  Whenever a create request has persisted its skeleton
    article and any later step throws, the controller calls the delete use
    case with the skeleton's id, once and right after the failure, and ends
    in a BadRequest.  The call is not guarded.  When it returns, the
    BadRequest wraps the message of the failure and no article with that id
    is retrievable afterwards; when it throws, the BadRequest wraps the
    error of the deletion instead and the skeleton stays retrievable. *)
Theorem create_failure_deletes_skeleton
    (env : Env) (dto : CreateArticleDto) (files : option Files) (u : User)
    (h : Trace) (parsedTags : list JSValue) (article : Article)
    (e : Thrown) (t : Trace) :
  role_in [AUTHOR; ADMIN; EDITOR] (user_role u) = true ->
  parse_tags (cdto_tags dto) = inr parsedTags ->
  let created := CreateArticleUsecase (skeleton_command dto u) u in
  respond env h created = inr article ->
  let h1 := h ++ [Called created (inr article)] in
  create_enrich env article (parse_tagIds (cdto_tagIds dto)) parsedTags
    (default default_files files) h1 = (inl e, t) ->
  let deletion := respond env (h1 ++ t) (DeleteArticleUsecase (art_id article)) in
  let run := create env dto files (Some u) h in
  (exists m, fst run = inl (BadRequest (str "Failed to create article: " ++ m))) /\
  (exists logs,
     snd run = Called created (inr article) :: t ++
               Called (DeleteArticleUsecase (art_id article)) deletion :: logs /\
     file_deletions logs = [] /\ article_deletions logs = [] /\
     update_commands logs = [] /\ uploads_started logs = []) /\
  article_deletions (snd run) = [(art_id article, deletion)] /\
  file_deletions (snd run) = [] /\
  (deletion = inr tt ->
   fst run = inl (BadRequest (str "Failed to create article: Failed to upload files: "
                                ++ error_message e)) /\
   ~ retrievable (h ++ snd run) (art_id article)) /\
  (forall e2,
     deletion = inl e2 ->
     fst run = inl (BadRequest (str "Failed to create article: " ++ error_message e2)) /\
     retrievable (h ++ snd run) (art_id article)).
Proof.
  intros Hrole Htags created Hcreated h1 Henrich deletion run.
  assert (Hrun : run =
    match deletion with
    | inr _ =>
        (inl (BadRequest (str "Failed to create article: " ++
                (str "Failed to upload files: " ++ error_message e))),
         Called created (inr article) :: t ++
         [Called (DeleteArticleUsecase (art_id article)) deletion;
          Logged (LogError (str "File upload error:") e);
          Logged (LogError (str "Article creation error:")
                    (BadRequest (str "Failed to upload files: " ++ error_message e)))])
    | inl e2 =>
        (inl (BadRequest (str "Failed to create article: " ++ error_message e2)),
         Called created (inr article) :: t ++
         [Called (DeleteArticleUsecase (art_id article)) deletion;
          Logged (LogError (str "Article creation error:") e2)])
    end).
  { subst run. unfold create, try_catch. rewrite Hrole. cbn [negb].
    unfold bind at 1. rewrite Htags. cbn [lift]. rewrite app_nil_r.
    unfold bind at 1, call at 1. fold created. rewrite Hcreated.
    fold h1. rewrite Henrich. unfold create_compensate.
    unfold bind at 1, call at 1. fold deletion.
    destruct deletion as [e2 | []]; cbn; rewrite <- ?app_assoc; reflexivity. }
  pose proof (create_enrich_deletes_nothing env article (parse_tagIds (cdto_tagIds dto))
                parsedTags (default default_files files) h1) as Hquiet.
  rewrite Henrich in Hquiet. cbn [snd] in Hquiet.
  destruct (deletes_nothing_quiet t Hquiet) as [Hfiles Harticles].
  rewrite Hrun. clear Hrun. split; [| split; [| split; [| split; [| split]]]].
  - destruct deletion as [e2 | []]; cbn [fst]; eexists; reflexivity.
  - destruct deletion as [e2 | []]; cbn [snd]; eexists; (split; [reflexivity |]);
      repeat split; reflexivity.
  - destruct deletion as [e2 | []]; cbn [snd article_deletions];
      rewrite article_deletions_app, Harticles; reflexivity.
  - destruct deletion as [e2 | []]; cbn [snd file_deletions];
      rewrite file_deletions_app, Hfiles; reflexivity.
  - intros Hdel. rewrite Hdel. cbn [fst snd]. split.
    + unfold BadRequest. rewrite app_assoc. reflexivity.
    + unfold retrievable.
      change (Called created (inr article) :: t ++ ?x)
        with ([Called created (inr article)] ++ t ++ x).
      rewrite !app_assoc, live_app. simpl.
      intros Hin. apply elem_of_difference in Hin as [_ Hn].
      apply Hn, elem_of_singleton. reflexivity.
  - intros e2 Hdel. rewrite Hdel. cbn [fst snd]. split; [reflexivity |].
    unfold retrievable.
    change (Called created (inr article) :: t ++ ?x)
      with ([Called created (inr article)] ++ t ++ x).
    rewrite !app_assoc, live_app. cbn [fold_left live_step].
    rewrite live_app. apply live_survives; [exact Hquiet |].
    rewrite live_app. cbn [fold_left live_step].
    apply elem_of_union. left. apply elem_of_singleton. reflexivity.
Qed.

(** The upload of the second of two images fails: the skeleton
    [article-1] is deleted and the request ends in a BadRequest. *)
Lemma create_failure_deletes_skeleton_witness :
  fst (create second_upload_fails sample_create_dto two_images (Some alice) []) =
    inl (BadRequest
           (str "Failed to create article: Failed to upload files: storage unavailable")) /\
  article_deletions
    (snd (create second_upload_fails sample_create_dto two_images (Some alice) [])) =
    [(str "article-1", inr tt)] /\
  ~ retrievable (snd (create second_upload_fails sample_create_dto two_images (Some alice) []))
      (str "article-1").
Proof.
  pose proof
    (create_failure_deletes_skeleton second_upload_fails sample_create_dto two_images
       alice [] [] (scripted_article (skeleton_command sample_create_dto alice))
       storage_outage
       (snd (create_enrich second_upload_fails
               (scripted_article (skeleton_command sample_create_dto alice)) [] []
               (default default_files two_images)
               [Called (CreateArticleUsecase (skeleton_command sample_create_dto alice) alice)
                  (inr (scripted_article (skeleton_command sample_create_dto alice)))]))
       eq_refl eq_refl eq_refl eq_refl) as H.
  cbv zeta in H. destruct H as (_ & _ & Hdeleted & _ & H & _).
  destruct (H eq_refl) as [Hfst Hlive].
  split; [exact Hfst |]. split; [exact Hdeleted | exact Hlive].
Defined.

(** C1 as stated fails: the upload of the second image is rejected after
    the skeleton [article-1] was persisted, and the deletion of the
    skeleton is rejected as well.  The one deletion the controller asked
    for did not take place, the BadRequest reports the failed deletion, and
    [article-1] is still retrievable. *)
Lemma create_failed_compensation_leaves_skeleton :
  let run := create compensation_fails sample_create_dto two_images (Some alice) [] in
  (exists later,
     snd run =
       Called (CreateArticleUsecase (skeleton_command sample_create_dto alice) alice)
         (inr (scripted_article (skeleton_command sample_create_dto alice))) :: later) /\
  art_id (scripted_article (skeleton_command sample_create_dto alice)) = str "article-1" /\
  List.map (fun started => snd (fst started)) (uploads_started (snd run)) =
    [str "D"; str "G"] /\
  List.map file_filename (uploaded_files (snd run)) = [str "D"] /\
  article_deletions (snd run) = [(str "article-1", inl database_outage)] /\
  fst run = inl (BadRequest (str "Failed to create article: database unavailable")) /\
  retrievable (snd run) (str "article-1").
Proof.
  cbv zeta. split; [eexists; vm_compute; reflexivity |].
  repeat split; vm_compute; reflexivity.
Qed.

(** ** create: what it deletes *)

(** [create] never asks for the deletion of a file, not even of the files
    it uploaded before a later step failed.  It asks for the deletion of an
    article at most once, only when the request fails, and then of the
    skeleton the create use case has just returned. *)
Theorem create_deletes_only_its_skeleton
    (env : Env) (h : Trace) (dto : CreateArticleDto) (files : option Files)
    (user : option User) :
  file_deletions (snd (create env dto files user h)) = [] /\
  match fst (create env dto files user h) with
  | inr _ => article_deletions (snd (create env dto files user h)) = []
  | inl _ =>
      article_deletions (snd (create env dto files user h)) = [] \/
      exists u article answer,
        user = Some u /\
        In (Called (CreateArticleUsecase (skeleton_command dto u) u) (inr article))
          (snd (create env dto files user h)) /\
        article_deletions (snd (create env dto files user h)) = [(art_id article, answer)]
  end.
Proof.
  destruct (create env dto files user h) as [o t] eqn:Hrun. cbn [fst snd]. revert Hrun.
  unfold create, try_catch.
  destruct user as [u |]; [| cbn; intros H; ran H; split; [| left]; reflexivity].
  destruct (negb (role_in [AUTHOR; ADMIN; EDITOR] (user_role u)));
    [cbn; intros H; ran H; split; [| left]; reflexivity |].
  unfold bind at 1.
  destruct (parse_tags (cdto_tags dto)) as [e | parsedTags];
    [cbn; intros H; ran H; split; [| left]; reflexivity |].
  cbn [lift]. unfold bind at 1, call at 1.
  destruct (respond env _ (CreateArticleUsecase (skeleton_command dto u) u))
    as [e | article] eqn:Hcreated;
    [cbn; intros H; ran H; split; [| left]; reflexivity |].
  unfold try_catch.
  match goal with
  | |- context [create_enrich env article ?ids parsedTags ?fs ?hh] =>
      pose proof (create_enrich_deletes_nothing env article ids parsedTags fs hh) as Hquiet;
      destruct (create_enrich env article ids parsedTags fs hh) as [[e | d] te]
  end; cbn [snd] in Hquiet; apply deletes_nothing_quiet in Hquiet as [Hf Ha].
  - unfold create_compensate. unfold bind at 1, call at 1.
    match goal with
    | |- context [respond env ?hh (DeleteArticleUsecase (art_id article))] =>
        destruct (respond env hh (DeleteArticleUsecase (art_id article))) as [e2 | []]
    end; cbn -[app]; intros H; ran H;
      cbn [file_deletions article_deletions]; autorewrite with trace; rewrite Hf, Ha;
      cbn [file_deletions article_deletions app];
      (split; [reflexivity |]); right; eexists u, article, _;
      (split; [reflexivity |]); (split; [left; reflexivity | reflexivity]).
  - cbn -[app]. intros H; ran H. cbn [file_deletions article_deletions app].
    rewrite ?app_nil_r, Hf, Ha. split; reflexivity.
Qed.

(** ** create: the tag lookups *)

Lemma tag_lookups_app (a b : Trace) : tag_lookups (a ++ b) = tag_lookups a ++ tag_lookups b.
Proof. by_events a. Qed.

Lemma tag_creations_app (a b : Trace) :
  tag_creations (a ++ b) = tag_creations a ++ tag_creations b.
Proof. by_events a. Qed.

#[local] Hint Rewrite tag_lookups_app tag_creations_app : trace.

Lemma no_lookup_quiet (t : Trace) :
  Forall (fun e => is_tag_lookup e = false) t -> tag_lookups t = [].
Proof.
  induction 1 as [| e t He _ IH]; [reflexivity |].
  destruct e as [c r | entry]; [| exact IH].
  destruct c; try discriminate He; exact IH.
Qed.

Lemma lookups_only_quiet (t : Trace) :
  Forall (fun e => is_tag_lookup e = true) t ->
  tag_creations t = [] /\ uploads_started t = [] /\ update_commands t = [] /\
  article_deletions t = [] /\ file_deletions t = [].
Proof.
  induction 1 as [| e t He _ IH]; [repeat split; reflexivity |].
  destruct e as [c r | entry]; [| discriminate He].
  destruct c; try discriminate He; exact IH.
Qed.

(** The lookups of [Promise.all(parsedTagIds.map(...))]: one for every id,
    in order; an id the repository does not know makes the whole reject. *)
Lemma find_tags_run (env : Env) (ids : list jstring) (h : Trace) :
  tag_lookups (snd (promise_all (find_tag env) ids h)) = ids /\
  Forall (fun e => is_tag_lookup e = true) (snd (promise_all (find_tag env) ids h)) /\
  (forall missing,
     In missing ids ->
     (forall h', respond env h' (TagRepository_findById missing) = inr None) ->
     exists e, fst (promise_all (find_tag env) ids h) = inl e).
Proof.
  unfold promise_all, bind.
  assert (H : exists os t,
            settle_all (find_tag env) ids h = (inr os, t) /\
            tag_lookups t = ids /\
            Forall (fun e => is_tag_lookup e = true) t /\
            (forall missing,
               In missing ids ->
               (forall h', respond env h' (TagRepository_findById missing) = inr None) ->
               exists e, first_rejection os = inl e)).
  { revert h. induction ids as [| id rest IH]; intros h.
    - exists [], []. repeat split; [constructor | intros missing []].
    - cbn [settle_all].
      assert (Hone : exists o,
                find_tag env id h =
                  (o, [Called (TagRepository_findById id)
                         (respond env h (TagRepository_findById id))]) /\
                (respond env h (TagRepository_findById id) = inr None -> exists e, o = inl e)).
      { unfold find_tag, bind, call.
        destruct (respond env h (TagRepository_findById id)) as [e | [tag |]];
          eexists; (split; [reflexivity |]); intros H; try discriminate H.
        eexists. reflexivity. }
      destruct Hone as (o & -> & Hnone).
      destruct (IH (h ++ [Called (TagRepository_findById id)
                            (respond env h (TagRepository_findById id))]))
        as (os & t & -> & Hl & Hev & Hmiss).
      exists (o :: os), (Called (TagRepository_findById id)
                           (respond env h (TagRepository_findById id)) :: t).
      split; [reflexivity |]. split; [cbn; rewrite Hl; reflexivity |].
      split; [constructor; [reflexivity | exact Hev] |].
      intros missing [<- | Hin] Hnull.
      + destruct (Hnone (Hnull h)) as [e ->]. exists e. reflexivity.
      + destruct (Hmiss missing Hin Hnull) as [e He].
        destruct o as [e' | tag]; [exists e'; reflexivity |].
        exists e. cbn. rewrite He. reflexivity. }
  destruct H as (os & t & -> & Hl & Hev & Hmiss).
  destruct (first_rejection os) as [e | tags] eqn:Hfirst; cbn; rewrite ?app_nil_r.
  - split; [exact Hl |]. split; [exact Hev |]. intros. eexists. reflexivity.
  - split; [exact Hl |]. split; [exact Hev |]. intros missing Hin Hnull.
    destruct (Hmiss missing Hin Hnull) as [e He]. discriminate He.
Qed.

(** What follows the tag lookups in [create_enrich] makes no lookup. *)
Lemma upload_each_no_lookup (env : Env) (group : list (option MulterFile)) (h : Trace) :
  Forall (fun e => is_tag_lookup e = false) (snd (upload_each env group h)).
Proof.
  apply upload_each_events. intros c r Hc. destruct c; try discriminate Hc; reflexivity.
Qed.

Lemma create_enrich_lookups (env : Env) (article : Article)
    (parsedTagIds : list jstring) (parsedTags : list JSValue) (files : Files) (h : Trace) :
  tag_lookups (snd (create_enrich env article parsedTagIds parsedTags files h)) = parsedTagIds.
Proof.
  unfold create_enrich. unfold bind at 1.
  assert (Hfirst : forall hh,
            tag_lookups
              (snd ((if negb (is_nil parsedTagIds)
                     then promise_all (find_tag env) parsedTagIds else ret []) hh)) =
            parsedTagIds).
  { intros hh. destruct parsedTagIds as [| id rest]; [reflexivity |].
    cbn [is_nil negb]. apply find_tags_run. }
  specialize (Hfirst h).
  destruct ((if negb (is_nil parsedTagIds)
             then promise_all (find_tag env) parsedTagIds else ret []) h)
    as [[e | existingTags] t1]; cbn [snd] in Hfirst; [exact Hfirst |].
  match goal with
  | |- context [let '(o2, t2) := ?k ?hh in _] =>
      assert (Hrest : Forall (fun e => is_tag_lookup e = false) (snd (k hh)));
      [| destruct (k hh) as [o2 t2]]
  end.
  { unfold create_featured, upload_group, create_tag.
    events; try reflexivity; apply upload_each_no_lookup. }
  cbn [snd] in *. rewrite tag_lookups_app, Hfirst, (no_lookup_quiet t2 Hrest), app_nil_r.
  reflexivity.
Qed.

(** Once the skeleton is persisted, [create] looks up every parsed tag id,
    once and in the order of the list, also the ids that follow one the
    repository does not know. *)
Theorem create_looks_up_every_parsed_id
    (env : Env) (h : Trace) (dto : CreateArticleDto) (files : option Files) (u : User)
    (parsedTags : list JSValue) (article : Article) :
  role_in [AUTHOR; ADMIN; EDITOR] (user_role u) = true ->
  parse_tags (cdto_tags dto) = inr parsedTags ->
  respond env h (CreateArticleUsecase (skeleton_command dto u) u) = inr article ->
  tag_lookups (snd (create env dto files (Some u) h)) = parse_tagIds (cdto_tagIds dto).
Proof.
  intros Hrole Htags Hcreated.
  unfold create, try_catch. rewrite Hrole. cbn [negb].
  unfold bind at 1. rewrite Htags. cbn [lift]. rewrite app_nil_r.
  unfold bind at 1, call at 1. rewrite Hcreated.
  match goal with
  | |- context [create_enrich env article ?ids parsedTags ?fs ?hh] =>
      pose proof (create_enrich_lookups env article ids parsedTags fs hh) as Hl;
      destruct (create_enrich env article ids parsedTags fs hh) as [[e | d] te]
  end; cbn [snd] in Hl.
  - unfold create_compensate. unfold bind at 1, call at 1.
    match goal with
    | |- context [respond env ?hh (DeleteArticleUsecase (art_id article))] =>
        destruct (respond env hh (DeleteArticleUsecase (art_id article))) as [e2 | []]
    end; cbn -[app]; cbn [tag_lookups]; autorewrite with trace; rewrite Hl;
      cbn [tag_lookups app]; rewrite ?app_nil_r; reflexivity.
  - cbn -[app]. cbn [tag_lookups]. rewrite ?app_nil_r. exact Hl.
Qed.

(** Alice creates an article with the ids [t1, t2] in a world that knows
    no tag: both are looked up. *)
Lemma create_looks_up_every_parsed_id_witness :
  tag_lookups (snd (create nothing_stored two_tag_ids_dto None (Some alice) [])) =
    [str "t1"; str "t2"].
Proof.
  rewrite (create_looks_up_every_parsed_id nothing_stored [] two_tag_ids_dto None alice []
             (scripted_article (skeleton_command two_tag_ids_dto alice))
             eq_refl eq_refl eq_refl).
  reflexivity.
Defined.

(** When one of the tag ids of a create request is unknown to the
    repository, the request fails before any tag is created, any file is
    uploaded or the article is updated: the skeleton is deleted and the
    request ends in a BadRequest. *)
Theorem create_unknown_tag_id_aborts_early
    (env : Env) (h : Trace) (dto : CreateArticleDto) (files : option Files) (u : User)
    (parsedTags : list JSValue) (article : Article) (missing : jstring) :
  role_in [AUTHOR; ADMIN; EDITOR] (user_role u) = true ->
  parse_tags (cdto_tags dto) = inr parsedTags ->
  respond env h (CreateArticleUsecase (skeleton_command dto u) u) = inr article ->
  In missing (parse_tagIds (cdto_tagIds dto)) ->
  (forall h', respond env h' (TagRepository_findById missing) = inr None) ->
  tag_creations (snd (create env dto files (Some u) h)) = [] /\
  uploads_started (snd (create env dto files (Some u) h)) = [] /\
  update_commands (snd (create env dto files (Some u) h)) = [] /\
  (exists answer,
     article_deletions (snd (create env dto files (Some u) h)) = [(art_id article, answer)]) /\
  (exists m,
     fst (create env dto files (Some u) h) =
       inl (BadRequest (str "Failed to create article: " ++ m))).
Proof.
  intros Hrole Htags Hcreated Hin Hnull.
  destruct (create env dto files (Some u) h) as [o t] eqn:Hrun. cbn [fst snd]. revert Hrun.
  unfold create, try_catch. rewrite Hrole. cbn [negb].
  unfold bind at 1. rewrite Htags. cbn [lift]. rewrite app_nil_r.
  unfold bind at 1, call at 1. rewrite Hcreated.
  unfold create_enrich at 1. unfold bind at 1.
  destruct (parse_tagIds (cdto_tagIds dto)) as [| id rest] eqn:Hids; [destruct Hin |].
  cbn [is_nil negb].
  match goal with
  | |- context [promise_all (find_tag env) (id :: rest) ?hh] =>
      destruct (find_tags_run env (id :: rest) hh) as (_ & Hev & Hmiss);
      destruct (Hmiss missing Hin Hnull) as [e He];
      destruct (promise_all (find_tag env) (id :: rest) hh) as [o1 t1]
  end.
  cbn [fst snd] in He, Hev. subst o1.
  destruct (lookups_only_quiet t1 Hev) as (Hc & Hu & Hup & Ha & Hf).
  unfold create_compensate. unfold bind at 1, call at 1.
  match goal with
  | |- context [respond env ?hh (DeleteArticleUsecase (art_id article))] =>
      destruct (respond env hh (DeleteArticleUsecase (art_id article))) as [e2 | []]
  end; cbn -[app]; intros H; ran H;
    cbn [tag_creations uploads_started update_commands article_deletions];
    autorewrite with trace; rewrite Hc, Hu, Hup, Ha;
    cbn [tag_creations uploads_started update_commands article_deletions app];
    repeat split; try reflexivity; eexists; reflexivity.
Qed.

Lemma create_unknown_tag_id_aborts_early_witness :
  uploads_started (snd (create nothing_stored two_tag_ids_dto two_images (Some alice) [])) = [] /\
  article_deletions (snd (create nothing_stored two_tag_ids_dto two_images (Some alice) [])) =
    [(str "article-1", inr tt)].
Proof.
  assert (Hin : In (str "t2") (parse_tagIds (cdto_tagIds two_tag_ids_dto)))
    by (right; left; reflexivity).
  destruct (create_unknown_tag_id_aborts_early nothing_stored [] two_tag_ids_dto two_images
              alice [] (scripted_article (skeleton_command two_tag_ids_dto alice)) (str "t2")
              eq_refl eq_refl eq_refl Hin (fun _ => eq_refl))
    as (_ & Hup & _ & _ & _).
  split; [exact Hup | vm_compute; reflexivity].
Defined.

(** ** create: the answer *)

Lemma bind_returns {A B} (m : M A) (k : A -> M B) (h : Trace) (b : B) (t : Trace) :
  bind m k h = (inr b, t) ->
  exists a t1 t2, m h = (inr a, t1) /\ k a (h ++ t1) = (inr b, t2) /\ t = t1 ++ t2.
Proof.
  unfold bind. destruct (m h) as [[e | a] t1].
  - intros H. unfold Outcome in H. discriminate H.
  - destruct (k a (h ++ t1)) as [o2 t2] eqn:Hk. intros H. injection H as -> <-.
    exists a, t1, t2. split; [reflexivity |]. split; [exact Hk | reflexivity].
Qed.

Lemma create_enrich_returns (env : Env) (article : Article) (parsedTagIds : list jstring)
    (parsedTags : list JSValue) (files : Files) (h : Trace) (d : DisplayArticleDto)
    (t : Trace) :
  create_enrich env article parsedTagIds parsedTags files h = (inr d, t) ->
  exists stored before,
    t = before ++ [Called (GetArticleByIdQuery (art_id article)) (inr (Some stored))] /\
    d = mapToDisplayDto stored.
Proof.
  unfold create_enrich. intros H.
  apply bind_returns in H as (existingTags & t1 & r1 & _ & H & ->).
  apply bind_returns in H as (newTags & t2 & r2 & _ & H & ->).
  apply bind_returns in H as (? & t3 & r3 & _ & H & ->).
  apply bind_returns in H as (? & t4 & r4 & _ & H & ->).
  apply bind_returns in H as (uploadedImages & t5 & r5 & _ & H & ->).
  apply bind_returns in H as (uploadedVideos & t6 & r6 & _ & H & ->).
  apply bind_returns in H as (? & t7 & r7 & _ & H & ->).
  apply bind_returns in H as (updated & t8 & r8 & Hget & H & ->).
  unfold call in Hget. injection Hget as Hget <-.
  destruct updated as [stored |]; cbn in H; [| unfold Outcome in H; discriminate H].
  injection H as <- <-.
  exists stored, (t1 ++ t2 ++ t3 ++ t4 ++ t5 ++ t6 ++ t7).
  rewrite Hget, app_nil_r, <- !app_assoc. split; reflexivity.
Qed.

(** When [create] succeeds, its first call persisted the skeleton, its
    last call read the article back, and the answer is that stored article
    (with the tags and media the use cases attached), not the skeleton;
    nothing was deleted in between. *)
Theorem create_success_returns_stored_article
    (env : Env) (h : Trace) (dto : CreateArticleDto) (files : option Files)
    (user : option User) (d : DisplayArticleDto) (t : Trace) :
  create env dto files user h = (inr d, t) ->
  exists u article stored between,
    user = Some u /\
    role_in [AUTHOR; ADMIN; EDITOR] (user_role u) = true /\
    t = Called (CreateArticleUsecase (skeleton_command dto u) u) (inr article) ::
        between ++ [Called (GetArticleByIdQuery (art_id article)) (inr (Some stored))] /\
    d = mapToDisplayDto stored /\
    deletes_nothing between.
Proof.
  unfold create, try_catch.
  destruct user as [u |]; [| cbn; intros H; unfold Outcome in H; discriminate H].
  destruct (role_in [AUTHOR; ADMIN; EDITOR] (user_role u)) eqn:Hrole;
    [| cbn; intros H; unfold Outcome in H; discriminate H].
  cbn [negb]. unfold bind at 1.
  destruct (parse_tags (cdto_tags dto)) as [e | parsedTags];
    [cbn; intros H; unfold Outcome in H; discriminate H |].
  cbn [lift]. unfold bind at 1, call at 1.
  destruct (respond env _ (CreateArticleUsecase (skeleton_command dto u) u))
    as [e | article] eqn:Hcreated;
    [cbn; intros H; unfold Outcome in H; discriminate H |].
  unfold try_catch.
  match goal with
  | |- context [create_enrich env article ?ids parsedTags ?fs ?hh] =>
      pose proof (create_enrich_deletes_nothing env article ids parsedTags fs hh) as Hquiet;
      destruct (create_enrich env article ids parsedTags fs hh) as [[e | d'] te] eqn:Henrich
  end; cbn [snd] in Hquiet.
  - unfold create_compensate. unfold bind at 1, call at 1.
    match goal with
    | |- context [respond env ?hh (DeleteArticleUsecase (art_id article))] =>
        destruct (respond env hh (DeleteArticleUsecase (art_id article))) as [e2 | []]
    end; cbn -[app]; intros H; unfold Outcome in H; discriminate H.
  - apply create_enrich_returns in Henrich as (stored & before & -> & ->).
    cbn -[app]. intros H. injection H as <- <-.
    exists u, article, stored, before. rewrite ?app_nil_r.
    apply Forall_app in Hquiet as [Hquiet _].
    split; [reflexivity |]. split; [exact Hrole |]. split; [reflexivity |].
    split; [reflexivity | exact Hquiet].
Qed.

(** Alice creates a plain article in a world that holds it afterwards. *)
Lemma create_success_returns_stored_article_witness :
  exists d t,
    create created_stored sample_create_dto None (Some alice) [] = (inr d, t) /\
    (exists stored, d = mapToDisplayDto stored) /\
    d_id d = str "article-1".
Proof.
  eexists _, _. split; [vm_compute; reflexivity |].
  destruct (create_success_returns_stored_article created_stored [] sample_create_dto None
              (Some alice) _ _ eq_refl) as (u & article & stored & between & _ & _ & _ & Hd & _).
  split; [exists stored; exact Hd | reflexivity].
Defined.

(** ** create: the tags it attaches *)

Lemma tags_found_app (a b : Trace) : tags_found (a ++ b) = tags_found a ++ tags_found b.
Proof.
  induction a as [| [c r | entry] a IH]; simpl; [reflexivity | | exact IH].
  destruct c; simpl; try exact IH. destruct r as [e | [tag |]]; simpl; rewrite ?IH; reflexivity.
Qed.

#[local] Hint Rewrite tags_found_app : trace.

Lemma leaves_tags_alone_quiet (t : Trace) :
  Forall (fun e => leaves_tags_alone e = true) t ->
  tags_found t = [] /\ tag_creations t = [] /\
  Forall (fun command => uc_tags command = None) (update_commands t).
Proof.
  induction 1 as [| e t He _ (IH1 & IH2 & IH3)]; [repeat split; constructor |].
  destruct e as [c r | entry]; [| repeat split; assumption].
  destruct c; try discriminate He; try (repeat split; assumption).
  cbn [leaves_tags_alone] in He. cbn [tags_found tag_creations update_commands].
  repeat split; try assumption. constructor; [| exact IH3].
  destruct (uc_tags command); [discriminate He | reflexivity].
Qed.

(** The lookups of [create], when all of them give a tag. *)
Lemma find_tag_returns (env : Env) (id : jstring) (h : Trace) (tag : ITag) (t : Trace) :
  find_tag env id h = (inr tag, t) -> tags_found t = [tag].
Proof.
  unfold find_tag, bind, call.
  destruct (respond env h (TagRepository_findById id)) as [e | [found |]]; cbn;
    intros H; unfold Outcome in H; try discriminate H.
  injection H as <- <-. reflexivity.
Qed.

Lemma find_tags_returns (env : Env) (ids : list jstring) (h : Trace)
    (tags : list ITag) (t : Trace) :
  promise_all (find_tag env) ids h = (inr tags, t) ->
  tags_found t = tags /\ length tags = length ids.
Proof.
  unfold promise_all. intros H.
  apply bind_returns in H as (os & t1 & t2 & Hsettle & Hfirst & ->).
  cbn in Hfirst. injection Hfirst as Hfirst <-. rewrite app_nil_r.
  revert h os t1 tags Hsettle Hfirst. induction ids as [| id rest IH]; intros h os t1 tags.
  - cbn. intros H. injection H as <- <-. cbn. intros H. injection H as <-. split; reflexivity.
  - cbn [settle_all].
    destruct (find_tag env id h) as [o ta] eqn:Hone.
    destruct (settle_all (find_tag env) rest (h ++ ta)) as [[e' | os'] tb] eqn:Hrest;
      intros H; unfold Outcome in H; [discriminate H |].
    injection H as <- <-. cbn [first_rejection].
    destruct o as [e | tag]; [intros H; discriminate H |].
    destruct (first_rejection os') as [e' | tags'] eqn:Hfirst; intros H; [discriminate H |].
    injection H as <-.
    destruct (IH _ os' tb tags' Hrest Hfirst) as [Hf Hl].
    rewrite tags_found_app, (find_tag_returns env id h tag ta Hone), Hf.
    cbn. rewrite Hl. split; reflexivity.
Qed.

(** The tags [create] makes from the inline specifications: one
    [tagRepository.create] each, with the name and the Arabic name of the
    specification. *)
Lemma create_tags_run (env : Env) (parsed : list JSValue) (h : Trace) :
  Forall (fun e => is_tag_creation e = true) (snd (promise_all (create_tag env) parsed h)) /\
  forall tags,
    fst (promise_all (create_tag env) parsed h) = inr tags ->
    tag_creations (snd (promise_all (create_tag env) parsed h)) = tags /\
    Forall2 (fun tagData tag =>
               get_member tagData "name" = inr (tag_name tag) /\
               get_member tagData "nameAr" = inr (tag_nameAr tag)) parsed tags.
Proof.
  unfold promise_all, bind.
  assert (H : exists os t,
            settle_all (create_tag env) parsed h = (inr os, t) /\
            Forall (fun e => is_tag_creation e = true) t /\
            forall tags,
              first_rejection os = inr tags ->
              tag_creations t = tags /\
              Forall2 (fun tagData tag =>
                         get_member tagData "name" = inr (tag_name tag) /\
                         get_member tagData "nameAr" = inr (tag_nameAr tag)) parsed tags).
  { revert h. induction parsed as [| tagData rest IH]; intros h.
    - exists [], []. split; [reflexivity |]. split; [constructor |].
      intros tags H. injection H as <-. split; [reflexivity | constructor].
    - cbn [settle_all].
      assert (Hone : exists o t1,
                create_tag env tagData h = (o, t1) /\
                Forall (fun e => is_tag_creation e = true) t1 /\
                forall tag, o = inr tag ->
                  tag_creations t1 = [tag] /\
                  get_member tagData "name" = inr (tag_name tag) /\
                  get_member tagData "nameAr" = inr (tag_nameAr tag)).
      { unfold create_tag, bind, now, fresh_uuid, lift, call, ret.
        destruct (get_member tagData "name") as [e | name];
          [eexists _, _; split; [reflexivity |]; split; [constructor |];
           intros tag H; discriminate H |].
        destruct (get_member tagData "nameAr") as [e | nameAr];
          [eexists _, _; split; [reflexivity |]; split; [constructor |];
           intros tag H; discriminate H |].
        match goal with
        | |- context [respond env ?hh (TagRepository_create ?tag)] =>
            destruct (respond env hh (TagRepository_create tag)) as [e | []]
        end; eexists _, _; (split; [reflexivity |]); (split; [repeat constructor |]);
          intros tag H; [discriminate H |].
        injection H as <-. repeat split; reflexivity. }
      destruct Hone as (o & t1 & -> & Hev1 & Hone).
      destruct (IH (h ++ t1)) as (os & t & -> & Hev & Hrest).
      exists (o :: os), (t1 ++ t). split; [reflexivity |].
      split; [apply Forall_app; split; assumption |].
      intros tags H. cbn [first_rejection] in H.
      destruct o as [e | tag]; [discriminate H |].
      destruct (first_rejection os) as [e | tags'] eqn:Hfirst; [discriminate H |].
      injection H as <-.
      destruct (Hone tag eq_refl) as (Hc1 & Hname & HnameAr).
      destruct (Hrest tags' eq_refl) as [Hc Hall].
      split; [rewrite tag_creations_app, Hc1, Hc; reflexivity |].
      constructor; [split; assumption | exact Hall]. }
  destruct H as (os & t & -> & Hev & Hrest).
  destruct (first_rejection os) as [e | tags] eqn:Hfirst; cbn; rewrite ?app_nil_r.
  - split; [exact Hev |]. intros tags H; discriminate H.
  - split; [exact Hev |]. intros tags' H. injection H as <-. apply Hrest. reflexivity.
Qed.

Lemma creations_only_quiet (t : Trace) :
  Forall (fun e => is_tag_creation e = true) t -> tags_found t = [] /\ update_commands t = [].
Proof.
  induction 1 as [| e t He _ [IH1 IH2]]; [split; reflexivity |].
  destruct e as [c r | entry]; [| discriminate He].
  destruct c; try discriminate He; split; assumption.
Qed.

Lemma lookups_make_no_tag (t : Trace) :
  Forall (fun e => is_tag_lookup e = true) t -> tag_creations t = [] /\ update_commands t = [].
Proof.
  intros H. destruct (lookups_only_quiet t H) as (H1 & _ & H2 & _). split; assumption.
Qed.

Lemma upload_each_leaves_tags_alone (env : Env) (group : list (option MulterFile)) (h : Trace) :
  Forall (fun e => leaves_tags_alone e = true) (snd (upload_each env group h)).
Proof.
  apply upload_each_events. intros c r Hc. destruct c; try discriminate Hc; reflexivity.
Qed.

Lemma create_enrich_tags (env : Env) (article : Article) (parsedTagIds : list jstring)
    (parsedTags : list JSValue) (files : Files) (h : Trace)
    (o : Outcome DisplayArticleDto) (te : Trace)
    (command : UpdateArticleCommand) (tags : list TagRef) :
  create_enrich env article parsedTagIds parsedTags files h = (o, te) ->
  In command (update_commands te) ->
  uc_tags command = Some tags ->
  tags = List.map TagEntity (tags_found te ++ tag_creations te) /\
  uc_id command = art_id article /\
  length (tags_found te) = length parsedTagIds /\
  Forall2 (fun tagData tag =>
             get_member tagData "name" = inr (tag_name tag) /\
             get_member tagData "nameAr" = inr (tag_nameAr tag))
    parsedTags (tag_creations te).
Proof.
  unfold create_enrich. unfold bind at 1.
  assert (Hfirst : forall hh o1 t1,
            (if negb (is_nil parsedTagIds)
             then promise_all (find_tag env) parsedTagIds else ret []) hh = (o1, t1) ->
            tag_creations t1 = [] /\ update_commands t1 = [] /\
            forall existingTags, o1 = inr existingTags ->
              tags_found t1 = existingTags /\ length existingTags = length parsedTagIds).
  { intros hh o1 t1. destruct parsedTagIds as [| id rest].
    - cbn. intros H. injection H as <- <-. repeat split; try reflexivity;
        injection H as <-; reflexivity.
    - cbn [is_nil negb]. intros H.
      destruct (find_tags_run env (id :: rest) hh) as (_ & Hev & _).
      rewrite H in Hev. cbn [snd] in Hev.
      destruct (lookups_make_no_tag t1 Hev) as [Hc Hu].
      split; [exact Hc |]. split; [exact Hu |].
      intros existingTags ->. exact (find_tags_returns env (id :: rest) hh existingTags t1 H). }
  destruct ((if negb (is_nil parsedTagIds)
             then promise_all (find_tag env) parsedTagIds else ret []) h)
    as [o1 t1] eqn:H1.
  destruct (Hfirst h o1 t1 H1) as (Hc1 & Hu1 & Hf1). clear Hfirst H1.
  destruct o1 as [e | existingTags]; [intros H; ran H; rewrite Hu1; intros [] |].
  destruct (Hf1 existingTags eq_refl) as [Hfound Hlen]. clear Hf1.
  unfold bind at 1.
  assert (Hsecond : forall hh o2 t2,
            (if negb (is_nil parsedTags)
             then promise_all (create_tag env) parsedTags else ret []) hh = (o2, t2) ->
            tags_found t2 = [] /\ update_commands t2 = [] /\
            forall newTags, o2 = inr newTags ->
              tag_creations t2 = newTags /\
              Forall2 (fun tagData tag =>
                         get_member tagData "name" = inr (tag_name tag) /\
                         get_member tagData "nameAr" = inr (tag_nameAr tag))
                parsedTags newTags).
  { intros hh o2 t2. destruct parsedTags as [| tagData rest].
    - cbn. intros H. injection H as <- <-. repeat split; try reflexivity;
        injection H as <-; constructor.
    - cbn [is_nil negb]. intros H.
      destruct (create_tags_run env (tagData :: rest) hh) as [Hev Htags].
      rewrite H in Hev, Htags. cbn [fst snd] in Hev, Htags.
      destruct (creations_only_quiet t2 Hev) as [Hf Hu].
      split; [exact Hf |]. split; [exact Hu |].
      intros newTags ->. apply Htags. reflexivity. }
  destruct ((if negb (is_nil parsedTags)
             then promise_all (create_tag env) parsedTags else ret []) (h ++ t1))
    as [o2 t2] eqn:H2.
  destruct (Hsecond (h ++ t1) o2 t2 H2) as (Hf2 & Hu2 & Hn2). clear Hsecond H2.
  destruct o2 as [e | newTags];
    [intros H; ran H; rewrite update_commands_app, Hu1, Hu2; intros [] |].
  destruct (Hn2 newTags eq_refl) as [Hcreated Hnames]. clear Hn2.
  unfold bind at 1.
  destruct (is_nil (existingTags ++ newTags)) eqn:Hnil; cbn [negb].
  - cbn [ret].
    match goal with
    | |- context [bind (create_featured env (art_id article) files) ?k ?hx] =>
        assert (Hrest : Forall (fun e => leaves_tags_alone e = true)
                          (snd (bind (create_featured env (art_id article) files) k hx)))
          by (unfold create_featured, upload_group; events; try reflexivity;
              apply upload_each_leaves_tags_alone);
        destruct (bind (create_featured env (art_id article) files) k hx) as [o4 t4]
    end.
    cbn [snd] in *.
    destruct (leaves_tags_alone_quiet t4 Hrest) as (_ & _ & Hnone).
    intros H; ran H.
    repeat (autorewrite with trace; cbn [app update_commands tags_found tag_creations]).
    rewrite Hu1, Hu2. cbn [app update_commands].
    intros Hin Htags. rewrite List.Forall_forall in Hnone.
    rewrite (Hnone command Hin) in Htags. discriminate Htags.
  - unfold bind at 1, call at 1.
    match goal with
    | |- context [respond env ?hh (UpdateArticleUsecase ?c)] =>
        set (tagged := c); destruct (respond env hh (UpdateArticleUsecase tagged)) as [e | []]
    end.
    + intros H; ran H.
      repeat (autorewrite with trace; cbn [app update_commands tags_found tag_creations]).
      rewrite Hu1, Hu2, Hc1, Hf2, Hfound, Hcreated.
      cbn [app update_commands tags_found tag_creations]. rewrite ?app_nil_r.
      intros [<- | []] Htags. cbn in Htags. injection Htags as <-.
      repeat split; [exact Hlen | exact Hnames].
    + cbn [ret].
      match goal with
      | |- context [bind (create_featured env (art_id article) files) ?k ?hx] =>
          assert (Hrest : Forall (fun e => leaves_tags_alone e = true)
                            (snd (bind (create_featured env (art_id article) files) k hx)))
            by (unfold create_featured, upload_group; events; try reflexivity;
                apply upload_each_leaves_tags_alone);
          destruct (bind (create_featured env (art_id article) files) k hx) as [o4 t4]
      end.
      cbn [snd] in *.
      destruct (leaves_tags_alone_quiet t4 Hrest) as (Hf4 & Hc4 & Hnone).
      intros H; ran H.
      repeat (autorewrite with trace; cbn [app update_commands tags_found tag_creations]).
      rewrite Hu1, Hu2, Hc1, Hf2, Hfound, Hcreated, Hf4, Hc4.
      cbn [app update_commands tags_found tag_creations]. rewrite ?app_nil_r.
      intros [<- | Hin] Htags.
      * cbn in Htags. injection Htags as <-. repeat split; [exact Hlen | exact Hnames].
      * rewrite List.Forall_forall in Hnone.
        rewrite (Hnone command Hin) in Htags. discriminate Htags.
Qed.

(** The tags [create] attaches to the new article: the tags the repository
    returned for the ids of [tagIds], in the order of the ids, followed by
    one newly created tag for every inline specification, in the order of
    the specifications, each with the name and the Arabic name of its
    specification.  No other command of [create] carries tags. *)
Theorem create_attaches_found_then_created_tags
    (env : Env) (h : Trace) (dto : CreateArticleDto) (files : option Files) (u : User)
    (parsedTags : list JSValue) (article : Article)
    (command : UpdateArticleCommand) (tags : list TagRef) :
  role_in [AUTHOR; ADMIN; EDITOR] (user_role u) = true ->
  parse_tags (cdto_tags dto) = inr parsedTags ->
  respond env h (CreateArticleUsecase (skeleton_command dto u) u) = inr article ->
  In command (update_commands (snd (create env dto files (Some u) h))) ->
  uc_tags command = Some tags ->
  tags = List.map TagEntity (tags_found (snd (create env dto files (Some u) h)) ++
                             tag_creations (snd (create env dto files (Some u) h))) /\
  uc_id command = art_id article /\
  length (tags_found (snd (create env dto files (Some u) h))) =
    length (parse_tagIds (cdto_tagIds dto)) /\
  Forall2 (fun tagData tag =>
             get_member tagData "name" = inr (tag_name tag) /\
             get_member tagData "nameAr" = inr (tag_nameAr tag))
    parsedTags (tag_creations (snd (create env dto files (Some u) h))).
Proof.
  intros Hrole Htags Hcreated.
  destruct (create env dto files (Some u) h) as [o t] eqn:Hrun. cbn [snd]. revert Hrun.
  unfold create, try_catch. rewrite Hrole. cbn [negb].
  unfold bind at 1. rewrite Htags. cbn [lift]. rewrite app_nil_r.
  unfold bind at 1, call at 1. rewrite Hcreated.
  match goal with
  | |- context [create_enrich env article ?ids parsedTags ?fs ?hh] =>
      pose proof (create_enrich_tags env article ids parsedTags fs hh) as Henrich;
      destruct (create_enrich env article ids parsedTags fs hh) as [[e | d] te]
  end; specialize (Henrich _ _ command tags eq_refl).
  - unfold create_compensate. unfold bind at 1, call at 1.
    match goal with
    | |- context [respond env ?hh (DeleteArticleUsecase (art_id article))] =>
        destruct (respond env hh (DeleteArticleUsecase (art_id article))) as [e2 | []]
    end; cbn -[app]; intros H; ran H;
      repeat (autorewrite with trace; cbn [app update_commands tags_found tag_creations]);
      rewrite ?app_nil_r; exact Henrich.
  - cbn -[app]. intros H; ran H.
    repeat (autorewrite with trace; cbn [app update_commands tags_found tag_creations]).
    rewrite ?app_nil_r. exact Henrich.
Qed.

(** Alice creates an article with the known tag T1 and an inline tag
    named [x]: the one command with tags holds T1, then the new tag. *)
Lemma create_attaches_found_then_created_tags_witness :
  exists command tags,
    In command (update_commands (snd (create one_tag_known tags_dto None (Some alice) []))) /\
    uc_tags command = Some tags /\
    tags = List.map TagEntity
             (tags_found (snd (create one_tag_known tags_dto None (Some alice) [])) ++
              tag_creations (snd (create one_tag_known tags_dto None (Some alice) []))) /\
    List.map tagref_name tags = [JString (str "T1"); JString (str "x")].
Proof.
  eexists _, _. split; [left; reflexivity |]. split; [reflexivity |].
  destruct (create_attaches_found_then_created_tags one_tag_known [] tags_dto None alice
              [named "x"] (scripted_article (skeleton_command tags_dto alice))
              _ _ eq_refl eq_refl eq_refl (or_introl eq_refl) eq_refl) as (Htags & _).
  split; [exact Htags | reflexivity].
Defined.

(** ** create: the media it records *)

Lemma bind_cases {A B} (m : M A) (k : A -> M B) (h : Trace) (o : Outcome B) (t : Trace) :
  bind m k h = (o, t) ->
  (exists e, m h = (inl e, t) /\ o = inl e) \/
  (exists a t1 t2, m h = (inr a, t1) /\ k a (h ++ t1) = (o, t2) /\ t = t1 ++ t2).
Proof.
  unfold bind. destruct (m h) as [[e | a] t1].
  - intros H. injection H as <- <-. left. exists e. split; reflexivity.
  - destruct (k a (h ++ t1)) as [o2 t2] eqn:Hk. intros H. injection H as <- <-.
    right. exists a, t1, t2. split; [reflexivity |]. split; [exact Hk | reflexivity].
Qed.

Lemma no_media_quiet (t : Trace) :
  Forall (fun e => no_media_update e = true) t ->
  Forall (fun command => uc_images command = None) (update_commands t).
Proof.
  induction 1 as [| e t He _ IH]; [constructor |].
  destruct e as [c r | entry]; [| exact IH].
  destruct c; try exact IH. cbn [no_media_update] in He. cbn [update_commands].
  constructor; [| exact IH]. destruct (uc_images command); [discriminate He | reflexivity].
Qed.

Lemma uploads_make_no_command (t : Trace) :
  Forall (fun e => is_upload e = true) t -> update_commands t = [].
Proof.
  intros H. exact (proj1 (storage_only_quiet t (uploads_only_storage t H))).
Qed.

Lemma upload_each_uploads_only (env : Env) (group : list (option MulterFile)) (h : Trace) :
  Forall (fun e => is_upload e = true) (snd (upload_each env group h)).
Proof. apply upload_each_events. intros c r Hc. exact Hc. Qed.

(** The records the upload loop of [create] returns: one for every file
    with a buffer, in order. *)
Lemma upload_each_returns (env : Env) (group : list (option MulterFile)) (h : Trace)
    (records : list IFile) (t : Trace) :
  upload_each env group h = (inr records, t) ->
  Forall2 named_after (present group) records /\
  Forall2 stored_as (uploaded_files t) records.
Proof.
  revert h records t. induction group as [| [f |] rest IH]; intros h records t.
  - cbn. intros H. injection H as <- <-. split; constructor.
  - cbn [upload_each present]. destruct (mf_buffer f) as [buffer |]; [| apply IH].
    intros H.
    apply bind_returns in H as (uploaded & t1 & r1 & Hup & H & ->).
    unfold call in Hup. injection Hup as Hup <-.
    apply bind_returns in H as (date & t2 & r2 & Hnow & H & ->).
    unfold now in Hnow. injection Hnow as <- <-.
    apply bind_returns in H as (others & t3 & r3 & Hrest & H & ->).
    cbn in H. injection H as <- <-.
    destruct (IH _ _ _ Hrest) as [Hnames Hids].
    rewrite Hup, app_nil_r. cbn [app uploaded_files].
    split; constructor; try assumption; repeat split; reflexivity.
  - cbn [upload_each present]. apply IH.
Qed.

Lemma upload_group_returns (env : Env) (group : option (list (option MulterFile)))
    (h : Trace) (o : Outcome (list IFile)) (t : Trace) :
  upload_group env group h = (o, t) ->
  update_commands t = [] /\
  forall records, o = inr records ->
    Forall2 named_after (uploadable group) records /\
    Forall2 stored_as (uploaded_files t) records.
Proof.
  unfold upload_group, uploadable. destruct group as [files |].
  - intros H. pose proof (upload_each_uploads_only env files h) as Hev.
    rewrite H in Hev. cbn [snd] in Hev.
    split; [exact (uploads_make_no_command t Hev) |].
    intros records ->. exact (upload_each_returns env files h records t H).
  - cbn. intros H. injection H as <- <-. split; [reflexivity |].
    intros records H. injection H as <-. split; constructor.
Qed.

(** The trace of a step, with what [events] can tell of it. *)
Ltac known_events P H Hp :=
  match type of H with
  | ?m ?hh = (_, _) =>
      assert (Hp : Forall P (snd (m hh)))
        by (unfold create_featured, find_tag, create_tag; events; reflexivity);
      rewrite H in Hp; cbn [snd] in Hp
  end.

Lemma create_enrich_media (env : Env) (article : Article) (parsedTagIds : list jstring)
    (parsedTags : list JSValue) (files : Files) (h : Trace)
    (o : Outcome DisplayArticleDto) (te : Trace)
    (command : UpdateArticleCommand) (images : list IFile) :
  create_enrich env article parsedTagIds parsedTags files h = (o, te) ->
  In command (update_commands te) ->
  uc_images command = Some images ->
  exists videos before uploadedImages uploadedVideos,
    uc_videos command = Some videos /\
    uc_id command = art_id article /\
    Forall2 named_after (uploadable (files_images files)) images /\
    Forall2 named_after (uploadable (files_videos files)) videos /\
    uploaded_files te = before ++ uploadedImages ++ uploadedVideos /\
    Forall2 stored_as uploadedImages images /\
    Forall2 stored_as uploadedVideos videos.
Proof.
  unfold create_enrich. intros Hrun Hin Himages.
  assert (Hnone : forall t, Forall (fun e => no_media_update e = true) t ->
                  In command (update_commands t) -> False).
  { intros t Ht Hc. apply no_media_quiet in Ht. rewrite List.Forall_forall in Ht.
    rewrite (Ht command Hc) in Himages. discriminate Himages. }
  apply bind_cases in Hrun as [(e & H1 & ->) | (existingTags & t1 & r1 & H1 & Hrun & ->)];
    known_events (fun e => no_media_update e = true) H1 Hp1;
    [exfalso; exact (Hnone _ Hp1 Hin) |].
  apply bind_cases in Hrun as [(e & H2 & ->) | (newTags & t2 & r2 & H2 & Hrun & ->)];
    known_events (fun e => no_media_update e = true) H2 Hp2;
    [exfalso; apply (Hnone (t1 ++ r1)); [apply Forall_app; split; assumption | exact Hin] |].
  apply bind_cases in Hrun as [(e & H3 & ->) | ([] & t3 & r3 & H3 & Hrun & ->)];
    known_events (fun e => no_media_update e = true) H3 Hp3;
    [exfalso; apply (Hnone (t1 ++ t2 ++ r2));
     [repeat (apply Forall_app; split; try assumption) | exact Hin] |].
  apply bind_cases in Hrun as [(e & H4 & ->) | ([] & t4 & r4 & H4 & Hrun & ->)];
    known_events (fun e => no_media_update e = true) H4 Hp4;
    [exfalso; apply (Hnone (t1 ++ t2 ++ t3 ++ r3));
     [repeat (apply Forall_app; split; try assumption) | exact Hin] |].
  assert (Hbefore : Forall (fun command => uc_images command = None)
                      (update_commands (t1 ++ t2 ++ t3 ++ t4))).
  { apply no_media_quiet. repeat (apply Forall_app; split; try assumption). }
  rewrite !app_assoc in Hin. rewrite !app_assoc in Hbefore.
  set (before := ((t1 ++ t2) ++ t3) ++ t4) in *.
  rewrite update_commands_app in Hin. apply in_app_or in Hin as [Hin | Hin].
  { exfalso. rewrite List.Forall_forall in Hbefore.
    rewrite (Hbefore command Hin) in Himages. discriminate Himages. }
  apply bind_cases in Hrun as [(e & H5 & ->) | (uploadedImages & t5 & r5 & H5 & Hrun & ->)];
    apply upload_group_returns in H5 as [Hc5 Hr5];
    [rewrite Hc5 in Hin; destruct Hin |].
  destruct (Hr5 uploadedImages eq_refl) as [Hn5 Hs5]. clear Hr5.
  rewrite update_commands_app, Hc5 in Hin. cbn [app] in Hin.
  apply bind_cases in Hrun as [(e & H6 & ->) | (uploadedVideos & t6 & r6 & H6 & Hrun & ->)];
    apply upload_group_returns in H6 as [Hc6 Hr6];
    [rewrite Hc6 in Hin; destruct Hin |].
  destruct (Hr6 uploadedVideos eq_refl) as [Hn6 Hs6]. clear Hr6.
  rewrite update_commands_app, Hc6 in Hin. cbn [app] in Hin.
  assert (Hlast : forall hh o8 t8,
            (updatedArticle <- call env (GetArticleByIdQuery (art_id article)) ;;
             lift (mapToDisplayDto_of updatedArticle)) hh = (o8, t8) ->
            update_commands t8 = [] /\ uploaded_files t8 = []).
  { intros hh o8 t8. unfold bind, call, lift.
    destruct (respond env hh (GetArticleByIdQuery (art_id article))) as [e | updated];
      cbn; intros H; injection H as <- <-; split; reflexivity. }
  destruct (negb (is_nil uploadedImages) || negb (is_nil uploadedVideos)).
  - apply bind_cases in Hrun as [(e & H7 & ->) | ([] & t7 & r7 & H7 & Hrun & ->)];
      unfold bind, call in H7;
      match type of H7 with
      | context [respond env ?hh (UpdateArticleUsecase ?c)] =>
          destruct (respond env hh (UpdateArticleUsecase c)) as [e' | []]
      end; cbn in H7; unfold Outcome in H7; try discriminate H7.
    + injection H7 as _ <-.
      cbn [update_commands] in Hin. destruct Hin as [<- | []].
      cbn in Himages. injection Himages as <-.
      exists uploadedVideos, (uploaded_files (t1 ++ t2 ++ t3 ++ t4)), (uploaded_files t5),
        (uploaded_files t6).
      repeat split; try assumption.
      autorewrite with trace. cbn [uploaded_files]. rewrite ?app_nil_r, <- ?app_assoc.
      reflexivity.
    + injection H7 as <-.
      destruct (Hlast _ _ _ Hrun) as [Hc8 Hu8].
      rewrite update_commands_app, Hc8 in Hin. cbn [update_commands app] in Hin.
      destruct Hin as [<- | []].
      cbn in Himages. injection Himages as <-.
      exists uploadedVideos, (uploaded_files (t1 ++ t2 ++ t3 ++ t4)), (uploaded_files t5),
        (uploaded_files t6).
      repeat split; try assumption.
      autorewrite with trace. rewrite Hu8. cbn [uploaded_files].
      rewrite ?app_nil_r, <- ?app_assoc. reflexivity.
  - apply bind_cases in Hrun as [(e & H7 & ->) | ([] & t7 & r7 & H7 & Hrun & ->)];
      cbn in H7; unfold Outcome in H7; try discriminate H7.
    injection H7 as <-.
    destruct (Hlast _ _ _ Hrun) as [Hc8 _]. cbn [app] in Hin. rewrite Hc8 in Hin.
    destruct Hin.
Qed.

(** The images and videos [create] attaches to the new article: one
    record for every request file that has a buffer, in the order of the
    request, with the file's name, type and size and with the id, the url
    and the path (or the empty path) the uploader returned for it.  They go
    to the update use case in one command, after all uploads. *)
Theorem create_records_uploaded_media
    (env : Env) (h : Trace) (dto : CreateArticleDto) (files : option Files) (u : User)
    (parsedTags : list JSValue) (article : Article)
    (command : UpdateArticleCommand) (images : list IFile) :
  role_in [AUTHOR; ADMIN; EDITOR] (user_role u) = true ->
  parse_tags (cdto_tags dto) = inr parsedTags ->
  respond env h (CreateArticleUsecase (skeleton_command dto u) u) = inr article ->
  In command (update_commands (snd (create env dto files (Some u) h))) ->
  uc_images command = Some images ->
  exists videos before uploadedImages uploadedVideos,
    uc_videos command = Some videos /\
    uc_id command = art_id article /\
    Forall2 named_after (uploadable (files_images (default default_files files))) images /\
    Forall2 named_after (uploadable (files_videos (default default_files files))) videos /\
    uploaded_files (snd (create env dto files (Some u) h)) =
      before ++ uploadedImages ++ uploadedVideos /\
    Forall2 stored_as uploadedImages images /\
    Forall2 stored_as uploadedVideos videos.
Proof.
  intros Hrole Htags Hcreated.
  destruct (create env dto files (Some u) h) as [o t] eqn:Hrun. cbn [snd]. revert Hrun.
  unfold create, try_catch. rewrite Hrole. cbn [negb].
  unfold bind at 1. rewrite Htags. cbn [lift]. rewrite app_nil_r.
  unfold bind at 1, call at 1. rewrite Hcreated.
  match goal with
  | |- context [create_enrich env article ?ids parsedTags ?fs ?hh] =>
      pose proof (create_enrich_media env article ids parsedTags fs hh) as Henrich;
      destruct (create_enrich env article ids parsedTags fs hh) as [[e | d] te]
  end; specialize (Henrich _ _ command images eq_refl).
  - unfold create_compensate. unfold bind at 1, call at 1.
    match goal with
    | |- context [respond env ?hh (DeleteArticleUsecase (art_id article))] =>
        destruct (respond env hh (DeleteArticleUsecase (art_id article))) as [e2 | []]
    end; cbn -[app]; intros H; ran H;
      repeat (autorewrite with trace; cbn [app update_commands uploaded_files]);
      rewrite ?app_nil_r; exact Henrich.
  - cbn -[app]. intros H; ran H.
    repeat (autorewrite with trace; cbn [app update_commands uploaded_files]).
    rewrite ?app_nil_r. exact Henrich.
Qed.

(** Alice creates an article with the images D and G: the command holds
    two records, named D and G. *)
Lemma create_records_uploaded_media_witness :
  exists command images,
    In command
      (update_commands (snd (create created_stored sample_create_dto two_images
                               (Some alice) []))) /\
    uc_images command = Some images /\
    Forall2 named_after
      [request_file "D" (Some some_bytes); request_file "G" (Some some_bytes)] images.
Proof.
  eexists _, _. split; [left; reflexivity |]. split; [reflexivity |].
  destruct (create_records_uploaded_media created_stored [] sample_create_dto two_images alice
              [] (scripted_article (skeleton_command sample_create_dto alice))
              _ _ eq_refl eq_refl eq_refl (or_introl eq_refl) eq_refl)
    as (videos & before & uploadedImages & uploadedVideos & _ & _ & Hnames & _).
  exact Hnames.
Defined.

(** ** update: what it deletes *)

Lemma uploads_only_quiet (t : Trace) :
  Forall (fun e => is_upload e = true) t -> file_deletions t = [] /\ article_deletions t = [].
Proof.
  induction 1 as [| e t He _ [IH1 IH2]]; [split; reflexivity |].
  destruct e as [c r | entry]; [| discriminate He].
  destruct c; try discriminate He; split; assumption.
Qed.

Lemma upload_all_uploads_only (env : Env) (files : option Files)
    (group : Files -> option (list (option MulterFile))) (h : Trace) :
  Forall (fun e => is_upload e = true) (snd (upload_all env files group h)).
Proof.
  unfold upload_all.
  destruct files as [fs |]; [destruct (group fs) as [g |] |]; try constructor.
  unfold bind. destruct (start_uploads env g h) as [o t] eqn:Hs.
  destruct (start_uploads_run env g h o t Hs) as [Hup _].
  destruct o as [e | os]; cbn; rewrite ?app_nil_r; exact Hup.
Qed.

Lemma check_owner_any_history (u : User) (existing : option Article) (h h' : Trace) :
  check_owner u existing h' = check_owner u existing h.
Proof.
  unfold check_owner. destruct (role_eqb (user_role u) AUTHOR); [| reflexivity].
  destruct existing as [a |]; [| reflexivity].
  destruct (negb (jstring_eqb (art_authorId a) (user_id u))); reflexivity.
Qed.

(** The three ways [update_featured] can go. *)
Lemma update_featured_cases (env : Env) (files : option Files) (existing : Article)
    (h : Trace) (o : Outcome (option IFile)) (t : Trace) :
  update_featured env files existing h = (o, t) ->
  (requested_featured files = None /\ o = inr None /\ t = []) \/
  (exists e, requested_featured files <> None /\ o = inl e /\
             file_deletions t = [] /\ article_deletions t = [] /\ uploaded_files t = []) \/
  (exists f, requested_featured files <> None /\ o = inr (Some f) /\
             article_deletions t = [] /\ uploaded_files t = [f] /\
             List.map fst (file_deletions t) =
               match art_featuredMedia existing with
               | Some old => [JString (file_id old)]
               | None => []
               end).
Proof.
  unfold update_featured, requested_featured.
  destruct files as [fs |];
    [destruct (files_featuredMedia fs) as [[| [file |] rest] |] |];
    try (intros H; ran H; left; repeat split; reflexivity).
  unfold bind at 1, call at 1.
  destruct (respond env h _) as [e | f].
  - intros H. ran H. right. left. exists e. repeat split; try reflexivity. discriminate.
  - right. right. exists f. revert H.
    destruct (art_featuredMedia existing) as [old |].
    + unfold bind, try_catch, call, console_error, ret.
      destruct (respond env _ (FileService_deleteFile _)) as [e | []];
        cbn; intros H; ran H; repeat split; try reflexivity; discriminate.
    + cbn. intros H; ran H. repeat split; try reflexivity; discriminate.
Qed.

(** Rewrites with what is known of the segments of a trace. *)
Ltac segments :=
  cbn [file_deletions article_deletions uploaded_files app];
  autorewrite with trace; rewrite ?List.map_app;
  repeat match goal with
    | Hx : file_deletions ?t = _ |- context [file_deletions ?t] => rewrite Hx
    | Hx : List.map fst (file_deletions ?t) = _ |- context [file_deletions ?t] => rewrite Hx
    | Hx : article_deletions ?t = _ |- context [article_deletions ?t] => rewrite Hx
    | Hx : uploaded_files ?t = _ |- context [uploaded_files ?t] => rewrite Hx
    | Hx : requested_featured ?f = None |- context [requested_featured ?f] => rewrite Hx
    end;
  cbn [List.map app file_deletions article_deletions uploaded_files]; rewrite ?app_nil_r.

Lemma update_body_deletions (env : Env) (h : Trace) (id : jstring)
    (dto : UpdateArticleDto) (files : option Files) (u : User)
    (existing : Article) (o : Outcome DisplayArticleDto) (tb : Trace) :
  respond env h (GetArticleByIdQuery id) = inr (Some existing) ->
  fst (check_owner u (Some existing) h) = inr tt ->
  update_body env id dto files (Some u) h = (o, tb) ->
  List.map fst (file_deletions tb) =
    parseArrayField (udto_removedImages dto) ++ parseArrayField (udto_removedVideos dto) ++
    match requested_featured files, art_featuredMedia existing, uploaded_files tb with
    | Some _, Some old, _ :: _ => [JString (file_id old)]
    | _, _, _ => []
    end /\
  article_deletions tb = [].
Proof.
  intros Hget Howner. unfold update_body.
  unfold bind at 1, call at 1. rewrite Hget.
  unfold bind at 1.
  pose proof (check_owner_run u (Some existing)
                (h ++ [Called (GetArticleByIdQuery id) (inr (Some existing))])) as Hc.
  rewrite (check_owner_any_history u (Some existing) h) in Hc |- *.
  destruct (check_owner u (Some existing) h) as [oc tc]. cbn [fst snd] in Howner, Hc.
  subst oc tc.
  unfold bind at 1.
  destruct (delete_removed env _ _ _) as [od td] eqn:Hd.
  apply delete_removed_run in Hd as (-> & Hids & Hdel).
  destruct (deletions_only_no_upload td Hdel) as [Hdu _].
  destruct (storage_only_quiet td (deletions_only_storage td Hdel)) as [_ Hda].
  clear Hdel. unfold bind at 1.
  destruct (update_featured env files existing _) as [ofm tf] eqn:Hf.
  assert (Hend : forall X Y : list JSValue,
            X = Y ->
            X = Y ++ match requested_featured files, art_featuredMedia existing,
                           @nil IFile with
                     | Some _, Some old, _ :: _ => [JString (file_id old)]
                     | _, _, _ => []
                     end).
  { intros X Y ->. destruct (requested_featured files), (art_featuredMedia existing);
      rewrite app_nil_r; reflexivity. }
  apply update_featured_cases in Hf
    as [(Hreq & -> & ->) | [(e & Hreq & -> & Hff & Hfa & Hfu) | (f & Hreq & -> & Hfa & Hfu & Hff)]];
    [ | intros H; ran H; segments; split; [| reflexivity];
        rewrite app_assoc; apply Hend; reflexivity | ];
    (unfold bind at 1;
     pose proof (upload_all_uploads_only env files files_images) as Hi;
     match goal with
     | |- context [upload_all env files files_images ?hh] =>
         specialize (Hi hh); destruct (upload_all env files files_images hh) as [oi ti]
     end; cbn [snd] in Hi; destruct (uploads_only_quiet ti Hi) as [Hif Hia]; clear Hi;
     destruct oi as [e | upI];
     [intros H; ran H; segments; split; [| reflexivity];
      destruct (requested_featured files); try contradiction;
      destruct (art_featuredMedia existing); rewrite <- ?app_assoc, ?app_nil_r; reflexivity |];
     unfold bind at 1;
     pose proof (upload_all_uploads_only env files files_videos) as Hv;
     match goal with
     | |- context [upload_all env files files_videos ?hh] =>
         specialize (Hv hh); destruct (upload_all env files files_videos hh) as [ov tv]
     end; cbn [snd] in Hv; destruct (uploads_only_quiet tv Hv) as [Hvf Hva]; clear Hv;
     destruct ov as [e | upV];
     [intros H; ran H; segments; split; [| reflexivity];
      destruct (requested_featured files); try contradiction;
      destruct (art_featuredMedia existing); rewrite <- ?app_assoc, ?app_nil_r; reflexivity |];
     unfold bind at 1, call at 1;
     destruct (respond env _ (UpdateArticleUsecase _)) as [e | []];
     [| unfold bind, call, lift;
        match goal with
        | |- context [respond env ?hh (GetArticleByIdQuery id)] =>
            destruct (respond env hh (GetArticleByIdQuery id)) as [e | refreshed]
        end ];
     cbn -[update_command app]; intros H; ran H; segments;
     (split; [| reflexivity]);
     destruct (requested_featured files); try contradiction;
     destruct (art_featuredMedia existing); rewrite <- ?app_assoc, ?app_nil_r; reflexivity).
Qed.

(** An update request that passes the ownership check asks for the
    deletion of the ids of its two removal lists, images first, and then,
    only if a new featured media was uploaded and the article had one, of
    the old featured media; it deletes no other file and no article. *)
Theorem update_deletes_listed_and_replaced_files
    (env : Env) (h : Trace) (id : jstring) (dto : UpdateArticleDto)
    (files : option Files) (u : User) (existing : Article) :
  respond env h (GetArticleByIdQuery id) = inr (Some existing) ->
  fst (check_owner u (Some existing) h) = inr tt ->
  List.map fst (file_deletions (snd (update env id dto files (Some u) h))) =
    parseArrayField (udto_removedImages dto) ++ parseArrayField (udto_removedVideos dto) ++
    match requested_featured files, art_featuredMedia existing,
          uploaded_files (snd (update env id dto files (Some u) h)) with
    | Some _, Some old, _ :: _ => [JString (file_id old)]
    | _, _, _ => []
    end /\
  article_deletions (snd (update env id dto files (Some u) h)) = [].
Proof.
  intros Hget Howner.
  destruct (update_run env h id dto files (Some u)) as (logs & -> & Hlogs).
  destruct (logs_quiet logs Hlogs) as (_ & Hlu & _ & Hla & Hlf).
  autorewrite with trace. rewrite Hlu, Hla, Hlf, !app_nil_r.
  destruct (update_body env id dto files (Some u) h) as [o tb] eqn:Hbody. cbn [snd].
  exact (update_body_deletions env h id dto files u existing o tb Hget Howner Hbody).
Qed.

(** Alice replaces the featured media F of her draft: F is the one file
    deleted.  With no new featured media and no removal list, no file is. *)
Lemma update_deletes_listed_and_replaced_files_witness :
  List.map fst
    (file_deletions (snd (update alice_draft_stored (str "a1") empty_update_dto new_featured
                            (Some alice) []))) = [JString (str "F")] /\
  file_deletions (snd (update alice_draft_stored (str "a1") empty_update_dto None
                         (Some alice) [])) = [].
Proof.
  destruct (update_deletes_listed_and_replaced_files alice_draft_stored [] (str "a1")
              empty_update_dto new_featured alice (sample_article DRAFT) eq_refl eq_refl)
    as [Hreplaced _].
  destruct (update_deletes_listed_and_replaced_files alice_draft_stored [] (str "a1")
              empty_update_dto None alice (sample_article DRAFT) eq_refl eq_refl)
    as [Hnone _].
  split.
  - rewrite Hreplaced. reflexivity.
  - apply map_eq_nil with (f := fst). rewrite Hnone. reflexivity.
Defined.

(** ** update: the merged tags *)

Lemma includes_string_In (l : list JSValue) (s : jstring) :
  includes_string l s = true <-> In (JString s) l.
Proof.
  unfold includes_string. rewrite existsb_exists. split.
  - intros (v & Hin & Heq). destruct v; try discriminate Heq.
    unfold strict_eq_string, jstring_eqb in Heq. apply bool_decide_eq_true_1 in Heq.
    subst. exact Hin.
  - intros Hin. exists (JString s). split; [exact Hin |].
    unfold strict_eq_string, jstring_eqb. apply bool_decide_eq_true_2. reflexivity.
Qed.

Lemma already_tagged_In (existingTags : list ITag) (tagId : JSValue) :
  existsb (fun existingTag => strict_eq_string tagId (tag_id existingTag)) existingTags = true <->
  In tagId (List.map (fun tag => JString (tag_id tag)) existingTags).
Proof.
  rewrite existsb_exists, in_map_iff. split.
  - intros (tag & Hin & Heq). exists tag. split; [| exact Hin].
    destruct tagId; try discriminate Heq.
    unfold strict_eq_string, jstring_eqb in Heq. apply bool_decide_eq_true_1 in Heq.
    subst. reflexivity.
  - intros (tag & <- & Hin). exists tag. split; [exact Hin |].
    unfold strict_eq_string, jstring_eqb. apply bool_decide_eq_true_2. reflexivity.
Qed.

(** The tags of the command an update gives to its use case: the
    article's tags that are not listed in [removedTags], in their order,
    followed by a bare [{ id }] for every id of [tags] that the article
    does not carry yet.  A tag of the article that is listed for removal is
    not in the command even when [tags] lists it too, and no id occurs
    twice when neither the article's tags nor [tags] repeat one. *)
Theorem update_merges_tags
    (env : Env) (h : Trace) (id : jstring) (dto : UpdateArticleDto)
    (files : option Files) (user : option User) (existing : Article)
    (command : UpdateArticleCommand) :
  respond env h (GetArticleByIdQuery id) = inr (Some existing) ->
  In command (update_commands (snd (update env id dto files user h))) ->
  let existingTags := default [] (art_tags existing) in
  let removed := parseArrayField (udto_removedTags dto) in
  let incoming := parseArrayField (udto_tags dto) in
  exists kept added,
    uc_tags command = Some (List.map TagEntity kept ++ List.map TagPlaceholder added) /\
    kept = List.filter (fun tag => negb (includes_string removed (tag_id tag))) existingTags /\
    (forall tagId,
       In tagId added <->
       In tagId incoming /\
       ~ In tagId (List.map (fun tag => JString (tag_id tag)) existingTags)) /\
    (forall tag,
       In tag existingTags -> In (JString (tag_id tag)) removed ->
       ~ In (JString (tag_id tag))
           (List.map tagref_id (List.map TagEntity kept ++ List.map TagPlaceholder added))) /\
    (List.NoDup (List.map tag_id existingTags) -> List.NoDup incoming ->
     List.NoDup (List.map tagref_id (List.map TagEntity kept ++ List.map TagPlaceholder added))) /\
    uc_tagsToRemove command = Some removed.
Proof.
  intros Hget Hin existingTags removed incoming.
  destruct (update_run env h id dto files user) as (logs & Hsnd & Hlogs).
  rewrite Hsnd in Hin. clear Hsnd.
  destruct (logs_quiet logs Hlogs) as (Hlc & _).
  rewrite update_commands_app, Hlc, app_nil_r in Hin.
  destruct (update_body env id dto files user h) as [o tb] eqn:Hbody. cbn [snd] in Hin.
  destruct (update_body_commands env h id dto files user existing o tb Hget Hbody)
    as [Hnone | (fm & upI & upV & Hcmds & _)].
  { rewrite Hnone in Hin. destruct Hin. }
  rewrite Hcmds in Hin. destruct Hin as [<- | []].
  set (kept := List.filter (fun tag => negb (includes_string removed (tag_id tag))) existingTags).
  set (added := List.filter
                  (fun tagId =>
                     negb (existsb (fun existingTag => strict_eq_string tagId (tag_id existingTag))
                             existingTags)) incoming).
  assert (Hadded : forall tagId,
            In tagId added <->
            In tagId incoming /\
            ~ In tagId (List.map (fun tag => JString (tag_id tag)) existingTags)).
  { intros tagId. unfold added. rewrite filter_In, negb_true_iff, <- already_tagged_In.
    destruct (existsb _ existingTags); split; intros [H1 H2]; split; auto; try discriminate.
    exfalso. apply H2. reflexivity. }
  assert (Hids : List.map tagref_id (List.map TagEntity kept ++ List.map TagPlaceholder added) =
                 List.map (fun tag => JString (tag_id tag)) kept ++ added).
  { rewrite List.map_app, !List.map_map. cbn [tagref_id]. rewrite List.map_id. reflexivity. }
  exists kept, added.
  split; [reflexivity |]. split; [reflexivity |]. split; [exact Hadded |].
  split; [| split; [| reflexivity]].
  - intros tag Htag Hremoved. rewrite Hids, in_app_iff, in_map_iff.
    intros [(tag' & Heq & Hkept) | Hnew].
    + injection Heq as Heq. unfold kept in Hkept. apply filter_In in Hkept as [_ Hkept].
      rewrite Heq in Hkept. apply negb_true_iff in Hkept.
      apply includes_string_In in Hremoved. rewrite Hremoved in Hkept. discriminate Hkept.
    + apply Hadded in Hnew as [_ Hnew]. apply Hnew. apply in_map_iff.
      exists tag. split; [reflexivity | exact Htag].
  - intros Hdistinct Hincoming. rewrite Hids.
    apply List.NoDup_app.
    + assert (Hk : List.NoDup (List.map tag_id kept)).
      { unfold kept. clear -Hdistinct. induction existingTags as [| tag rest IH]; [constructor |].
        cbn [List.filter]. inversion Hdistinct as [| ? ? Hnot Hrest]; subst.
        destruct (negb (includes_string removed (tag_id tag))); [| exact (IH Hrest)].
        cbn [List.map]. constructor; [| exact (IH Hrest)].
        intros Hin. apply Hnot. apply in_map_iff in Hin as (tag' & Heq & Hin).
        apply filter_In in Hin as [Hin _]. apply in_map_iff. exists tag'. split; assumption. }
      rewrite <- (List.map_map tag_id JString).
      apply List.NoDup_map_NoDup_ForallPairs; [| exact Hk].
      intros x y _ _ Heq. injection Heq as Heq. exact Heq.
    + apply List.NoDup_filter. exact Hincoming.
    + intros tagId Hk Hnew.
      apply Hadded in Hnew as [_ Hnew]. apply Hnew.
      apply in_map_iff in Hk as (tag & Heq & Hk). apply in_map_iff. exists tag.
      split; [exact Heq |]. unfold kept in Hk. apply filter_In in Hk as [Hk _]. exact Hk.
Qed.

(** Tags T1 and T2, T1 removed, T1 and T3 asked for: the command holds T2
    and a placeholder for T3. *)
Lemma update_merges_tags_witness :
  exists kept added,
    uc_tags (update_command (str "a1") retag
               (alice_article [] [stored_tag "T1"; stored_tag "T2"]) None [] []) =
      Some (List.map TagEntity kept ++ List.map TagPlaceholder added) /\
    List.map tag_id kept = [str "T2"] /\
    (forall tagId, In tagId added <-> tagId = JString (str "T3")).
Proof.
  destruct (update_merges_tags tagged_stored [] (str "a1") retag None (Some alice)
              (alice_article [] [stored_tag "T1"; stored_tag "T2"])
              (update_command (str "a1") retag
                 (alice_article [] [stored_tag "T1"; stored_tag "T2"]) None [] [])
              eq_refl (or_introl eq_refl))
    as (kept & added & Htags & Hkept & Hadded & _).
  exists kept, added. split; [exact Htags |]. split; [rewrite Hkept; reflexivity |].
  intros tagId. rewrite Hadded. vm_compute. split.
  - intros [[H | [H | []]] Hnot]; [| symmetry; exact H].
    exfalso. apply Hnot. left. exact H.
  - intros ->. split; [right; left; reflexivity |].
    intros [H | [H | []]]; discriminate H.
Defined.

(** ** update: a removal list that is JSON for a single value *)

Lemma filter_keeps_all {A} (f : A -> bool) (l : list A) :
  (forall x, f x = true) -> List.filter f l = l.
Proof.
  intros Hf. induction l as [| x l IH]; [reflexivity |].
  cbn [List.filter]. rewrite Hf, IH. reflexivity.
Qed.

(** When [removedImages] is a string that [JSON.parse] reads as a truthy
    value that is neither an array nor a string, such as an id made of
    digits only, the parsed value is what [update] asks the file service
    to delete, while the command keeps every image of the article: the
    value is strictly equal to no file id. *)
Theorem update_scalar_removal_list_removes_no_image
    (env : Env) (h : Trace) (id : jstring) (dto : UpdateArticleDto) (files : option Files)
    (u : User) (existing : Article) (s : jstring) (parsed : JSValue) :
  respond env h (GetArticleByIdQuery id) = inr (Some existing) ->
  fst (check_owner u (Some existing) h) = inr tt ->
  udto_removedImages dto = JString s ->
  JSON.parse s = Some parsed ->
  match parsed with
  | JArray _ | JString _ => False
  | _ => truthy parsed = true
  end ->
  (exists later,
     List.map fst (file_deletions (snd (update env id dto files (Some u) h))) =
       parsed :: later) /\
  (forall command,
     In command (update_commands (snd (update env id dto files (Some u) h))) ->
     exists uploaded,
       uc_images command = Some (default [] (art_images existing) ++ uploaded)).
Proof.
  intros Hget Howner Hremoved Hparse Hscalar.
  assert (Hlist : parseArrayField (udto_removedImages dto) = [parsed]).
  { rewrite Hremoved. unfold parseArrayField, json_parse.
    destruct s as [| c s']; [discriminate Hparse |]. cbn [truthy negb]. rewrite Hparse.
    destruct parsed; try contradiction; rewrite Hscalar; reflexivity. }
  destruct (update_run env h id dto files (Some u)) as (logs & -> & Hlogs).
  destruct (logs_quiet logs Hlogs) as (Hlc & _ & _ & _ & Hlf).
  rewrite file_deletions_app, update_commands_app, Hlc, Hlf, !app_nil_r.
  destruct (update_body env id dto files (Some u) h) as [o tb] eqn:Hbody. cbn [snd].
  split.
  - destruct (update_body_deletions env h id dto files u existing o tb Hget Howner Hbody)
      as [Hdel _].
    rewrite Hdel, Hlist. eexists. reflexivity.
  - intros command Hin.
    destruct (update_body_commands env h id dto files (Some u) existing o tb Hget Hbody)
      as [Hnone | (fm & upI & upV & Hcmds & _)].
    { rewrite Hnone in Hin. destruct Hin. }
    rewrite Hcmds in Hin. destruct Hin as [<- | []].
    exists upI. cbn [update_command uc_images]. rewrite Hlist. do 2 f_equal.
    apply filter_keeps_all. intros file. unfold includes_string. cbn [existsb].
    assert (Hne : strict_eq_string parsed (file_id file) = false)
      by (destruct parsed; try reflexivity; contradiction).
    rewrite Hne. reflexivity.
Qed.

(** The article has the image [7] and the update lists [7]: the number 7
    goes to the file service, and the image stays in the command. *)
Lemma update_scalar_removal_list_removes_no_image_witness :
  (exists later,
     List.map fst
       (file_deletions (snd (update numbered_stored (str "a1") remove_7 None (Some alice) []))) =
     JNumber {| num_neg := false; num_mant := 7; num_exp := 0 |} :: later) /\
  exists uploaded,
    uc_images (update_command (str "a1") remove_7 (alice_article [stored_file "7"] [])
                 None [] []) =
    Some ([stored_file "7"] ++ uploaded).
Proof.
  destruct (update_scalar_removal_list_removes_no_image numbered_stored [] (str "a1") remove_7
              None alice (alice_article [stored_file "7"] []) (str "7")
              (JNumber {| num_neg := false; num_mant := 7; num_exp := 0 |})
              eq_refl eq_refl eq_refl eq_refl eq_refl) as [Hdeleted Hkept].
  split; [exact Hdeleted |].
  apply Hkept. left. reflexivity.
Defined.

(** ** update: the answer *)

Lemma update_command_in_trace (command : UpdateArticleCommand) (r : Outcome unit) (t : Trace) :
  In (Called (UpdateArticleUsecase command) r) t -> In command (update_commands t).
Proof.
  induction t as [| e t IH]; [intros [] |].
  intros [-> | Hin]; [left; reflexivity |].
  destruct e as [c r' | entry]; [destruct c |]; cbn [update_commands]; auto.
  right. auto.
Qed.

(** When [update] succeeds, it has given exactly one command to the
    update use case, its last call read the article back, and the answer
    is that article as the query returned it. *)
Theorem update_success_returns_refreshed_article
    (env : Env) (h : Trace) (id : jstring) (dto : UpdateArticleDto) (files : option Files)
    (user : option User) (d : DisplayArticleDto) (t : Trace) :
  update env id dto files user h = (inr d, t) ->
  exists existing refreshed before command,
    respond env h (GetArticleByIdQuery id) = inr (Some existing) /\
    t = before ++ [Called (GetArticleByIdQuery id) (inr (Some refreshed))] /\
    d = mapToDisplayDto refreshed /\
    update_commands t = [command] /\
    uc_id command = id.
Proof.
  unfold update, try_catch.
  destruct (update_body env id dto files user h) as [[e | d'] tb] eqn:Hbody;
    [cbn; intros H; unfold Outcome in H; discriminate H |].
  intros H. injection H as <- <-.
  pose proof Hbody as Hrun. unfold update_body in Hrun.
  apply bind_returns in Hrun as (existingArticle & t1 & r1 & Hget & Hrun & Ht).
  unfold call in Hget. injection Hget as Hget <-.
  destruct user as [u |]; [| cbn in Hrun; unfold Outcome in Hrun; discriminate Hrun].
  apply bind_returns in Hrun as ([] & t2 & r2 & _ & Hrun & ->).
  destruct existingArticle as [existing |];
    [| cbn in Hrun; unfold Outcome in Hrun; discriminate Hrun].
  apply bind_returns in Hrun as ([] & t3 & r3 & _ & Hrun & ->).
  apply bind_returns in Hrun as (fm & t4 & r4 & _ & Hrun & ->).
  apply bind_returns in Hrun as (upI & t5 & r5 & _ & Hrun & ->).
  apply bind_returns in Hrun as (upV & t6 & r6 & _ & Hrun & ->).
  apply bind_returns in Hrun as ([] & t7 & r7 & Hupdate & Hrun & ->).
  unfold call in Hupdate. injection Hupdate as Hupdate <-.
  apply bind_returns in Hrun as (refreshedArticle & t8 & r8 & Hlast & Hrun & ->).
  unfold call in Hlast. injection Hlast as Hlast <-.
  destruct refreshedArticle as [refreshed |];
    [| cbn in Hrun; unfold Outcome in Hrun; discriminate Hrun].
  cbn in Hrun. injection Hrun as <- <-.
  destruct (update_body_commands env h id dto files (Some u) existing _ _ Hget Hbody)
    as [Hnone | (fm' & upI' & upV' & Hcmds & _)].
  - exfalso.
    assert (Hin : In (update_command id dto existing fm upI upV) (update_commands tb)).
    { apply (update_command_in_trace _ (inr tt)). rewrite Ht.
      apply in_or_app. right. apply in_or_app. right. apply in_or_app. right.
      apply in_or_app. right. apply in_or_app. right. apply in_or_app. right.
      apply in_or_app. left. rewrite Hupdate. left. reflexivity. }
    rewrite Hnone in Hin. destruct Hin.
  - exists existing, refreshed. eexists. exists (update_command id dto existing fm' upI' upV').
    split; [exact Hget |]. split.
    + rewrite ?app_nil_r, Ht, Hlast, ?app_nil_r. rewrite !app_assoc. reflexivity.
    + split; [reflexivity |]. split; [rewrite ?app_nil_r; exact Hcmds | reflexivity].
Qed.

(** Alice updates her stored draft with nothing to change. *)
Lemma update_success_returns_refreshed_article_witness :
  exists d t,
    update alice_draft_stored (str "a1") empty_update_dto None (Some alice) [] = (inr d, t) /\
    d = mapToDisplayDto (sample_article DRAFT) /\
    length (update_commands t) = 1.
Proof.
  eexists _, _. split; [vm_compute; reflexivity |].
  destruct (update_success_returns_refreshed_article alice_draft_stored [] (str "a1")
              empty_update_dto None (Some alice) _ _ eq_refl)
    as (existing & refreshed & before & command & _ & _ & _ & Hcmds & _).
  split; [reflexivity |]. exact (f_equal (@length UpdateArticleCommand) Hcmds).
Defined.

(** ** Splitting and trimming *)

Lemma trim_start_fixed (s : jstring) :
  match s with [] => True | c :: _ => is_js_whitespace c = false end ->
  trim_start s = s.
Proof. destruct s as [| c r]; [reflexivity |]. simpl. intros ->. reflexivity. Qed.

Lemma trim_start_clean (s : jstring) :
  match trim_start s with [] => True | c :: _ => is_js_whitespace c = false end.
Proof.
  induction s as [| c r IH]; [exact I |]. simpl.
  destruct (is_js_whitespace c) eqn:Hc; [exact IH | exact Hc].
Qed.

Lemma trim_start_suffix (s : jstring) :
  exists spaces, s = spaces ++ trim_start s.
Proof.
  induction s as [| c r [spaces IH]]; [exists []; reflexivity |]. simpl.
  destruct (is_js_whitespace c).
  - exists (c :: spaces). simpl. rewrite <- IH. reflexivity.
  - exists []. reflexivity.
Qed.

Lemma trim_clean_start (s : jstring) :
  match trim s with [] => True | c :: _ => is_js_whitespace c = false end.
Proof.
  unfold trim. pose proof (trim_start_clean s) as Hclean.
  destruct (trim_start_suffix (rev (trim_start s))) as [spaces Hsuffix].
  apply (f_equal (@rev N)) in Hsuffix. rewrite rev_involutive, rev_app_distr in Hsuffix.
  destruct (rev (trim_start (rev (trim_start s)))) as [| c r]; [exact I |].
  rewrite Hsuffix in Hclean. exact Hclean.
Qed.

(** [trim] leaves a trimmed string as it is. *)
Lemma trim_idempotent (s : jstring) : trim (trim s) = trim s.
Proof.
  unfold trim at 1. rewrite (trim_start_fixed (trim s) (trim_clean_start s)).
  unfold trim. rewrite rev_involutive.
  rewrite (trim_start_fixed _ (trim_start_clean (rev (trim_start s)))). reflexivity.
Qed.

Lemma trim_In (c : N) (s : jstring) : In c (trim s) -> In c s.
Proof.
  unfold trim. intros H. apply in_rev in H.
  destruct (trim_start_suffix (rev (trim_start s))) as [spaces Hsuffix].
  assert (H1 : In c (rev (trim_start s))) by (rewrite Hsuffix; apply in_or_app; right; exact H).
  apply in_rev in H1.
  destruct (trim_start_suffix s) as [spaces' Hsuffix'].
  rewrite Hsuffix'. apply in_or_app. right. exact H1.
Qed.

Lemma split_from_pieces (cur s : jstring) :
  ~ In comma cur ->
  Forall (fun piece => ~ In comma piece) (split_from cur s).
Proof.
  revert cur. induction s as [| c r IH]; intros cur Hcur; simpl.
  - constructor; [| constructor]. intros H. apply in_rev in H. exact (Hcur H).
  - destruct (N.eqb_spec c comma) as [-> | Hc].
    + constructor; [intros H; apply in_rev in H; exact (Hcur H) |].
      apply IH. intros [].
    + apply IH. intros [H | H]; [exact (Hc H) | exact (Hcur H)].
Qed.

Lemma split_from_length (cur s : jstring) :
  length (split_from cur s) = S (count_occ N.eq_dec s comma).
Proof.
  revert cur. induction s as [| c r IH]; intros cur; [reflexivity |].
  cbn [split_from count_occ].
  destruct (N.eqb_spec c comma) as [-> | Hc].
  - destruct (N.eq_dec comma comma) as [_ | Hne]; [| contradiction].
    cbn [length]. rewrite IH. reflexivity.
  - destruct (N.eq_dec c comma) as [Heq | _]; [contradiction |]. apply IH.
Qed.

Lemma split_from_trailing_comma (cur s : jstring) :
  split_from cur (s ++ [comma]) = split_from cur s ++ [[]].
Proof.
  revert cur. induction s as [| c r IH]; intros cur; [reflexivity |].
  cbn [app split_from]. destruct (N.eqb c comma); rewrite IH; reflexivity.
Qed.

(** ** create: tag ids given as text *)

(** A non-empty [tagIds] string gives one id for every piece between
    commas, empty pieces included: one more id than the string has commas.
    Every id is trimmed and has no comma; a trailing comma adds the empty
    id at the end. *)
Theorem parse_tagIds_keeps_every_piece (s : jstring) :
  s <> [] ->
  length (parse_tagIds (Some (inl s))) = S (count_occ N.eq_dec s comma) /\
  Forall (fun id => trim id = id /\ ~ In comma id) (parse_tagIds (Some (inl s))) /\
  parse_tagIds (Some (inl (s ++ [comma]))) = parse_tagIds (Some (inl s)) ++ [[]].
Proof.
  intros Hs. destruct s as [| c r]; [contradiction |].
  cbn [parse_tagIds app]. split; [| split].
  - rewrite length_map. apply split_from_length.
  - apply List.Forall_map.
    eapply List.Forall_impl; [| apply (split_from_pieces [] (c :: r)); intros []].
    intros piece Hpiece. split; [apply trim_idempotent |].
    intros H. apply Hpiece. apply trim_In. exact H.
  - change (c :: r ++ [comma]) with ((c :: r) ++ [comma]).
    unfold split_comma. rewrite split_from_trailing_comma, List.map_app. reflexivity.
Qed.

Lemma parse_tagIds_keeps_every_piece_witness :
  parse_tagIds (Some (inl (str "t1, ,t2,"))) = [str "t1"; []; str "t2"; []].
Proof.
  assert (Hs : str "t1, ,t2" <> []) by (vm_compute; discriminate).
  destruct (parse_tagIds_keeps_every_piece (str "t1, ,t2") Hs) as (_ & _ & Htrailing).
  change (str "t1, ,t2,") with (str "t1, ,t2" ++ [comma]).
  rewrite Htrailing. reflexivity.
Defined.

(** ** update: what [parseArrayField] returns *)

(** [parseArrayField] never returns [null] or [undefined] among the ids,
    and returns no id at all for a falsy value.  From a string that is not
    JSON it returns strings only, each a trimmed, non-empty piece without a
    comma: unlike the tag ids of [create], empty pieces are dropped. *)
Theorem parseArrayField_returns_clean_ids (value : JSValue) :
  Forall (fun item => not_nullish item = true) (parseArrayField value) /\
  (truthy value = false -> parseArrayField value = []) /\
  (forall s,
     value = JString s -> JSON.parse s = None ->
     Forall (fun item =>
               exists piece, item = JString piece /\ piece <> [] /\
                             trim piece = piece /\ ~ In comma piece)
       (parseArrayField value)).
Proof.
  split; [| split].
  - unfold parseArrayField. destruct (truthy value); cbn [negb]; [| constructor].
    destruct value; try constructor.
    + unfold json_parse. destruct (JSON.parse s) as [parsed |].
      * destruct parsed; cbn [truthy]; try (repeat constructor).
        -- destruct b; repeat constructor.
        -- destruct (negb (number_is_zero n)); repeat constructor.
        -- destruct s0; repeat constructor.
        -- apply List.Forall_forall. intros x Hx. apply filter_In in Hx as [_ Hx]. exact Hx.
      * apply List.Forall_map. apply List.Forall_forall. intros; reflexivity.
    + apply List.Forall_forall. intros x Hx. apply filter_In in Hx as [_ Hx]. exact Hx.
  - unfold parseArrayField. intros ->. reflexivity.
  - intros s -> Hparse. unfold parseArrayField, json_parse. rewrite Hparse.
    destruct (truthy (JString s)); cbn [negb]; [| constructor].
    apply List.Forall_map. apply List.Forall_forall. intros piece Hpiece.
    apply filter_In in Hpiece as [Hpiece Hnonempty].
    apply in_map_iff in Hpiece as (raw & <- & Hraw).
    exists (trim raw). split; [reflexivity |]. split; [| split].
    + intros Hnil. rewrite Hnil in Hnonempty. discriminate Hnonempty.
    + apply trim_idempotent.
    + pose proof (split_from_pieces [] s (fun H => H)) as Hpieces.
      rewrite List.Forall_forall in Hpieces.
      intros H. apply (Hpieces raw Hraw). apply trim_In. exact H.
Qed.

(** ** [JSON.parse] reads back the text of a plain value *)

(** Induction over a value and the values inside it. *)
Lemma JSValue_nested_ind (P : JSValue -> Prop) :
  P JUndefined -> P JNull -> (forall b, P (JBool b)) -> (forall n, P (JNumber n)) ->
  (forall s, P (JString s)) ->
  (forall items, Forall P items -> P (JArray items)) ->
  (forall members, Forall (fun member => P (snd member)) members -> P (JObject members)) ->
  forall v, P v.
Proof.
  intros Hu Hn Hb Hnum Hs Ha Ho.
  fix IH 1. intros [| | b | n | s | items | members].
  - exact Hu.
  - exact Hn.
  - apply Hb.
  - apply Hnum.
  - apply Hs.
  - apply Ha. induction items as [| v items IHitems]; constructor; [apply IH | exact IHitems].
  - apply Ho. induction members as [| [k v] members IHm]; constructor; [apply IH | exact IHm].
Qed.

Lemma lex_string_body (s : jstring) (acc : jstring) (out : list JSON.Token) (rest : jstring) :
  plain_string s = true ->
  JSON.lex_from (JSON.LStr acc) out (s ++ 34%N :: rest) =
  JSON.lex_from JSON.LIdle (JSON.TString (rev acc ++ s) :: out) rest.
Proof.
  revert acc. induction s as [| c s IH]; intros acc Hs.
  - cbn. rewrite app_nil_r. reflexivity.
  - cbn [plain_string forallb] in Hs. apply andb_true_iff in Hs as [Hc Hs].
    unfold plain_char in Hc. apply andb_true_iff in Hc as [Hc H32].
    apply andb_true_iff in Hc as [H34 H92].
    apply negb_true_iff in H34, H92, H32.
    cbn [app JSON.lex_from JSON.lex_step]. rewrite H34, H92, H32.
    rewrite IH by exact Hs. cbn [rev]. rewrite <- app_assoc. reflexivity.
Qed.

Lemma lex_json_string (s : jstring) (out : list JSON.Token) (rest : jstring) :
  plain_string s = true ->
  JSON.lex_from JSON.LIdle out (json_string s ++ rest) =
  JSON.lex_from JSON.LIdle (JSON.TString s :: out) rest.
Proof.
  intros Hs. unfold json_string. cbn [app JSON.lex_from JSON.lex_step].
  change (JSON.lex_idle 34 out) with (Some (JSON.LStr [], out)).
  cbv beta iota.
  rewrite <- app_assoc. cbn [app]. rewrite lex_string_body by exact Hs. reflexivity.
Qed.

Lemma lex_word (w : jstring) (t : JSON.Token) (out : list JSON.Token) (rest : jstring) :
  w <> [] ->
  forallb JSON.is_word_char w = true ->
  JSON.classify_word w = Some t ->
  ends_word rest ->
  JSON.lex_from JSON.LIdle out (w ++ rest) = JSON.lex_from JSON.LIdle (t :: out) rest.
Proof.
  intros Hne Hw Hclass Hrest.
  assert (Hacc : forall w' acc,
            forallb JSON.is_word_char w' = true ->
            JSON.classify_word (rev acc ++ w') = Some t ->
            JSON.lex_from (JSON.LWord acc) out (w' ++ rest) =
            JSON.lex_from JSON.LIdle (t :: out) rest).
  { induction w' as [| c w' IH]; intros acc Hw' Hc.
    - rewrite app_nil_r in Hc. cbn [app].
      destruct rest as [| c rest']; cbn [JSON.lex_from JSON.lex_step].
      + rewrite Hc. reflexivity.
      + cbn in Hrest. rewrite Hrest, Hc. reflexivity.
    - cbn [forallb] in Hw'. apply andb_true_iff in Hw' as [Hc1 Hw'].
      cbn [app JSON.lex_from JSON.lex_step]. rewrite Hc1.
      apply IH; [exact Hw' |]. cbn [rev]. rewrite <- app_assoc. exact Hc. }
  destruct w as [| c w']; [contradiction |].
  cbn [forallb] in Hw. apply andb_true_iff in Hw as [Hc1 Hw].
  cbn [app JSON.lex_from JSON.lex_step].
  assert (Hidle : JSON.lex_idle c out = Some (JSON.LWord [c], out)).
  { unfold JSON.lex_idle. revert Hc1. unfold JSON.is_word_char, JSON.is_digit.
    destruct (N.eqb_spec c 9) as [-> | _]; [discriminate |].
    destruct (N.eqb_spec c 10) as [-> | _]; [discriminate |].
    destruct (N.eqb_spec c 13) as [-> | _]; [discriminate |].
    destruct (N.eqb_spec c 32) as [-> | _]; [discriminate |].
    destruct (N.eqb_spec c 91) as [-> | _]; [discriminate |].
    destruct (N.eqb_spec c 93) as [-> | _]; [discriminate |].
    destruct (N.eqb_spec c 123) as [-> | _]; [discriminate |].
    destruct (N.eqb_spec c 125) as [-> | _]; [discriminate |].
    destruct (N.eqb_spec c 44) as [-> | _]; [discriminate |].
    destruct (N.eqb_spec c 58) as [-> | _]; [discriminate |].
    destruct (N.eqb_spec c 34) as [-> | _]; [discriminate |].
    cbn [orb]. intros ->. reflexivity. }
  rewrite Hidle. apply Hacc; [exact Hw | exact Hclass].
Qed.

Lemma lex_joined (texts : list jstring) (groups : list (list JSON.Token))
    (out : list JSON.Token) (rest : jstring) :
  Forall2 (fun text group =>
             forall out' rest', ends_word rest' ->
               JSON.lex_from JSON.LIdle out' (text ++ rest') =
               JSON.lex_from JSON.LIdle (rev group ++ out') rest') texts groups ->
  ends_word rest ->
  JSON.lex_from JSON.LIdle out (join_comma texts ++ rest) =
  JSON.lex_from JSON.LIdle (rev (separated groups) ++ out) rest.
Proof.
  intros Hall Hrest. revert out.
  induction Hall as [| text group texts groups Hone Hall IH]; intros out; [reflexivity |].
  destruct Hall as [| text2 group2 texts' groups' Hone2 Hall'].
  - cbn [join_comma separated]. apply Hone. exact Hrest.
  - change (join_comma (text :: text2 :: texts'))
      with (text ++ comma :: join_comma (text2 :: texts')).
    change (separated (group :: group2 :: groups'))
      with (group ++ JSON.TComma :: separated (group2 :: groups')).
    rewrite <- app_assoc. rewrite Hone by reflexivity.
    cbn [app JSON.lex_from JSON.lex_step].
    change (JSON.lex_idle comma (rev group ++ out))
      with (Some (JSON.LIdle, JSON.TComma :: rev group ++ out)).
    cbv beta iota.
    rewrite IH. rewrite rev_app_distr. cbn [rev]. rewrite <- !app_assoc. reflexivity.
Qed.

Lemma lex_json_text (v : JSValue) :
  is_plain v = true ->
  forall out rest, ends_word rest ->
    JSON.lex_from JSON.LIdle out (json_text v ++ rest) =
    JSON.lex_from JSON.LIdle (rev (json_tokens v) ++ out) rest.
Proof.
  induction v as [| | b | n | s | items IH | members IH] using JSValue_nested_ind;
    intros Hplain out rest Hrest; try discriminate Hplain.
  - apply (lex_word (str "null") JSON.TNull); try reflexivity; [discriminate | exact Hrest].
  - destruct b.
    + apply (lex_word (str "true") JSON.TTrue); try reflexivity; [discriminate | exact Hrest].
    + apply (lex_word (str "false") JSON.TFalse); try reflexivity; [discriminate | exact Hrest].
  - apply lex_json_string. exact Hplain.
  - cbn [json_text json_tokens is_plain] in *.
    change (str "[") with [91%N]. change (str "]") with [93%N].
    cbn [app JSON.lex_from JSON.lex_step].
    change (JSON.lex_idle 91 out) with (Some (JSON.LIdle, JSON.TLBracket :: out)).
    cbv beta iota.
    rewrite <- app_assoc.
    rewrite (lex_joined (List.map json_text items) (List.map json_tokens items)).
    + cbn [app JSON.lex_from JSON.lex_step].
      change (JSON.lex_idle 93 ?o) with (Some (JSON.LIdle, JSON.TRBracket :: o)).
      cbv beta iota.
      cbn [rev]. rewrite ?rev_app_distr. cbn [rev app]. rewrite <- ?app_assoc.
      cbn [app]. reflexivity.
    + clear -IH Hplain. induction IH as [| v items Hv _ IHitems]; [constructor |].
      cbn [forallb] in Hplain. apply andb_true_iff in Hplain as [Hp1 Hp2].
      constructor; [| exact (IHitems Hp2)].
      intros out' rest' Hrest'. apply Hv; assumption.
    + reflexivity.
  - cbn [json_text json_tokens is_plain] in *.
    change (str "{") with [123%N]. change (str "}") with [125%N].
    cbn [app JSON.lex_from JSON.lex_step].
    change (JSON.lex_idle 123 out) with (Some (JSON.LIdle, JSON.TLBrace :: out)).
    cbv beta iota.
    rewrite <- app_assoc.
    rewrite (lex_joined
               (List.map (fun member => json_string (fst member) ++ str ":" ++
                                        json_text (snd member)) members)
               (List.map (fun member => JSON.TString (fst member) :: JSON.TColon ::
                                        json_tokens (snd member)) members)).
    + cbn [app JSON.lex_from JSON.lex_step].
      change (JSON.lex_idle 125 ?o) with (Some (JSON.LIdle, JSON.TRBrace :: o)).
      cbv beta iota.
      cbn [rev]. rewrite ?rev_app_distr. cbn [rev app]. rewrite <- ?app_assoc.
      cbn [app]. reflexivity.
    + clear -IH Hplain. induction IH as [| [k v] members Hv _ IHm]; [constructor |].
      cbn [forallb fst snd] in Hplain. apply andb_true_iff in Hplain as [Hp1 Hp2].
      apply andb_true_iff in Hp1 as [Hk Hp1].
      constructor; [| exact (IHm Hp2)].
      intros out' rest' Hrest'. cbn [fst snd].
      rewrite <- !app_assoc. rewrite lex_json_string by exact Hk.
      change (str ":") with [58%N].
      cbn [app JSON.lex_from JSON.lex_step].
      change (JSON.lex_idle 58 ?o) with (Some (JSON.LIdle, JSON.TColon :: o)).
      cbv beta iota.
      cbn [snd] in Hv. rewrite (Hv Hp1) by exact Hrest'.
      cbn [rev]. rewrite <- !app_assoc. reflexivity.
    + reflexivity.
Qed.

Lemma parse_json_tokens (v : JSValue) :
  is_plain v = true ->
  forall e stk rest,
    e = JSON.EValue \/ e = JSON.EValueOrClose ->
    JSON.parse_tokens (e, stk) (json_tokens v ++ rest) =
    match JSON.deliver v stk with
    | Some st => JSON.parse_tokens st rest
    | None => None
    end.
Proof.
  induction v as [| | b | n | s | items IH | members IH] using JSValue_nested_ind;
    intros Hplain e stk rest He; try discriminate Hplain.
  - destruct He as [-> | ->]; reflexivity.
  - destruct He as [-> | ->]; destruct b; reflexivity.
  - destruct He as [-> | ->]; reflexivity.
  - assert (Hitems : forall acc e',
              e' = JSON.EValueOrClose \/ (e' = JSON.EValue /\ items <> []) ->
              JSON.parse_tokens (e', JSON.FArr acc :: stk)
                (separated (List.map json_tokens items) ++ JSON.TRBracket :: rest) =
              match JSON.deliver (JArray (rev acc ++ items)) stk with
              | Some st => JSON.parse_tokens st rest
              | None => None
              end).
    { cbn [is_plain] in Hplain. clear He e.
      induction IH as [| x r Hx _ IHr]; intros acc e' He'.
      - destruct He' as [-> | [_ Hne]]; [| contradiction].
        cbn. rewrite app_nil_r. reflexivity.
      - cbn [forallb] in Hplain. apply andb_true_iff in Hplain as [Hp1 Hp2].
        assert (Hvalue : e' = JSON.EValue \/ e' = JSON.EValueOrClose)
          by (destruct He' as [-> | [-> _]]; [right | left]; reflexivity).
        destruct r as [| y r'].
        + cbn [List.map separated]. rewrite (Hx Hp1) by exact Hvalue.
          cbn. rewrite <- ?app_assoc. reflexivity.
        + change (separated (List.map json_tokens (x :: y :: r')))
            with (json_tokens x ++ JSON.TComma :: separated (List.map json_tokens (y :: r'))).
          rewrite <- app_assoc. rewrite (Hx Hp1) by exact Hvalue.
          cbn [JSON.deliver app JSON.parse_tokens JSON.parse_step].
          rewrite (IHr Hp2 (x :: acc) JSON.EValue) by (right; split; [reflexivity | discriminate]).
          cbn [rev]. rewrite <- ?app_assoc. reflexivity. }
    cbn [json_tokens app]. rewrite <- app_assoc. cbn [app].
    destruct He as [-> | ->]; cbn [JSON.parse_tokens JSON.parse_step JSON.start_value];
      rewrite Hitems by (left; reflexivity); reflexivity.
  - assert (Hmembers : forall acc e',
              e' = JSON.EKeyOrClose \/ (e' = JSON.EKey /\ members <> []) ->
              JSON.parse_tokens (e', JSON.FObj acc None :: stk)
                (separated
                   (List.map (fun member => JSON.TString (fst member) :: JSON.TColon ::
                                            json_tokens (snd member)) members) ++
                 JSON.TRBrace :: rest) =
              match JSON.deliver (JObject (rev acc ++ members)) stk with
              | Some st => JSON.parse_tokens st rest
              | None => None
              end).
    { cbn [is_plain] in Hplain. clear He e.
      induction IH as [| [k x] r Hx _ IHr]; intros acc e' He'.
      - destruct He' as [-> | [_ Hne]]; [| contradiction].
        cbn. rewrite app_nil_r. reflexivity.
      - cbn [forallb fst snd] in Hplain. apply andb_true_iff in Hplain as [Hp1 Hp2].
        apply andb_true_iff in Hp1 as [_ Hp1]. cbn [snd] in Hx.
        assert (Hkey : JSON.parse_step (e', JSON.FObj acc None :: stk) (JSON.TString k) =
                       Some (JSON.EColon, JSON.FObj acc (Some k) :: stk))
          by (destruct He' as [-> | [-> _]]; reflexivity).
        destruct r as [| y r'].
        + cbn [List.map separated fst snd app JSON.parse_tokens]. rewrite Hkey.
          cbn [JSON.parse_tokens JSON.parse_step].
          rewrite (Hx Hp1) by (left; reflexivity).
          cbn. rewrite <- ?app_assoc. reflexivity.
        + match goal with
          | |- context [separated (List.map ?f (?a :: ?b :: ?c))] =>
              change (separated (List.map f (a :: b :: c)))
                with (f a ++ JSON.TComma :: separated (List.map f (b :: c)))
          end.
          cbn [fst snd]. rewrite <- app_assoc. cbn [app JSON.parse_tokens]. rewrite Hkey.
          cbn [JSON.parse_tokens JSON.parse_step].
          rewrite (Hx Hp1) by (left; reflexivity).
          cbn [JSON.deliver app JSON.parse_tokens JSON.parse_step].
          rewrite (IHr Hp2 ((k, x) :: acc) JSON.EKey)
            by (right; split; [reflexivity | discriminate]).
          cbn [rev]. rewrite <- ?app_assoc. reflexivity. }
    cbn [json_tokens app]. rewrite <- app_assoc. cbn [app].
    destruct He as [-> | ->]; cbn [JSON.parse_tokens JSON.parse_step JSON.start_value];
      rewrite Hmembers by (left; reflexivity); reflexivity.
Qed.

Lemma lex_plain_text (v : JSValue) :
  is_plain v = true -> JSON.lex (json_text v) = Some (json_tokens v).
Proof.
  intros Hplain. unfold JSON.lex.
  rewrite <- (app_nil_r (json_text v)).
  rewrite (lex_json_text v Hplain [] [] I).
  cbn [JSON.lex_from]. rewrite app_nil_r, rev_involutive. reflexivity.
Qed.

(** [JSON.parse] reads the text of a plain value back as that value. *)
Lemma parse_plain_text (v : JSValue) :
  is_plain v = true -> JSON.parse (json_text v) = Some v.
Proof.
  intros Hplain. unfold JSON.parse. rewrite (lex_plain_text v Hplain).
  rewrite <- (app_nil_r (json_tokens v)).
  rewrite (parse_json_tokens v Hplain JSON.EValue [] []) by (left; reflexivity).
  reflexivity.
Qed.

(** Two or more values separated by commas, with no brackets around
    them, are not JSON. *)
Lemma parse_bare_list_fails (v1 v2 : JSValue) (vs : list JSValue) :
  forallb is_plain (v1 :: v2 :: vs) = true ->
  JSON.parse (join_comma (List.map json_text (v1 :: v2 :: vs))) = None.
Proof.
  intros Hplain. unfold JSON.parse, JSON.lex.
  assert (Hlex : JSON.lex_from JSON.LIdle [] (join_comma (List.map json_text (v1 :: v2 :: vs))) =
                 Some (separated (List.map json_tokens (v1 :: v2 :: vs)))).
  { rewrite <- (app_nil_r (join_comma _)).
    rewrite (lex_joined _ (List.map json_tokens (v1 :: v2 :: vs))).
    - cbn [JSON.lex_from]. rewrite app_nil_r, rev_involutive. reflexivity.
    - revert Hplain. generalize (v1 :: v2 :: vs). intros l.
      induction l as [| v l IH]; intros Hplain; [constructor |].
      cbn [forallb] in Hplain. apply andb_true_iff in Hplain as [Hp1 Hp2].
      constructor; [| exact (IH Hp2)].
      intros out' rest' Hrest'. apply lex_json_text; assumption.
    - exact I. }
  rewrite Hlex.
  change (separated (List.map json_tokens (v1 :: v2 :: vs)))
    with (json_tokens v1 ++ JSON.TComma :: separated (List.map json_tokens (v2 :: vs))).
  cbn [forallb] in Hplain. apply andb_true_iff in Hplain as [Hp1 _].
  rewrite (parse_json_tokens v1 Hp1 JSON.EValue []) by (left; reflexivity).
  reflexivity.
Qed.

(** ** Lists sent as JSON text *)

Lemma flat_strings (ids : list jstring) : flat (List.map JString ids) = List.map JString ids.
Proof. induction ids as [| id r IH]; [reflexivity |]. cbn. rewrite IH. reflexivity. Qed.

Lemma filter_not_nullish_strings (ids : list jstring) :
  List.filter not_nullish (List.map JString ids) = List.map JString ids.
Proof. induction ids as [| id r IH]; [reflexivity |]. cbn. rewrite IH. reflexivity. Qed.

(** A removal list of an update sent as the JSON text of an array of ids
    is read as exactly those ids; and where the ids are trimmed, non-empty
    and free of commas, the same ids joined by commas, a text that is not
    JSON, are read as the same list. *)
Theorem parseArrayField_reads_json_array_of_ids (ids : list jstring) :
  forallb plain_string ids = true ->
  parseArrayField (JString (json_text (JArray (List.map JString ids)))) =
    List.map JString ids /\
  (ids <> [] ->
   Forall (fun id => id <> [] /\ trim id = id /\ ~ In comma id) ids ->
   JSON.parse (join_comma ids) = None ->
   parseArrayField (JString (join_comma ids)) = List.map JString ids).
Proof.
  intros Hplain. split.
  - assert (Hvalue : is_plain (JArray (List.map JString ids)) = true).
    { cbn [is_plain]. clear -Hplain. induction ids as [| id r IH]; [reflexivity |].
      cbn [forallb List.map is_plain] in *. apply andb_true_iff in Hplain as [H1 H2].
      rewrite H1, (IH H2). reflexivity. }
    unfold parseArrayField, json_parse. rewrite (parse_plain_text _ Hvalue).
    cbn [json_text]. change (str "[") with [91%N]. cbn [app truthy negb].
    rewrite flat_strings, filter_not_nullish_strings. reflexivity.
  - intros Hne Hall Hparse. unfold parseArrayField, json_parse. rewrite Hparse.
    destruct (join_comma ids) as [| c s] eqn:Hj.
    { apply join_comma_nil_inv in Hj as [-> | ->]; [contradiction |].
      apply Forall_cons_iff in Hall as [[Hid _] _]. contradiction. }
    cbn [truthy negb]. rewrite <- Hj. f_equal.
    rewrite split_join_comma;
      [| exact Hne | eapply List.Forall_impl; [| exact Hall]; intros id (_ & _ & H); exact H].
    clear -Hall. induction Hall as [| id r (Hid & Htrim & _) _ IH]; [reflexivity |].
    cbn [List.map List.filter]. rewrite Htrim.
    destruct id as [| c id']; [contradiction |]. cbn [nonempty_string]. rewrite IH. reflexivity.
Qed.

Lemma parseArrayField_reads_json_array_of_ids_witness :
  parseArrayField (JString (str "[" ++ quoted "A" ++ str "," ++ quoted "B" ++ str "]")) =
    [JString (str "A"); JString (str "B")] /\
  parseArrayField (JString (str "A,B")) = [JString (str "A"); JString (str "B")].
Proof.
  assert (Hplain : forallb plain_string [str "A"; str "B"] = true) by reflexivity.
  destruct (parseArrayField_reads_json_array_of_ids [str "A"; str "B"] Hplain)
    as [Hjson Hcommas].
  split; [exact Hjson |].
  apply Hcommas; [discriminate | | reflexivity].
  repeat constructor; try discriminate; vm_compute;
    intros H; repeat (destruct H as [H | H]; [discriminate |]); exact H.
Defined.

Lemma validate_named_tags (tags : list JSValue) :
  Forall (fun tag => exists members,
            tag = JObject members /\ truthy (own_property members (str "name")) = true) tags ->
  validate_tags tags = inr tt.
Proof.
  induction 1 as [| tag tags (members & -> & Hname) _ IH]; [reflexivity |].
  cbn [validate_tags get_member]. rewrite Hname. exact IH.
Qed.

(** The inline tags of a create request in the documented format, the
    JSON text of an array of objects that each have a name, are read as
    exactly those objects; and so is the same text without the brackets,
    which the bracket wrap of [create] recovers. *)
Theorem parse_tags_reads_objects_with_names (tags : list JSValue) :
  forallb is_plain tags = true ->
  Forall (fun tag => exists members,
            tag = JObject members /\ truthy (own_property members (str "name")) = true) tags ->
  parse_tags (Some (json_text (JArray tags))) = inr tags /\
  (tags <> [] -> parse_tags (Some (join_comma (List.map json_text tags))) = inr tags).
Proof.
  intros Hplain Hnamed.
  pose proof (validate_named_tags tags Hnamed) as Hvalid.
  assert (Harray : JSON.parse (json_text (JArray tags)) = Some (JArray tags))
    by (apply parse_plain_text; exact Hplain).
  split.
  - rewrite (parse_tags_of_parsed _ (JArray tags)).
    + unfold validated. cbn [array_or_singleton]. rewrite Hvalid. reflexivity.
    + cbn [json_text]. change (str "[") with [91%N]. discriminate.
    + unfold parse_whole_then_wrapped, json_parse. rewrite Harray. reflexivity.
  - intros Hne. destruct tags as [| tag1 [| tag2 rest]]; [contradiction | |].
    + cbn [List.map join_comma].
      apply Forall_cons_iff in Hnamed as [(members & -> & Hname) _].
      cbn [forallb] in Hplain. apply andb_true_iff in Hplain as [Hp1 _].
      rewrite (parse_tags_of_parsed _ (JObject members)).
      * unfold validated. cbn [array_or_singleton]. rewrite Hvalid. reflexivity.
      * cbn [json_text]. change (str "{") with [123%N]. discriminate.
      * unfold parse_whole_then_wrapped, json_parse.
        rewrite (parse_plain_text _ Hp1). reflexivity.
    + rewrite (parse_tags_of_parsed _ (JArray (tag1 :: tag2 :: rest))).
      * unfold validated. cbn [array_or_singleton]. rewrite Hvalid. reflexivity.
      * apply Forall_cons_iff in Hnamed as [(members & -> & _) _].
        cbn [List.map join_comma json_text]. change (str "{") with [123%N]. discriminate.
      * unfold parse_whole_then_wrapped, json_parse.
        rewrite (parse_bare_list_fails tag1 tag2 rest Hplain).
        change (str "[" ++ join_comma (List.map json_text (tag1 :: tag2 :: rest)) ++ str "]")
          with (json_text (JArray (tag1 :: tag2 :: rest))).
        rewrite Harray. reflexivity.
Qed.

Lemma parse_tags_reads_objects_with_names_witness :
  parse_tags (Some (str "[" ++ two_tags_text ++ str "]")) = inr [named "x"; named "y"] /\
  parse_tags (Some two_tags_text) = inr [named "x"; named "y"].
Proof.
  assert (Hplain : forallb is_plain [named "x"; named "y"] = true) by reflexivity.
  assert (Hnamed : Forall (fun tag => exists members,
                             tag = JObject members /\
                             truthy (own_property members (str "name")) = true)
                     [named "x"; named "y"]).
  { repeat constructor; eexists; split; reflexivity. }
  destruct (parse_tags_reads_objects_with_names [named "x"; named "y"] Hplain Hnamed)
    as [Hfull Hbare].
  split; [exact Hfull | apply Hbare; discriminate].
Defined.
